(** * A shallow embedding of the web crawler: URL canonicalisation
      ([challenge/utils/url_utils.py]) and crawl orchestration
      ([challenge/crawler/crawler.py]).

    Python [str] values are modelled by [string]; a character of the model
    is one code point below 256.  Python [int] values are modelled by [Z],
    [float] values by primitive binary64 floats, [dict] by [gmap] where only
    lookups matter and by an association list where insertion order is
    observable ([UrlSet]). *)

From Stdlib Require Import Strings.String Strings.Ascii ZArith Lia List Bool Floats.
From stdpp Require Import gmap strings list.
From Equations Require Import Equations.

Local Open Scope string_scope.

(* ===================================================================== *)
(** ** Python string primitives                                          *)
(* ===================================================================== *)

Module Str.

(** [s[n:]] *)
Fixpoint drop (n : nat) (s : string) : string :=
  match n, s with
  | O, _ => s
  | S n', String _ s' => drop n' s'
  | S _, EmptyString => EmptyString
  end.

(** [s[:n]] *)
Fixpoint take (n : nat) (s : string) : string :=
  match n, s with
  | S n', String c s' => String c (take n' s')
  | _, _ => EmptyString
  end.

(** [s[:-1]] *)
Fixpoint drop_last (s : string) : string :=
  match s with
  | EmptyString => EmptyString
  | String c EmptyString => EmptyString
  | String c s' => String c (drop_last s')
  end.

(** [s.startswith(p)] *)
Fixpoint startswith (s p : string) {struct p} : bool :=
  match p with
  | EmptyString => true
  | String a p' =>
      match s with
      | EmptyString => false
      | String b s' => Ascii.eqb a b && startswith s' p'
      end
  end.

(** [s.endswith(p)] *)
Definition endswith (s p : string) : bool :=
  (String.length p <=? String.length s)%nat &&
  String.eqb (drop (String.length s - String.length p) s) p.

(** [p in s] for a non-empty [p] *)
Fixpoint contains (p s : string) : bool :=
  match s with
  | EmptyString => startswith EmptyString p
  | String _ s' => startswith s p || contains p s'
  end.

(** [c in s] for a single character [c] *)
Fixpoint mem (c : ascii) (s : string) : bool :=
  match s with
  | EmptyString => false
  | String d s' => Ascii.eqb c d || mem c s'
  end.

(** [s.find(c)] for a single character [c]; [None] stands for [-1]. *)
Fixpoint find (c : ascii) (s : string) : option nat :=
  match s with
  | EmptyString => None
  | String d s' =>
      if Ascii.eqb c d then Some O
      else match find c s' with
           | Some i => Some (S i)
           | None => None
           end
  end.

(** [s.find(c, start)] *)
Definition find_from (c : ascii) (start : nat) (s : string) : option nat :=
  match find c (drop start s) with
  | Some i => Some (start + i)%nat
  | None => None
  end.

(** [s.rfind(c)] *)
Fixpoint rfind (c : ascii) (s : string) : option nat :=
  match s with
  | EmptyString => None
  | String d s' =>
      match rfind c s' with
      | Some i => Some (S i)
      | None => if Ascii.eqb c d then Some O else None
      end
  end.

(** [s.replace(old, new)] for a non-empty [old]: occurrences are replaced
    from the left and do not overlap.  [skip] counts the characters of an
    occurrence that is being replaced and are still to be passed over. *)
Fixpoint replace_from (old new : string) (skip : nat) (s : string) : string :=
  match s with
  | EmptyString => EmptyString
  | String c s' =>
      match skip with
      | S k => replace_from old new k s'
      | O =>
          if startswith s old
          then new +:+ replace_from old new (String.length old - 1) s'
          else String c (replace_from old new 0 s')
      end
  end.

Definition replace (old new s : string) : string := replace_from old new 0 s.

(** [s.lstrip(chars)], the set [chars] given as a predicate *)
Fixpoint lstrip (p : ascii -> bool) (s : string) : string :=
  match s with
  | EmptyString => EmptyString
  | String c s' => if p c then lstrip p s' else s
  end.

(** [all(p(c) for c in s)] *)
Fixpoint all (p : ascii -> bool) (s : string) : bool :=
  match s with
  | EmptyString => true
  | String c s' => p c && all p s'
  end.

Definition is_upper (c : ascii) : bool :=
  let n := nat_of_ascii c in (65 <=? n)%nat && (n <=? 90)%nat.
Definition is_lower (c : ascii) : bool :=
  let n := nat_of_ascii c in (97 <=? n)%nat && (n <=? 122)%nat.
Definition is_digit (c : ascii) : bool :=
  let n := nat_of_ascii c in (48 <=? n)%nat && (n <=? 57)%nat.
(** [c.isascii() and c.isalpha()] *)
Definition is_ascii_alpha (c : ascii) : bool := is_upper c || is_lower c.
(** [c.isascii()] *)
Definition is_ascii (c : ascii) : bool := (nat_of_ascii c <? 128)%nat.

(** [s.lower()] on the ASCII letters, the only ones it is applied to. *)
Definition lower_char (c : ascii) : ascii :=
  if is_upper c then ascii_of_nat (nat_of_ascii c + 32) else c.
Fixpoint lower (s : string) : string :=
  match s with
  | EmptyString => EmptyString
  | String c s' => String (lower_char c) (lower s')
  end.

End Str.

(* ===================================================================== *)
(** ** [remove_consecutive_slashes]                                      *)
(* ===================================================================== *)

(** One pass [previous_url.replace('//', '/')]. *)
Definition replace_slashes (s : string) : string := Str.replace "//" "/" s.

Lemma replace_slashes_nil : replace_slashes "" = "".
Proof. reflexivity. Qed.

Lemma replace_slashes_pair s :
  replace_slashes (String "/" (String "/" s)) = String "/" (replace_slashes s).
Proof. reflexivity. Qed.

Lemma replace_slashes_single c :
  replace_slashes (String c "") = String c "".
Proof.
  unfold replace_slashes, Str.replace. cbn [Str.replace_from Str.startswith].
  now rewrite andb_false_r.
Qed.

Lemma replace_slashes_other c d s :
  (c = "/"%char -> d <> "/"%char) ->
  replace_slashes (String c (String d s)) = String c (replace_slashes (String d s)).
Proof.
  intros H. unfold replace_slashes, Str.replace.
  cbn [Str.replace_from Str.startswith].
  destruct (Ascii.eqb_spec "/"%char c) as [<-|Hc]; [|reflexivity].
  destruct (Ascii.eqb_spec "/"%char d) as [<-|Hd]; [|reflexivity].
  now destruct H.
Qed.

(** The pass never lengthens the string, and shortens it whenever it changes it. *)
Lemma replace_slashes_length_aux n :
  forall s, (String.length s <= n)%nat ->
    (String.length (replace_slashes s) <= String.length s)%nat /\
    (replace_slashes s <> s ->
     (String.length (replace_slashes s) < String.length s)%nat).
Proof.
  induction n as [|n IH]; intros s Hn.
  - destruct s; [|cbn in Hn; lia]. split; [reflexivity|]. now intros [].
  - destruct s as [|c [|d s]].
    + split; [reflexivity|]. now intros [].
    + rewrite replace_slashes_single. split; [reflexivity|]. now intros [].
    + destruct (Ascii.ascii_dec c "/"%char) as [->|Hc];
        [destruct (Ascii.ascii_dec d "/"%char) as [->|Hd]|].
      * rewrite replace_slashes_pair.
        destruct (IH s) as [Hle _]; [cbn in Hn; lia|]. cbn. lia.
      * rewrite replace_slashes_other by tauto.
        destruct (IH (String d s)) as [Hle Hlt]; [cbn in Hn |- *; lia|].
        split; [cbn in *; lia|]. intros Hne.
        assert (replace_slashes (String d s) <> String d s) by congruence.
        specialize (Hlt H). cbn in *. lia.
      * rewrite replace_slashes_other by tauto.
        destruct (IH (String d s)) as [Hle Hlt]; [cbn in Hn |- *; lia|].
        split; [cbn in *; lia|]. intros Hne.
        assert (replace_slashes (String d s) <> String d s) by congruence.
        specialize (Hlt H). cbn in *. lia.
Qed.

Lemma replace_slashes_length_le s :
  (String.length (replace_slashes s) <= String.length s)%nat.
Proof. now apply (replace_slashes_length_aux (String.length s)). Qed.

Lemma replace_slashes_length_lt s :
  replace_slashes s <> s ->
  (String.length (replace_slashes s) < String.length s)%nat.
Proof. now apply (replace_slashes_length_aux (String.length s)). Qed.

(** The [while] loop of [remove_consecutive_slashes], on its two variables.
    Every pass of the body either shortens [formatted_url] or makes the loop
    test fail at the next check, which is the measure below. *)
Definition loop_measure (previous_url formatted_url : string) : nat :=
  2 * String.length formatted_url +
  (if String.eqb formatted_url previous_url then 0 else 1).

Equations? while_loop (previous_url formatted_url : string) : string
  by wf (loop_measure previous_url formatted_url) lt :=
  while_loop previous_url formatted_url with
    Logic.inspect (String.eqb formatted_url previous_url) := {
    | exist _ true _ => formatted_url
    | exist _ false Hne =>
        while_loop formatted_url (replace_slashes formatted_url) }.
Proof.
  unfold loop_measure. rewrite Hne.
  destruct (String.eqb_spec (replace_slashes formatted_url) formatted_url) as [->|Hd].
  - lia.
  - apply replace_slashes_length_lt in Hd. lia.
Qed.

Definition remove_consecutive_slashes (basic_url : string) : string :=
  while_loop basic_url (replace_slashes basic_url).

(** The same loop with a bound on the number of passes through its body:
    [None] when the loop test still holds after [fuel] passes. *)
Fixpoint while_loop_bounded (fuel : nat) (previous_url formatted_url : string)
  : option string :=
  if String.eqb formatted_url previous_url then Some formatted_url
  else match fuel with
       | O => None
       | S fuel' =>
           while_loop_bounded fuel' formatted_url (replace_slashes formatted_url)
       end.

(* ===================================================================== *)
(** ** Library code behind the crawler                                   *)
(* ===================================================================== *)

(** What the crawler calls and this development does not look into, and
    the limit that the interpreter puts on nested calls.  Every result
    below holds for any behaviour of these functions and any limit. *)
Class Library := {
  (** [urllib.parse._check_bracketed_netloc], which validates a netloc that
      holds both brackets with the [ipaddress] module: [true] when it
      returns, [false] when it raises [ValueError]. *)
  check_bracketed_netloc : string -> bool;
  (** The NFKC comparison of [urllib.parse._checknetloc], reached by a
      netloc that is not ASCII: [false] when it raises [ValueError]. *)
  checknetloc_nfkc : string -> bool;
  (** [BeautifulSoup(html_text, 'html.parser').find_all('a')] followed by
      [link.get('href')]: one entry for every [a] tag in document order,
      [None] for a tag without the attribute. *)
  find_all_a_href : string -> list (option string);
  (** [BeautifulSoup(html_text, 'html.parser')] raises: [html.parser]
      rejects some markup declarations with an [AssertionError], which bs4
      raises as [ParserRejectedMarkup]. *)
  soup_raises : string -> bool;
  (** The number of calls of [Crawler._get_urls] that CPython lets nest in
      a call of it before it raises [RecursionError]: it follows from
      [sys.getrecursionlimit()], 1000 by default, and from the calls that
      are on the stack already. *)
  recursion_limit : nat
}.

(* ===================================================================== *)
(** ** [urllib.parse.urlparse]                                           *)
(* ===================================================================== *)

Definition scheme_chars : string :=
  "abcdefghijklmnopqrstuvwxyzABCDEFGHIJKLMNOPQRSTUVWXYZ0123456789+-.".

Definition uses_params : list string :=
  [""; "ftp"; "hdl"; "prospero"; "http"; "imap"; "https"; "shttp"; "rtsp";
   "rtspu"; "sip"; "sips"; "mms"; "sftp"; "tel"].

(** Membership in [_WHATWG_C0_CONTROL_OR_SPACE], the code points 0 to 32. *)
Definition c0_control_or_space (c : ascii) : bool := (nat_of_ascii c <=? 32)%nat.

(** [_UNSAFE_URL_BYTES_TO_REMOVE]: tab, carriage return, line feed. *)
Definition unsafe_url_bytes_to_remove : list string :=
  [String "009" ""; String "013" ""; String "010" ""].

(** [url[start:stop]] *)
Definition slice (start stop : nat) (s : string) : string :=
  Str.take (stop - start) (Str.drop start s).

(** [s.split(c, 1)] when [c] is in [s]: the text before the first [c] and
    the text after it. *)
Definition split_once (c : ascii) (s : string) : string * string :=
  match Str.find c s with
  | Some i => (Str.take i s, Str.drop (S i) s)
  | None => (s, "")
  end.

Definition _splitnetloc (url : string) (start : nat) : string * string :=
  let delim :=
    fold_left
      (fun delim c =>
         match Str.find_from c start url with
         | Some wdelim => Nat.min delim wdelim
         | None => delim
         end)
      ["/"; "?"; "#"]%char (String.length url) in
  (slice start delim url, Str.drop delim url).

Definition _splitparams (url : string) : string * string :=
  if Str.mem "/" url then
    match Str.rfind "/" url with
    | Some r =>
        match Str.find_from ";" r url with
        | Some i => (Str.take i url, Str.drop (S i) url)
        | None => (url, "")
        end
    | None => (url, "")
    end
  else
    match Str.find ";" url with
    | Some i => (Str.take i url, Str.drop (S i) url)
    | None => (url, "")
    end.

Record ParseResult := {
  pr_scheme : string;
  pr_netloc : string;
  pr_path : string;
  pr_params : string;
  pr_query : string;
  pr_fragment : string
}.

Section Urllib.
Context `{Library}.

Definition _checknetloc (netloc : string) : bool :=
  if String.eqb netloc "" || Str.all Str.is_ascii netloc then true
  else checknetloc_nfkc netloc.

(** The loop [for b in _UNSAFE_URL_BYTES_TO_REMOVE: url = url.replace(b, "")]. *)
Definition remove_unsafe (url : string) : string :=
  fold_left (fun u b => Str.replace b "" u) unsafe_url_bytes_to_remove url.

(** The scheme and what follows its colon, when [url] starts with an ASCII
    letter and holds only [scheme_chars] before its first colon. *)
Definition split_scheme (url : string) : string * string :=
  match Str.find ":" url, url with
  | Some (S _ as i), String c0 _ =>
      if Str.is_ascii_alpha c0 &&
         Str.all (fun c => Str.mem c scheme_chars) (Str.take i url)
      then (Str.lower (Str.take i url), Str.drop (S i) url)
      else ("", url)
  | _, _ => ("", url)
  end.

(** The netloc after a leading [//] and what follows it; [None] when the
    brackets of the netloc make [urlsplit] raise [ValueError]. *)
Definition split_netloc (url : string) : option (string * string) :=
  if String.eqb (Str.take 2 url) "//" then
    let '(netloc, url) := _splitnetloc url 2 in
    if (Str.mem "[" netloc && negb (Str.mem "]" netloc)) ||
       (Str.mem "]" netloc && negb (Str.mem "[" netloc))
    then None
    else if Str.mem "[" netloc && Str.mem "]" netloc
         then (if check_bracketed_netloc netloc then Some (netloc, url) else None)
         else Some (netloc, url)
  else Some ("", url).

(** [if '#' in url: url, fragment = url.split('#', 1)] *)
Definition split_fragment (url : string) : string * string :=
  if Str.mem "#" url then split_once "#" url else (url, "").

(** [if '?' in url: url, query = url.split('?', 1)] *)
Definition split_query (url : string) : string * string :=
  if Str.mem "?" url then split_once "?" url else (url, "").

(** [urlsplit(url)] with the default [scheme=''] and [allow_fragments=True];
    [None] when it raises [ValueError].  The fields are scheme, netloc,
    path, query and fragment, in a [ParseResult] with empty params. *)
Definition urlsplit (url : string) : option ParseResult :=
  let url := Str.lstrip c0_control_or_space url in
  let url := remove_unsafe url in
  let '(scheme, url) := split_scheme url in
  match split_netloc url with
  | None => None
  | Some (netloc, url) =>
      let '(url, fragment) := split_fragment url in
      let '(url, query) := split_query url in
      if _checknetloc netloc
      then Some {| pr_scheme := scheme; pr_netloc := netloc; pr_path := url;
                   pr_params := ""; pr_query := query; pr_fragment := fragment |}
      else None
  end.

Definition urlparse (url : string) : option ParseResult :=
  match urlsplit url with
  | None => None
  | Some r =>
      let '(url, params) :=
        if existsb (String.eqb (pr_scheme r)) uses_params && Str.mem ";" (pr_path r)
        then _splitparams (pr_path r)
        else (pr_path r, "") in
      Some {| pr_scheme := pr_scheme r; pr_netloc := pr_netloc r; pr_path := url;
              pr_params := params; pr_query := pr_query r;
              pr_fragment := pr_fragment r |}
  end.

(* ===================================================================== *)
(** ** [url_utils.get_url_info] and the class [Url]                      *)
(* ===================================================================== *)

(** The tuple (scheme, www_subdomain, netloc without a leading [www.],
    path with the query, fragment); [None] when [urlparse] raises. *)
Definition get_url_info (url : string)
  : option (string * bool * string * string * string) :=
  match urlparse url with
  | None => None
  | Some parsed_url =>
      let scheme := pr_scheme parsed_url in
      let netloc := pr_netloc parsed_url in
      let path :=
        if String.eqb (pr_query parsed_url) "" then pr_path parsed_url
        else pr_path parsed_url +:+ "?" +:+ pr_query parsed_url in
      let fragment := pr_fragment parsed_url in
      let www_subdomain := if Str.startswith netloc "www." then true else false in
      Some (scheme, www_subdomain,
            (if Str.startswith netloc "www." then Str.drop 4 netloc else netloc),
            path, fragment)
  end.

End Urllib.

(* ===================================================================== *)
(** ** The fragment of [re] used by the default pattern                  *)
(* ===================================================================== *)

(** Patterns: literals, [.], character classes, [\b], sequence,
    alternation, a greedy optional group and greedy repetition of a
    character class ([max = None] for [*]). *)
Inductive regex : Type :=
| Lit (l : string)
| AnyChar
| CharSet (p : ascii -> bool)
| Boundary
| Seq (r1 r2 : regex)
| Alt (r1 r2 : regex)
| Opt (r : regex)
| Repeat (min : nat) (max : option nat) (p : ascii -> bool).

(** [\w] on the code points below 256: the ASCII letters and digits, the
    underscore, and the Latin-1 characters that [str.isalnum] accepts. *)
Definition is_word (c : ascii) : bool :=
  let n := nat_of_ascii c in
  Str.is_lower c || Str.is_upper c || Str.is_digit c || (n =? 95)%nat ||
  existsb (Nat.eqb n) [170; 178; 179; 181; 185; 186; 188; 189; 190]%nat ||
  ((192 <=? n)%nat && negb (n =? 215)%nat && negb (n =? 247)%nat).

Definition is_word_before (prev : option ascii) : bool :=
  match prev with Some c => is_word c | None => false end.

Definition is_word_after (s : string) : bool :=
  match s with String c _ => is_word c | EmptyString => false end.

(** Matching a literal: the text left and the last character read. *)
Fixpoint match_lit (l : string) (prev : option ascii) (s : string)
  : option (option ascii * string) :=
  match l with
  | EmptyString => Some (prev, s)
  | String a l' =>
      match s with
      | String b s' => if Ascii.eqb a b then match_lit l' (Some b) s' else None
      | EmptyString => None
      end
  end.

(** Greedy repetition: read one more character while the class and [max]
    allow it, and fall back to stopping here, when [min] is reached, if the
    rest of the pattern fails after the longer run. *)
Fixpoint repeat_greedy (p : ascii -> bool) (min : nat) (max : option nat)
    (prev : option ascii) (s : string)
    (k : option ascii -> string -> option string) {struct s} : option string :=
  match s with
  | String c s' =>
      if p c && match max with Some O => false | _ => true end
      then match repeat_greedy p (Nat.pred min) (option_map Nat.pred max) (Some c) s' k with
           | Some rest => Some rest
           | None => if (min =? 0)%nat then k prev s else None
           end
      else if (min =? 0)%nat then k prev s else None
  | EmptyString => if (min =? 0)%nat then k prev s else None
  end.

(** The backtracking matcher: [rmatch r prev s k] matches [r] at the head of
    [s], [prev] being the character before it, and hands the rest to [k];
    alternatives are tried in the order of [re]. *)
Fixpoint rmatch (r : regex) (prev : option ascii) (s : string)
    (k : option ascii -> string -> option string) : option string :=
  match r with
  | Lit l =>
      match match_lit l prev s with
      | Some (prev', s') => k prev' s'
      | None => None
      end
  | AnyChar =>
      match s with
      | String c s' => if Ascii.eqb c "010" then None else k (Some c) s'
      | EmptyString => None
      end
  | CharSet p =>
      match s with
      | String c s' => if p c then k (Some c) s' else None
      | EmptyString => None
      end
  | Boundary =>
      if xorb (is_word_before prev) (is_word_after s) then k prev s else None
  | Seq r1 r2 => rmatch r1 prev s (fun prev' s' => rmatch r2 prev' s' k)
  | Alt r1 r2 =>
      match rmatch r1 prev s k with
      | Some rest => Some rest
      | None => rmatch r2 prev s k
      end
  | Opt r1 =>
      match rmatch r1 prev s k with
      | Some rest => Some rest
      | None => k prev s
      end
  | Repeat min max p => repeat_greedy p min max prev s k
  end.

(** [re.fullmatch(regex, s) is not None] *)
Definition fullmatch (r : regex) (s : string) : bool :=
  match rmatch r None s (fun _ rest => if String.eqb rest "" then Some rest else None) with
  | Some _ => true
  | None => false
  end.

(** [[m.group(0) for m in re.finditer(regex, s)]] for a pattern that matches
    no empty string: the matches from the left, each search resuming where
    the previous match ended.  [skip] counts the characters of the last
    match still to be passed over. *)
Fixpoint finditer_from (r : regex) (prev : option ascii) (skip : nat) (s : string)
  : list string :=
  match s with
  | EmptyString => []
  | String c s' =>
      match skip with
      | S n => finditer_from r (Some c) n s'
      | O =>
          match rmatch r prev s (fun _ rest => Some rest) with
          | Some rest =>
              let n := (String.length s - String.length rest)%nat in
              Str.take n s :: finditer_from r (Some c) (n - 1) s'
          | None => finditer_from r (Some c) 0 s'
          end
      end
  end.

Definition finditer (r : regex) (s : string) : list string :=
  finditer_from r None 0 s.

Definition is_alnum_ascii (c : ascii) : bool :=
  Str.is_lower c || Str.is_upper c || Str.is_digit c.

(** [[a-zA-Z0-9@:%._\+~#?&//=]] *)
Definition url_chars (c : ascii) : bool :=
  is_alnum_ascii c || Str.mem c "@:%._+~#?&/=".

(** [[-a-zA-Z0-9@:%._\+~#?&//=]] *)
Definition url_tail_chars (c : ascii) : bool :=
  is_alnum_ascii c || Str.mem c "-@:%._+~#?&/=".

(** [Url._default_regex], the concatenation of
    [((http|https)://)], [(www.)?], [[a-zA-Z0-9@:%._\+~#?&//=]{2,256}],
    [\.], [[a-z]{2,6}], [\b] and a group holding any number of characters
    of [[-a-zA-Z0-9@:%._\+~#?&//=]]. *)
Definition _default_regex : regex :=
  Seq (Seq (Alt (Lit "http") (Lit "https")) (Lit "://"))
 (Seq (Opt (Seq (Lit "www") AnyChar))
 (Seq (Repeat 2 (Some 256%nat) url_chars)
 (Seq (Lit ".")
 (Seq (Repeat 2 (Some 6%nat) Str.is_lower)
 (Seq Boundary
      (Repeat 0 None url_tail_chars)))))).

(** *** What a pattern matches

    The words a pattern matches, read off the syntax of [re]: [w] is
    matched by [r] when the character before it is [prev] and the text after
    it is [rest] (the two decide [\b]). *)

(** The last character read after [w], [prev] being the one before [w]. *)
Fixpoint last_read (prev : option ascii) (w : string) : option ascii :=
  match w with
  | EmptyString => prev
  | String c w' => last_read (Some c) w'
  end.

Fixpoint matches (r : regex) (prev : option ascii) (w rest : string) : Prop :=
  match r with
  | Lit l => w = l
  | AnyChar => exists c, w = String c "" /\ c <> "010"%char
  | CharSet p => exists c, w = String c "" /\ p c = true
  | Boundary => w = "" /\ xorb (is_word_before prev) (is_word_after rest) = true
  | Seq r1 r2 =>
      exists w1 w2, w = w1 +:+ w2 /\
        matches r1 prev w1 (w2 +:+ rest) /\ matches r2 (last_read prev w1) w2 rest
  | Alt r1 r2 => matches r1 prev w rest \/ matches r2 prev w rest
  | Opt r1 => matches r1 prev w rest \/ w = ""
  | Repeat min max p =>
      (min <= String.length w)%nat /\
      match max with Some m => (String.length w <= m)%nat | None => True end /\
      Str.all p w = true
  end.

(** The shape of the strings of [_default_regex]: a scheme, "://", an
    optional "www" with one more character of any kind but a newline, 2 to
    256 characters of the first class, a dot, 2 to 6 lower-case letters, and
    a tail of characters of the second class that does not start with a
    letter, a digit or an underscore. *)
Definition url_shaped (s : string) : Prop :=
  exists scheme w host tld tail,
    s = scheme +:+ "://" +:+ w +:+ host +:+ "." +:+ tld +:+ tail /\
    (scheme = "http" \/ scheme = "https") /\
    (w = "" \/ exists c, c <> "010"%char /\ w = "www" +:+ String c "") /\
    (2 <= String.length host <= 256)%nat /\ Str.all url_chars host = true /\
    (2 <= String.length tld <= 6)%nat /\ Str.all Str.is_lower tld = true /\
    Str.all url_tail_chars tail = true /\ is_word_after tail = false.

(* ===================================================================== *)
(** ** The class [Url]                                                   *)
(* ===================================================================== *)

Record Url := {
  string_url : string;
  parent_protocol : string;
  parent_www : option bool;
  parent_domain : string;
  parent_path : string;
  protocol : string;
  www : bool;
  domain : string;
  path : string;
  fragment : string;
  use_parent_protocol : bool
}.

Definition set_protocol (v : string) (u : Url) : Url :=
  {| string_url := string_url u; parent_protocol := parent_protocol u;
     parent_www := parent_www u; parent_domain := parent_domain u;
     parent_path := parent_path u; protocol := v; www := www u;
     domain := domain u; path := path u; fragment := fragment u;
     use_parent_protocol := use_parent_protocol u |}.

Definition set_www (v : bool) (u : Url) : Url :=
  {| string_url := string_url u; parent_protocol := parent_protocol u;
     parent_www := parent_www u; parent_domain := parent_domain u;
     parent_path := parent_path u; protocol := protocol u; www := v;
     domain := domain u; path := path u; fragment := fragment u;
     use_parent_protocol := use_parent_protocol u |}.

Definition set_domain (v : string) (u : Url) : Url :=
  {| string_url := string_url u; parent_protocol := parent_protocol u;
     parent_www := parent_www u; parent_domain := parent_domain u;
     parent_path := parent_path u; protocol := protocol u; www := www u;
     domain := v; path := path u; fragment := fragment u;
     use_parent_protocol := use_parent_protocol u |}.

Definition set_path (v : string) (u : Url) : Url :=
  {| string_url := string_url u; parent_protocol := parent_protocol u;
     parent_www := parent_www u; parent_domain := parent_domain u;
     parent_path := parent_path u; protocol := protocol u; www := www u;
     domain := domain u; path := v; fragment := fragment u;
     use_parent_protocol := use_parent_protocol u |}.

Definition set_fragment (v : string) (u : Url) : Url :=
  {| string_url := string_url u; parent_protocol := parent_protocol u;
     parent_www := parent_www u; parent_domain := parent_domain u;
     parent_path := parent_path u; protocol := protocol u; www := www u;
     domain := domain u; path := path u; fragment := v;
     use_parent_protocol := use_parent_protocol u |}.

Definition set_parent_protocol (v : string) (u : Url) : Url :=
  {| string_url := string_url u; parent_protocol := v;
     parent_www := parent_www u; parent_domain := parent_domain u;
     parent_path := parent_path u; protocol := protocol u; www := www u;
     domain := domain u; path := path u; fragment := fragment u;
     use_parent_protocol := use_parent_protocol u |}.

Definition set_parent_domain (v : string) (u : Url) : Url :=
  {| string_url := string_url u; parent_protocol := parent_protocol u;
     parent_www := parent_www u; parent_domain := v;
     parent_path := parent_path u; protocol := protocol u; www := www u;
     domain := domain u; path := path u; fragment := fragment u;
     use_parent_protocol := use_parent_protocol u |}.

Definition set_parent_www (v : option bool) (u : Url) : Url :=
  {| string_url := string_url u; parent_protocol := parent_protocol u;
     parent_www := v; parent_domain := parent_domain u;
     parent_path := parent_path u; protocol := protocol u; www := www u;
     domain := domain u; path := path u; fragment := fragment u;
     use_parent_protocol := use_parent_protocol u |}.

(** The local function [refactor] of [Url._refactor_ending]. *)
Definition refactor (text : string) : string :=
  let refactored_text := text in
  let refactored_text :=
    if Str.contains "//" refactored_text
    then remove_consecutive_slashes refactored_text else refactored_text in
  let refactored_text :=
    if String.eqb refactored_text "/" then "" else refactored_text in
  let refactored_text :=
    if Str.endswith refactored_text "/"
    then Str.drop_last refactored_text else refactored_text in
  refactored_text.

Definition _refactor_ending (self : Url) : Url :=
  let self :=
    if negb (String.eqb (path self) "") then set_path (refactor (path self)) self
    else self in
  let self :=
    if negb (String.eqb (fragment self) "")
    then set_fragment (refactor (fragment self)) self else self in
  self.

Definition _refactor_path (self : Url) : Url :=
  let self :=
    if Str.startswith (path self) "./"
    then set_path (parent_path self +:+ Str.drop 1 (path self)) self
    else if negb (String.eqb (path self) "") && negb (Str.startswith (path self) "/")
         then set_path (parent_path self +:+ "/" +:+ path self) self
         else self in
  if negb (String.eqb (parent_path self) "") &&
     (Str.startswith (string_url self) "#" || Str.startswith (string_url self) "./#")
  then set_path (parent_path self) self
  else self.

Definition _refactor_attributes (self : Url) : Url :=
  let self :=
    if String.eqb (domain self) "" || String.eqb (domain self) (parent_domain self)
    then
      let self :=
        if String.eqb (protocol self) "" then set_protocol (parent_protocol self) self
        else self in
      let self :=
        if String.eqb (domain self) "" then set_domain (parent_domain self) self
        else self in
      let self :=
        match parent_www self with
        | Some pw => if negb (www self) then set_www pw self else self
        | None => self
        end in
      _refactor_path self
    else self in
  _refactor_ending self.

Definition _refactor_root_attributes (self : Url) : Url :=
  let self :=
    if String.eqb (parent_protocol self) ""
    then set_parent_protocol (protocol self) self else self in
  let self :=
    if String.eqb (parent_domain self) ""
    then set_parent_domain (domain self) self else self in
  match parent_www self with
  | None => set_parent_www (Some (www self)) self
  | Some _ => self
  end.

Definition _get_protocol (self : Url) : string :=
  if use_parent_protocol self && String.eqb (domain self) (parent_domain self) &&
     (String.eqb (protocol self) "" || Str.startswith (protocol self) "http")
  then parent_protocol self
  else protocol self.

Definition get_full_url (self : Url) : string :=
  let www_ := if www self then "www." else "" in
  let fragment_ :=
    if negb (String.eqb (fragment self) "") then "/#" +:+ fragment self else "" in
  _get_protocol self +:+ "://" +:+ www_ +:+ domain self +:+ path self +:+ fragment_.

Definition get_basic_url (self : Url) : string :=
  let protocol_ := _get_protocol self in
  if Str.startswith protocol_ "http"
  then _get_protocol self +:+ "://" +:+ domain self +:+ path self
  else string_url self.

Definition is_valid (self : Url) (regex_ : regex) : bool :=
  let basic_url := get_basic_url self in
  Str.startswith basic_url "http" && negb (Str.contains "/../" basic_url) &&
  fullmatch regex_ basic_url.

Definition _is_content_url (self : Url) : bool :=
  let basic_url := get_basic_url self in
  Str.endswith basic_url ".png" || Str.endswith basic_url ".pdf" ||
  Str.endswith basic_url ".jpg" || Str.endswith basic_url ".jpeg" ||
  Str.endswith basic_url ".txt".

Definition is_crawlable (self : Url) (regex_ : regex) : bool :=
  is_valid self regex_ && negb (_is_content_url self).

Definition is_xml (self : Url) : bool :=
  Str.endswith (get_basic_url self) ".xml".

Section UrlInit.
Context `{Library}.

(** [Url(url, parent_url, use_parent_protocol)]; [None] when [urlparse]
    raises [ValueError].  The record is first filled as
    [_fill_parent_attributes] and the assignments of [__init__] leave it,
    then passed through [_refactor_attributes] and
    [_refactor_root_attributes]. *)
Definition Url_init (url : string) (parent_url : option Url)
    (use_parent_protocol_ : bool) : option Url :=
  match get_url_info url with
  | None => None
  | Some (protocol_, www_, domain_, path_, fragment_) =>
      let self :=
        {| string_url := url;
           parent_protocol :=
             match parent_url with Some p => protocol p | None => "" end;
           parent_www :=
             match parent_url with Some p => Some (www p) | None => None end;
           parent_domain :=
             match parent_url with Some p => domain p | None => "" end;
           parent_path :=
             match parent_url with Some p => path p | None => "" end;
           protocol := protocol_; www := www_; domain := domain_;
           path := path_; fragment := fragment_;
           use_parent_protocol :=
             match parent_url with
             | Some p =>
                 if use_parent_protocol_ then use_parent_protocol p
                 else use_parent_protocol_
             | None => use_parent_protocol_
             end |} in
      Some (_refactor_root_attributes (_refactor_attributes self))
  end.

End UrlInit.

(** A library whose validators reject whatever reaches them, whose parser
    rejects every page that holds a markup declaration, and whose
    interpreter lets no call of [_get_urls] nest in another; the concrete
    URLs below hold no bracket and no character outside ASCII, the pages
    no [a] tag and no markup declaration, and no request on them is
    retried, so none of them decides a result. *)
Definition strict_library : Library :=
  {| check_bracketed_netloc := fun _ => false;
     checknetloc_nfkc := fun _ => false;
     find_all_a_href := fun _ => [];
     soup_raises := fun html_text => Str.contains "<!" html_text;
     recursion_limit := 0 |}.

(* ===================================================================== *)
(** ** The class [UrlSet]                                                *)
(* ===================================================================== *)

(** [_items], a [dict] from basic url to [Url]; iteration follows the order
    of insertion. *)
Definition UrlSet : Type := list (string * Url).

Definition UrlSet_add (self : UrlSet) (item : Url) : UrlSet :=
  let item_hash := get_basic_url item in
  if existsb (fun kv => String.eqb item_hash (fst kv)) self then self
  else (self ++ [(item_hash, item)])%list.

Definition UrlSet_init (urls : list Url) : UrlSet := fold_left UrlSet_add urls [].

Definition UrlSet_keys (self : UrlSet) : list string := map fst self.

Definition UrlSet_values (self : UrlSet) : list Url := map snd self.

(* ===================================================================== *)
(** ** The class [Crawler]: configuration                                *)
(* ===================================================================== *)

(** The attributes that [__init__] sets and nothing changes afterwards;
    [crawled_urls] and [_queue] are in the run state below.  [headers],
    [_session] and [_limit] belong to the transport, which the model takes
    as the function answering each request. *)
Record Crawler := {
  url : Url;
  domain_filter : bool;
  max_runners : Z;
  print_in_real_time : bool;
  max_retries : Z;
  sleep_between_retries : float;
  max_depth : option Z;
  regex_search : bool;
  assume_parent_protocol : bool;
  sleep_after_request : float;
  concurrent_requests_limit : option Z
}.

Section CrawlerModel.
Context `{Library}.

(** [Crawler(url, ...)]; [None] when [Url(url)] raises.  The default of
    [sleep_between_retries] is the binary64 value of the literal [0.3]. *)
Definition Crawler_init (url_ : string) (regex_search_ domain_filter_ : bool)
    (max_runners_ : Z) (print_in_real_time_ : bool) (max_retries_ : Z)
    (sleep_between_retries_ : float) (max_depth_ : option Z)
    (assume_parent_protocol_ : bool) (sleep_after_request_ : float)
    (concurrent_requests_limit_ : option Z) : option Crawler :=
  match Url_init url_ None true with
  | None => None
  | Some root =>
      Some {| url := root;
              domain_filter := domain_filter_;
              max_runners := if (max_runners_ >? 0)%Z then max_runners_ else 1%Z;
              print_in_real_time := print_in_real_time_;
              max_retries := if (max_retries_ >=? 0)%Z then max_retries_ else 0%Z;
              sleep_between_retries :=
                if PrimFloat.leb 0%float sleep_between_retries_
                then sleep_between_retries_ else 0x1.3333333333333p-2%float;
              max_depth :=
                match max_depth_ with
                | Some d => if (d <? 0)%Z then Some 0%Z else Some d
                | None => None
                end;
              regex_search := regex_search_;
              assume_parent_protocol := assume_parent_protocol_;
              sleep_after_request :=
                if PrimFloat.leb 0%float sleep_after_request_
                then sleep_after_request_ else 0%float;
              concurrent_requests_limit :=
                match concurrent_requests_limit_ with
                | Some l => if (l >? 0)%Z then Some l else None
                | None => None
                end |}
  end.

(* ===================================================================== *)
(** ** [Crawler._get_urls_from_text]                                     *)
(* ===================================================================== *)

(** [[f(x) for x in l]] where [f] may raise: the first failure ends it. *)
Fixpoint map_raising {A B : Type} (f : A -> option B) (l : list A) : option (list B) :=
  match l with
  | [] => Some []
  | x :: l' =>
      match f x with
      | None => None
      | Some y =>
          match map_raising f l' with
          | None => None
          | Some ys => Some (y :: ys)
          end
      end
  end.

(** The hrefs that are not [None], in document order. *)
Definition hrefs_of (links : list (option string)) : list string :=
  omap (fun href => href) links.

(** The loop over [re.finditer(self.url.default_regex, html_text)]: [urls]
    is the list being extended. *)
Fixpoint append_matches (self : Crawler) (parent_url : Url)
    (matches : list string) (urls : list Url) : option (list Url) :=
  match matches with
  | [] => Some urls
  | m :: matches' =>
      match Url_init m (Some parent_url) (assume_parent_protocol self) with
      | None => None
      | Some url_to_append =>
          if negb (existsb (String.eqb (get_basic_url url_to_append))
                           (UrlSet_keys (UrlSet_init urls)))
          then append_matches self parent_url matches' (urls ++ [url_to_append])%list
          else append_matches self parent_url matches' urls
      end
  end.

(** [None] when [BeautifulSoup] raises on the page or the construction of
    a [Url] raises [ValueError]. *)
Definition _get_urls_from_text (self : Crawler) (html_text : string)
    (parent_url : Url) : option (list Url) :=
  if soup_raises html_text then None else
  let links := find_all_a_href html_text in
  match map_raising
          (fun href => Url_init href (Some parent_url) (assume_parent_protocol self))
          (hrefs_of links) with
  | None => None
  | Some urls =>
      let urls :=
        if regex_search self
        then append_matches self parent_url (finditer _default_regex html_text) urls
        else Some urls in
      match urls with
      | None => None
      | Some urls =>
          Some (if domain_filter self
                then List.filter (fun u => String.eqb (domain (url self)) (domain u)) urls
                else urls)
      end
  end.

(* ===================================================================== *)
(** ** [Crawler._get_urls]: fetch with retries                           *)
(* ===================================================================== *)

(** What [await self._get(url)] does: it returns the text of the page, or
    raises [UnicodeDecodeError], or raises another [Exception]. *)
Inductive response : Type :=
| Body (text : string)
| UnicodeDecodeError
| OtherException.

(** What a call leaves behind, in order. *)
Inductive event : Type :=
| Acquire
| Release
| Request (basic_url : string)
| Sleep (seconds : float)
| LogWarning (retries : Z)
| LogError.

(** The requests answered so far and the events so far. *)
Record fetch_state := {
  requests : nat;
  trace : list event
}.

Definition emit (evs : list event) (st : fetch_state) : fetch_state :=
  {| requests := requests st; trace := (trace st ++ evs)%list |}.

(** [text = await self._get(url.get_basic_url())], under [self._limit]
    when a limit of concurrent requests is set: the transport [net]
    answers the request according to its number and its address. *)
Definition _get (self : Crawler) (net : nat -> string -> response)
    (basic_url : string) (st : fetch_state) : response * fetch_state :=
  let evs :=
    match concurrent_requests_limit self with
    | Some _ => [Acquire; Request basic_url; Release]
    | None => [Request basic_url]
    end in
  (net (requests st) basic_url,
   {| requests := S (requests st); trace := (trace st ++ evs)%list |}).

Definition sleep_if_positive (seconds : float) (st : fetch_state) : fetch_state :=
  if PrimFloat.ltb 0%float seconds then emit [Sleep seconds] st else st.

(** [_get_urls] as called with [stack] more nested calls allowed.  The
    result is [Some urls] when the call returns [urls] and [None] when it
    raises: [_get_urls_from_text] raised, or the retry, which is a call of
    [_get_urls] from the [except] handler of the call before it, went
    beyond the nesting that the interpreter allows; no handler catches
    that [RecursionError], the call standing outside [try], so it leaves
    every pending call. *)
Fixpoint _get_urls_nested (stack : nat) (self : Crawler)
    (net : nat -> string -> response) (url_ : Url) (retries : Z)
    (st : fetch_state) {struct stack} : option (list Url) * fetch_state :=
  match _get self net (get_basic_url url_) st with
  | (Body text, st1) =>
      match _get_urls_from_text self text url_ with
      | Some urls => (Some urls, sleep_if_positive (sleep_after_request self) st1)
      | None => (None, st1)
      end
  | (UnicodeDecodeError, st1) => (Some [], emit [LogError] st1)
  | (OtherException, st1) =>
      if (retries <? max_retries self)%Z
      then
        let st2 :=
          sleep_if_positive (sleep_between_retries self)
            (emit [LogWarning retries] st1) in
        match stack with
        | O => (None, st2)
        | S stack' => _get_urls_nested stack' self net url_ (retries + 1)%Z st2
        end
      else (Some [], emit [LogError] st1)
  end.

(** [await self._get_urls(url, retries)] from [_queue_processor]. *)
Definition _get_urls (self : Crawler) (net : nat -> string -> response)
    (url_ : Url) (retries : Z) (st : fetch_state)
  : option (list Url) * fetch_state :=
  _get_urls_nested recursion_limit self net url_ retries st.

(* ===================================================================== *)
(** ** [Crawler.crawl] and [Crawler._queue_processor]                    *)
(* ===================================================================== *)

(** A consumer task: waiting in [self._queue.get()], waiting for
    [self._get_urls(url_in_queue)], or ended by an exception. *)
Inductive worker : Type :=
| Waiting
| Fetching (url_in_queue : Url) (depth : Z)
| Raised.

(** [unfinished_tasks] is the counter of [asyncio.Queue] that [put_nowait]
    increments, [task_done] decrements and [join] waits on. *)
Record state := {
  crawled_urls : gmap string (list string);
  _queue : list (Url * Z);
  unfinished_tasks : nat;
  workers : list worker
}.

(** The state in which [crawl] waits on [self._queue.join()]. *)
Definition crawl_start (self : Crawler) : state :=
  {| crawled_urls := ∅;
     _queue := [(url self, 0%Z)];
     unfinished_tasks := 1;
     workers := replicate (Z.to_nat (max_runners self)) Waiting |}.

(** The items that [_add_urls_to_queue] puts on the queue. *)
Definition urls_to_queue (self : Crawler) (crawled : gmap string (list string))
    (urls : UrlSet) (depth : Z) : list (Url * Z) :=
  omap
    (fun url_ =>
       let basic_url := get_basic_url url_ in
       if String.eqb (domain url_) (domain (url self)) &&
          negb (bool_decide (is_Some (crawled !! basic_url))) &&
          is_crawlable url_ _default_regex
       then Some (url_, (depth + 1)%Z) else None)
    (UrlSet_values urls).

(** The loop body of [_queue_processor] from the return of
    [self._queue.get()] to the call of [_get_urls], or to [task_done()] when
    the url was crawled before.  Worker [i] runs it. *)
Definition take_from_queue (s : state) (i : nat) : option state :=
  match _queue s with
  | [] => None
  | (url_in_queue, depth) :: rest =>
      let basic_url_in_queue := get_basic_url url_in_queue in
      if bool_decide (is_Some (crawled_urls s !! basic_url_in_queue))
      then Some {| crawled_urls := crawled_urls s;
                   _queue := rest;
                   unfinished_tasks := Nat.pred (unfinished_tasks s);
                   workers := workers s |}
      else Some {| crawled_urls := <[basic_url_in_queue := []]> (crawled_urls s);
                   _queue := rest;
                   unfinished_tasks := unfinished_tasks s;
                   workers := <[i := Fetching url_in_queue depth]> (workers s) |}
  end.

(** The loop body from the return of [_get_urls] with [got] to
    [task_done()]. *)
Definition record_urls (self : Crawler) (s : state) (i : nat)
    (url_in_queue : Url) (depth : Z) (got : list Url) : state :=
  let basic_url_in_queue := get_basic_url url_in_queue in
  let urls :=
    List.filter
      (fun u => negb (String.eqb (get_basic_url u) basic_url_in_queue)) got in
  let basic_urls := map get_basic_url urls in
  let crawled := <[basic_url_in_queue := basic_urls]> (crawled_urls s) in
  let added :=
    if match max_depth self with
       | None => true
       | Some m => (depth <? m)%Z
       end
    then urls_to_queue self crawled (UrlSet_init urls) depth
    else [] in
  {| crawled_urls := crawled;
     _queue := (_queue s ++ added)%list;
     unfinished_tasks := Nat.pred (unfinished_tasks s + length added);
     workers := <[i := Waiting]> (workers s) |}.

(** One step of the run: a task runs from one [await] to the next.  The
    whole of [await self._get_urls(url_in_queue)] is one step, since it
    reads and writes neither [crawled_urls] nor the queue; its result is
    the one of [_get_urls] for some behaviour of the transport. *)
Inductive step (self : Crawler) : state -> state -> Prop :=
| step_take s i s' :
    workers s !! i = Some Waiting ->
    take_from_queue s i = Some s' ->
    step self s s'
| step_record s i url_in_queue depth net st got st' :
    workers s !! i = Some (Fetching url_in_queue depth) ->
    _get_urls self net url_in_queue 0 st = (Some got, st') ->
    step self s (record_urls self s i url_in_queue depth got)
| step_raise s i url_in_queue depth net st st' :
    workers s !! i = Some (Fetching url_in_queue depth) ->
    _get_urls self net url_in_queue 0 st = (None, st') ->
    step self s {| crawled_urls := crawled_urls s;
                   _queue := _queue s;
                   unfinished_tasks := unfinished_tasks s;
                   workers := <[i := Raised]> (workers s) |}.

(** The states of a run. *)
Inductive reachable (self : Crawler) : state -> Prop :=
| reachable_start : reachable self (crawl_start self)
| reachable_step s s' : reachable self s -> step self s s' -> reachable self s'.

(** [await self._queue.join()] returns: [crawl] returns [crawled_urls]. *)
Definition joined (s : state) : Prop := unfinished_tasks s = 0%nat.

End CrawlerModel.
(* ===================================================================== *)
(** ** Concatenation                                                     *)
(* ===================================================================== *)

Lemma append_cons c s t : String c s +:+ t = String c (s +:+ t).
Proof. reflexivity. Qed.

Lemma append_nil_l t : "" +:+ t = t.
Proof. reflexivity. Qed.

Lemma append_assoc a b c : (a +:+ b) +:+ c = a +:+ (b +:+ c).
Proof.
  induction a as [|d a IH]; [reflexivity|]. rewrite !append_cons. now rewrite IH.
Qed.

Lemma append_nil_r a : a +:+ "" = a.
Proof. induction a as [|d a IH]; [reflexivity|]. rewrite append_cons. now rewrite IH. Qed.

Lemma all_app p a b : Str.all p (a +:+ b) = Str.all p a && Str.all p b.
Proof.
  induction a as [|c a IH]; [reflexivity|].
  rewrite append_cons. cbn [Str.all]. now rewrite IH, andb_assoc.
Qed.

Example remove_consecutive_slashes_ex1 : remove_consecutive_slashes "////" = "/".
Proof. reflexivity. Qed.

Example remove_consecutive_slashes_ex2 :
  remove_consecutive_slashes "mysite.com///this/that" = "mysite.com/this/that".
Proof. reflexivity. Qed.

(** The bounded loop agrees with the total one, and the number of passes
    through the body is bounded by the length of [formatted_url]. *)
Lemma while_loop_passes previous_url formatted_url :
  exists n : nat,
    (n <= if String.eqb formatted_url previous_url then 0
          else S (String.length formatted_url))%nat /\
    while_loop_bounded n previous_url formatted_url =
      Some (while_loop previous_url formatted_url) /\
    forall m, (m < n)%nat -> while_loop_bounded m previous_url formatted_url = None.
Proof.
  funelim (while_loop previous_url formatted_url).
  - match goal with E : String.eqb _ _ = true |- _ => rename E into Heq end.
    exists 0%nat. rewrite Heq. split; [lia|]. split.
    + cbn. now rewrite Heq.
    + intros m Hm. lia.
  - match goal with
    | IH : exists n : nat, _ |- _ => destruct IH as (n & Hn & Hrun & Hmin)
    end.
    exists (S n). rewrite Hne. split; [|split].
    + destruct (String.eqb_spec (replace_slashes formatted_url) formatted_url) as [_|Hd];
        [lia|]. apply replace_slashes_length_lt in Hd. lia.
    + cbn. rewrite Hne. exact Hrun.
    + intros [|m] Hm; cbn; rewrite Hne; [reflexivity|]. apply Hmin. lia.
Qed.

(** C10. [remove_consecutive_slashes] is total: a pass that changes the
    string strictly shortens it, and for every input the loop leaves after
    exactly [n] passes through its body for some [n] not larger than the
    length of the input, returning the value of the total function. *)
Theorem remove_consecutive_slashes_terminates (basic_url : string) :
  (forall s, replace_slashes s <> s ->
             (String.length (replace_slashes s) < String.length s)%nat) /\
  exists n : nat,
    (n <= String.length basic_url)%nat /\
    while_loop_bounded n basic_url (replace_slashes basic_url) =
      Some (remove_consecutive_slashes basic_url) /\
    forall m, (m < n)%nat ->
      while_loop_bounded m basic_url (replace_slashes basic_url) = None.
Proof.
  split; [exact replace_slashes_length_lt|].
  destruct (while_loop_passes basic_url (replace_slashes basic_url))
    as (n & Hn & Hrun & Hmin).
  exists n. split; [|split; assumption].
  destruct (String.eqb_spec (replace_slashes basic_url) basic_url) as [_|Hd]; [lia|].
  apply replace_slashes_length_lt in Hd. lia.
Qed.

(* ===================================================================== *)
(** ** The matcher and the words of a pattern                            *)
(* ===================================================================== *)

Lemma last_read_app prev a b : last_read prev (a +:+ b) = last_read (last_read prev a) b.
Proof.
  revert prev. induction a as [|c a IH]; intros prev; [reflexivity|].
  rewrite append_cons. cbn [last_read]. apply IH.
Qed.

Lemma match_lit_sound l prev s prev' s' :
  match_lit l prev s = Some (prev', s') -> s = l +:+ s' /\ prev' = last_read prev l.
Proof.
  revert prev s. induction l as [|a l IH]; intros prev s.
  - cbn. intros [= <- <-]. now split.
  - cbn [match_lit last_read]. destruct s as [|b s]; [discriminate|].
    destruct (Ascii.eqb_spec a b) as [<-|]; [|discriminate].
    intros Hm. apply IH in Hm as [-> ->]. now split.
Qed.

Lemma match_lit_complete l prev s' :
  match_lit l prev (l +:+ s') = Some (last_read prev l, s').
Proof.
  revert prev. induction l as [|a l IH]; intros prev; [reflexivity|].
  rewrite append_cons. cbn [match_lit last_read]. rewrite Ascii.eqb_refl. apply IH.
Qed.

(** A run that the greedy repetition accepts is a word of the class within
    the bounds, after which the continuation succeeds. *)
Lemma repeat_greedy_sound p s : forall min max prev k x,
  repeat_greedy p min max prev s k = Some x ->
  exists w rest, s = w +:+ rest /\ (min <= String.length w)%nat /\
    match max with Some m => (String.length w <= m)%nat | None => True end /\
    Str.all p w = true /\ k (last_read prev w) rest = Some x.
Proof.
  assert (Hstop : forall s min (max : option nat) prev
            (k : option ascii -> string -> option string) x,
    (if (min =? 0)%nat then k prev s else None) = Some x ->
    exists w rest, s = w +:+ rest /\ (min <= String.length w)%nat /\
      match max with Some m => (String.length w <= m)%nat | None => True end /\
      Str.all p w = true /\ k (last_read prev w) rest = Some x).
  { intros s0 min max prev k x Hk. destruct (Nat.eqb_spec min 0) as [->|]; [|discriminate].
    exists "", s0. repeat split; trivial. destruct max; cbn; lia. }
  induction s as [|c s IH]; intros min max prev k x.
  - cbn [repeat_greedy]. apply Hstop.
  - cbn [repeat_greedy].
    destruct (p c && match max with Some 0%nat => false | _ => true end) eqn:E;
      [|apply Hstop].
    apply andb_true_iff in E as [Hp Hmax].
    destruct (repeat_greedy p (Nat.pred min) (option_map Nat.pred max) (Some c) s k)
      as [y|] eqn:Hr; [|apply Hstop].
    intros [= <-]. apply IH in Hr as (w & rest & -> & Hmin & Hm & Hall & Hk).
    exists (String c w), rest. rewrite append_cons. cbn [String.length Str.all last_read].
    rewrite Hp, Hall. repeat split; trivial; [lia|].
    destruct max as [[|m]|]; cbn in *; try discriminate; trivial; lia.
Qed.

(** Backtracking loses nothing: when some run within the bounds lets the
    continuation succeed, the greedy repetition succeeds. *)
Lemma repeat_greedy_complete p w : forall min max prev rest k x,
  (min <= String.length w)%nat ->
  match max with Some m => (String.length w <= m)%nat | None => True end ->
  Str.all p w = true ->
  k (last_read prev w) rest = Some x ->
  exists y, repeat_greedy p min max prev (w +:+ rest) k = Some y.
Proof.
  induction w as [|c w IH]; intros min max prev rest k x Hmin Hmax Hall Hk.
  - cbn in Hmin. assert (min = 0)%nat as -> by lia. rewrite append_nil_l.
    cbn [last_read] in Hk.
    destruct rest as [|d rest]; cbn [repeat_greedy Nat.eqb]; [eauto|].
    destruct (p d && _); [|eauto].
    destruct (repeat_greedy _ _ _ _ _ _); eauto.
  - rewrite append_cons. cbn [repeat_greedy].
    cbn [Str.all] in Hall. apply andb_true_iff in Hall as [Hp Hall].
    cbn [String.length] in Hmin, Hmax. cbn [last_read] in Hk.
    assert (Hm : match max with Some 0%nat => false | _ => true end = true).
    { destruct max as [[|m]|]; trivial; lia. }
    rewrite Hp, Hm. cbn [andb].
    destruct (IH (Nat.pred min) (option_map Nat.pred max) (Some c) rest k x)
      as [y Hy]; trivial; [lia| |].
    { destruct max as [[|m]|]; cbn; trivial; lia. }
    rewrite Hy. eauto.
Qed.

(** The matcher accepts only words of the pattern. *)
Lemma rmatch_sound r : forall prev s k x,
  rmatch r prev s k = Some x ->
  exists w rest, s = w +:+ rest /\ matches r prev w rest /\
    k (last_read prev w) rest = Some x.
Proof.
  induction r as [l| |p| |r1 IH1 r2 IH2|r1 IH1 r2 IH2|r1 IH1|min max p];
    intros prev s k x; cbn [rmatch matches].
  - destruct (match_lit l prev s) as [[prev' s']|] eqn:E; [|discriminate].
    apply match_lit_sound in E as [-> ->]. intros Hk. now exists l, s'.
  - destruct s as [|c s]; [discriminate|].
    destruct (Ascii.eqb_spec c "010") as [|Hc]; [discriminate|].
    intros Hk. exists (String c ""), s. repeat split; eauto.
  - destruct s as [|c s]; [discriminate|].
    destruct (p c) eqn:Hp; [|discriminate].
    intros Hk. exists (String c ""), s. repeat split; eauto.
  - destruct (xorb _ _) eqn:E; [|discriminate].
    intros Hk. exists "", s. repeat split; trivial.
  - intros Hm. apply IH1 in Hm as (w1 & rest1 & -> & H1 & Hm).
    apply IH2 in Hm as (w2 & rest & -> & H2 & Hk).
    exists (w1 +:+ w2), rest. rewrite append_assoc, last_read_app. eauto 10.
  - destruct (rmatch r1 prev s k) as [y|] eqn:E.
    + intros [= <-]. apply IH1 in E as (w & rest & -> & Hw & Hk). eauto 10.
    + intros Hm. apply IH2 in Hm as (w & rest & -> & Hw & Hk). eauto 10.
  - destruct (rmatch r1 prev s k) as [y|] eqn:E.
    + intros [= <-]. apply IH1 in E as (w & rest & -> & Hw & Hk). eauto 10.
    + intros Hk. exists "", s. repeat split; eauto.
  - intros Hm. apply repeat_greedy_sound in Hm as (w & rest & -> & ? & ? & ? & ?).
    exists w, rest. repeat split; trivial.
Qed.

(** The matcher finds a match whenever the text starts with a word of the
    pattern after which the continuation succeeds. *)
Lemma rmatch_complete r : forall prev w rest k x,
  matches r prev w rest ->
  k (last_read prev w) rest = Some x ->
  exists y, rmatch r prev (w +:+ rest) k = Some y.
Proof.
  induction r as [l| |p| |r1 IH1 r2 IH2|r1 IH1 r2 IH2|r1 IH1|min max p];
    intros prev w rest k x; cbn [rmatch matches].
  - intros -> Hk. rewrite match_lit_complete. eauto.
  - intros (c & -> & Hc) Hk. rewrite append_cons, append_nil_l.
    destruct (Ascii.eqb_spec c "010"); [contradiction|]. eauto.
  - intros (c & -> & Hc) Hk. rewrite append_cons, append_nil_l, Hc. eauto.
  - intros [-> Hb] Hk. rewrite append_nil_l, Hb. eauto.
  - intros (w1 & w2 & -> & H1 & H2) Hk. rewrite append_assoc.
    rewrite last_read_app in Hk.
    destruct (IH2 _ _ _ _ _ H2 Hk) as [y Hy].
    exact (IH1 _ _ _ (fun prev' s' => rmatch r2 prev' s' k) y H1 Hy).
  - intros [H1|H2] Hk.
    + destruct (IH1 _ _ _ _ _ H1 Hk) as [y ->]. eauto.
    + destruct (rmatch r1 prev (w +:+ rest) k); eauto.
  - intros [H1| ->] Hk.
    + destruct (IH1 _ _ _ _ _ H1 Hk) as [y ->]. eauto.
    + rewrite append_nil_l. destruct (rmatch r1 prev rest k); eauto.
  - intros (Hmin & Hmax & Hall) Hk. eapply repeat_greedy_complete; eauto.
Qed.

(** [re.fullmatch] accepts exactly the words of the pattern. *)
Lemma fullmatch_matches r s : fullmatch r s = true <-> matches r None s "".
Proof.
  unfold fullmatch. split.
  - destruct (rmatch r None s _) as [x|] eqn:E; [|discriminate]. intros _.
    apply rmatch_sound in E as (w & rest & -> & Hw & Hk).
    destruct (String.eqb_spec rest "") as [->|]; [|discriminate].
    now rewrite append_nil_r.
  - intros Hm.
    destruct (rmatch_complete r None s ""
                (fun _ rest => if String.eqb rest "" then Some rest else None) ""
                Hm eq_refl) as [y Hy].
    rewrite append_nil_r in Hy. now rewrite Hy.
Qed.

Lemma is_lower_is_word c : Str.is_lower c = true -> is_word c = true.
Proof. intros Hc. unfold is_word. now rewrite Hc. Qed.

Lemma last_read_all p w : forall prev,
  Str.all p w = true -> (1 <= String.length w)%nat ->
  exists c, last_read prev w = Some c /\ p c = true.
Proof.
  induction w as [|c w IH]; intros prev Hall Hlen; [cbn in Hlen; lia|].
  cbn [Str.all] in Hall. apply andb_true_iff in Hall as [Hc Hall].
  cbn [last_read]. destruct w as [|d w]; [now exists c|].
  apply IH; trivial. cbn. lia.
Qed.

Lemma word_before_tld prev tld :
  Str.all Str.is_lower tld = true -> (2 <= String.length tld)%nat ->
  is_word_before (last_read prev tld) = true.
Proof.
  intros Hall Hlen. destruct (last_read_all _ tld prev Hall) as (c & -> & Hc); [lia|].
  now apply is_lower_is_word.
Qed.

Lemma matches_default_regex s : matches _default_regex None s "" <-> url_shaped s.
Proof.
  unfold _default_regex, url_shaped. cbn [matches]. split.
  - intros (w1 & w2 & -> & (scheme & sep & -> & Hscheme & ->) &
            (w & w3 & -> & Hw & host & w4 & -> & (Hh1 & Hh2 & Hhost) &
             dot & w5 & -> & -> & tld & w6 & -> & (Ht1 & Ht2 & Htld) &
             b & tail & -> & [-> Hb] & (_ & _ & Htail))).
    rewrite append_nil_r in Hb. rewrite word_before_tld in Hb by trivial.
    exists scheme, w, host, tld, tail.
    rewrite !append_assoc, ?append_nil_l. repeat split; trivial.
    + destruct Hw as [(x & y & -> & -> & c & -> & Hc)| ->]; [right|now left].
      now exists c.
    + now destruct (is_word_after tail).
  - intros (scheme & w & host & tld & tail & -> & Hscheme & Hw &
            [Hh1 Hh2] & Hhost & [Ht1 Ht2] & Htld & Htail & Hb).
    exists (scheme +:+ "://"), (w +:+ host +:+ "." +:+ tld +:+ tail).
    split; [now rewrite !append_assoc|]. split; [now exists scheme, "://"|].
    exists w, (host +:+ "." +:+ tld +:+ tail). split; [reflexivity|]. split.
    { destruct Hw as [->|(c & Hc & ->)]; [now right|left].
      exists "www", (String c ""). repeat split. now exists c. }
    exists host, ("." +:+ tld +:+ tail). repeat split; trivial.
    exists ".", (tld +:+ tail). repeat split.
    exists tld, tail. repeat split; trivial.
    exists "", tail. repeat split; trivial; [|lia].
    rewrite append_nil_r, word_before_tld, Hb by trivial. reflexivity.
Qed.

(** The strings that fully match [Url._default_regex]. *)
Lemma fullmatch_default_regex s : fullmatch _default_regex s = true <-> url_shaped s.
Proof. rewrite fullmatch_matches. apply matches_default_regex. Qed.

(* ===================================================================== *)
(** ** Validity and crawlability                                         *)
(* ===================================================================== *)

Example is_valid_accepts :
  map (fun s => option_map (fun u => is_valid u _default_regex)
                  (Url_init (H := strict_library) s None true))
      ["https://mysite.com"; "http://www.mysite.com"; "http://mysite.com";
       "https://www.mysite.com"; "https://mysite.com/test";
       "http://www.mysite.com/test/test/test"]
  = [Some true; Some true; Some true; Some true; Some true; Some true].
Proof. vm_compute. reflexivity. Qed.

Example is_valid_rejects :
  map (fun s => option_map (fun u => is_valid u _default_regex)
                  (Url_init (H := strict_library) s None true))
      ["www.mysite.com"; "h.ttps://invalid.com"; "://invalid.com"; "mysite";
       "mysite.com/"]
  = [Some false; Some false; Some false; Some false; Some false].
Proof. vm_compute. reflexivity. Qed.

(** C4. With the default pattern, [is_valid] is true exactly when the basic
    url starts with "http", does not contain "/../" and fully matches the
    pattern, the strings that fully match it being the url-shaped ones;
    "mysite.com", "mysite.com/about//here" and
    "https://mysite.com/here/../there", constructed with no parent, are
    not valid, whatever the library validators do. *)
Theorem is_valid_default_regex `{Library} :
  (forall u : Url,
     is_valid u _default_regex = true <->
     Str.startswith (get_basic_url u) "http" = true /\
     Str.contains "/../" (get_basic_url u) = false /\
     fullmatch _default_regex (get_basic_url u) = true) /\
  (forall s : string, fullmatch _default_regex s = true <-> url_shaped s) /\
  option_map (fun u => is_valid u _default_regex)
    (Url_init "mysite.com" None true) = Some false /\
  option_map (fun u => is_valid u _default_regex)
    (Url_init "mysite.com/about//here" None true) = Some false /\
  option_map (fun u => is_valid u _default_regex)
    (Url_init "https://mysite.com/here/../there" None true) = Some false.
Proof.
  split; [|split].
  - intros u. unfold is_valid.
    rewrite !andb_true_iff, negb_true_iff. tauto.
  - exact fullmatch_default_regex.
  - repeat split; vm_compute; reflexivity.
Qed.

(** C5. [is_crawlable] is true exactly when [is_valid] holds and the basic
    url ends in none of ".png", ".pdf", ".jpg", ".jpeg", ".txt": it is
    false for a valid url with one of these endings and true for every
    other valid url. *)
Theorem is_crawlable_iff (u : Url) :
  let content :=
    Str.endswith (get_basic_url u) ".png" || Str.endswith (get_basic_url u) ".pdf" ||
    Str.endswith (get_basic_url u) ".jpg" || Str.endswith (get_basic_url u) ".jpeg" ||
    Str.endswith (get_basic_url u) ".txt" in
  (is_crawlable u _default_regex = true <->
   is_valid u _default_regex = true /\ content = false) /\
  (is_valid u _default_regex = true /\ content = true ->
   is_crawlable u _default_regex = false) /\
  (is_valid u _default_regex = true /\ content = false ->
   is_crawlable u _default_regex = true).
Proof.
  intros content. unfold is_crawlable, _is_content_url. fold content.
  destruct (is_valid u _default_regex), content; cbn; intuition congruence.
Qed.

Example is_crawlable_examples :
  map (fun s => option_map (fun u => is_crawlable u _default_regex)
                  (Url_init (H := strict_library) s None true))
      ["https://mysite.com/content.jpg"; "https://mysite.com/content.pdf";
       "https://mysite.com/content.png"; "https://mysite.com/content.jpeg";
       "https://mysite.com/content.txt"; "https://mysite.com/content.xml";
       "https://mysite.com/content"]
  = [Some false; Some false; Some false; Some false; Some false;
     Some true; Some true].
Proof. vm_compute. reflexivity. Qed.

(* ===================================================================== *)
(** ** The fields of a constructed [Url]                                 *)
(* ===================================================================== *)

Ltac url_simpl :=
  cbn [string_url parent_protocol parent_www parent_domain parent_path protocol
       www domain path fragment use_parent_protocol set_protocol set_www
       set_domain set_path set_fragment set_parent_protocol set_parent_domain
       set_parent_www negb andb orb].

Section UrlFields.
Context `{Library}.

Lemma get_url_info_parsed url_ protocol_ www_ domain_ path_ fragment_ :
  get_url_info url_ = Some (protocol_, www_, domain_, path_, fragment_) ->
  exists r,
    urlparse url_ = Some r /\
    protocol_ = pr_scheme r /\
    www_ = Str.startswith (pr_netloc r) "www." /\
    domain_ = (if www_ then Str.drop 4 (pr_netloc r) else pr_netloc r) /\
    path_ = (if String.eqb (pr_query r) "" then pr_path r
             else pr_path r +:+ "?" +:+ pr_query r) /\
    fragment_ = pr_fragment r.
Proof.
  unfold get_url_info. destruct (urlparse url_) as [r|]; [|discriminate].
  destruct (Str.startswith (pr_netloc r) "www.") eqn:E;
    intros [= <- <- <- <- <-]; exists r; rewrite E; repeat split; reflexivity.
Qed.

Lemma startswith_app s p : Str.startswith s p = true -> s = p +:+ Str.drop (String.length p) s.
Proof.
  revert s. induction p as [|a p IH]; intros s Hs; [reflexivity|].
  destruct s as [|b s]; [discriminate|]. cbn in Hs.
  apply andb_true_iff in Hs as [Hab Hs]. apply Ascii.eqb_eq in Hab as ->.
  change (String b s = String b (p +:+ Str.drop (String.length p) s)).
  f_equal. now apply IH.
Qed.

(** [_refactor_ending] changes [path] and [fragment] only. *)
Lemma _refactor_ending_fields u :
  let v := _refactor_ending u in
  string_url v = string_url u /\ parent_protocol v = parent_protocol u /\
  parent_www v = parent_www u /\ parent_domain v = parent_domain u /\
  parent_path v = parent_path u /\ protocol v = protocol u /\
  www v = www u /\ domain v = domain u /\
  use_parent_protocol v = use_parent_protocol u /\
  path v = (if String.eqb (path u) "" then path u else refactor (path u)) /\
  fragment v = (if String.eqb (fragment u) "" then fragment u
                else refactor (fragment u)).
Proof.
  cbv zeta. unfold _refactor_ending.
  destruct (String.eqb (path u) ""); url_simpl;
    destruct (String.eqb (fragment u) ""); url_simpl; repeat split; reflexivity.
Qed.

(** [_refactor_path] changes [path] only. *)
Lemma _refactor_path_fields u :
  let v := _refactor_path u in
  string_url v = string_url u /\ parent_protocol v = parent_protocol u /\
  parent_www v = parent_www u /\ parent_domain v = parent_domain u /\
  parent_path v = parent_path u /\ protocol v = protocol u /\
  www v = www u /\ domain v = domain u /\
  use_parent_protocol v = use_parent_protocol u /\ fragment v = fragment u.
Proof.
  cbv zeta. unfold _refactor_path.
  destruct (Str.startswith (path u) "./");
    [|destruct (negb (String.eqb (path u) "") && negb (Str.startswith (path u) "/"))];
    url_simpl;
    match goal with
    | |- context [if ?b then _ else _] => destruct b
    end; url_simpl; repeat split; reflexivity.
Qed.

(** [_refactor_root_attributes] changes the parent fields only, and only
    those that are still empty. *)
Lemma _refactor_root_attributes_fields u :
  let v := _refactor_root_attributes u in
  string_url v = string_url u /\ protocol v = protocol u /\ www v = www u /\
  domain v = domain u /\ path v = path u /\ fragment v = fragment u /\
  use_parent_protocol v = use_parent_protocol u /\
  parent_path v = parent_path u /\
  parent_protocol v = (if String.eqb (parent_protocol u) "" then protocol u
                       else parent_protocol u) /\
  parent_domain v = (if String.eqb (parent_domain u) "" then domain u
                     else parent_domain u) /\
  parent_www v = Some (match parent_www u with Some w => w | None => www u end).
Proof.
  cbv zeta. unfold _refactor_root_attributes.
  destruct (String.eqb (parent_protocol u) ""); url_simpl;
    destruct (String.eqb (parent_domain u) ""); url_simpl;
    destruct (parent_www u) eqn:E; url_simpl; rewrite ?E;
    repeat split; reflexivity.
Qed.

Ltac use_refactor_ending :=
  match goal with
  | |- context [_refactor_ending ?y] =>
      let He := fresh in
      pose proof (_refactor_ending_fields y) as He; cbv zeta in He;
      destruct He as (-> & -> & -> & -> & -> & -> & -> & -> & -> & _)
  end.

Ltac use_refactor_path :=
  match goal with
  | |- context [_refactor_path ?y] =>
      let Hp := fresh in
      pose proof (_refactor_path_fields y) as Hp; cbv zeta in Hp;
      destruct Hp as (-> & -> & -> & -> & -> & -> & -> & -> & -> & _)
  end.

(** The fields [protocol], [www] and [domain] after [_refactor_attributes]. *)
Lemma _refactor_attributes_fields u :
  let v := _refactor_attributes u in
  let same_site :=
    String.eqb (domain u) "" || String.eqb (domain u) (parent_domain u) in
  string_url v = string_url u /\ parent_protocol v = parent_protocol u /\
  parent_www v = parent_www u /\ parent_domain v = parent_domain u /\
  parent_path v = parent_path u /\
  use_parent_protocol v = use_parent_protocol u /\
  protocol v = (if same_site && String.eqb (protocol u) ""
                then parent_protocol u else protocol u) /\
  domain v = (if String.eqb (domain u) "" then parent_domain u else domain u) /\
  www v = (if same_site && negb (www u)
           then match parent_www u with Some pw => pw | None => www u end
           else www u).
Proof.
  cbv zeta. unfold _refactor_attributes. use_refactor_ending.
  destruct (String.eqb (domain u) "") eqn:Hd; cbn [orb];
    [|destruct (String.eqb (domain u) (parent_domain u)) eqn:Hpd];
    try use_refactor_path; url_simpl; rewrite ?Hd;
    destruct (String.eqb (protocol u) "") eqn:Hp; url_simpl; rewrite ?Hd;
    destruct (parent_www u) eqn:Hw; url_simpl; rewrite ?Hd, ?Hw;
    destruct (www u) eqn:Hwww; url_simpl; rewrite ?Hd, ?Hw, ?Hwww;
    repeat split; reflexivity.
Qed.

(** The fields [protocol], [www] and [domain] of a [Url] constructed with
    no parent are the ones [get_url_info] returns. *)
Lemma Url_init_root_fields url_ upp u :
  Url_init url_ None upp = Some u ->
  exists protocol_ www_ domain_ path_ fragment_,
    get_url_info url_ = Some (protocol_, www_, domain_, path_, fragment_) /\
    string_url u = url_ /\ protocol u = protocol_ /\ www u = www_ /\
    domain u = domain_ /\ parent_protocol u = protocol_ /\
    parent_domain u = domain_ /\ use_parent_protocol u = upp.
Proof.
  unfold Url_init.
  destruct (get_url_info url_) as [[[[[protocol_ www_] domain_] path_] fragment_]|];
    [|discriminate].
  intros [= <-]. exists protocol_, www_, domain_, path_, fragment_.
  split; [reflexivity|].
  match goal with
  | |- context [_refactor_root_attributes (_refactor_attributes ?x)] =>
      pose proof (_refactor_root_attributes_fields (_refactor_attributes x)) as Hr;
      pose proof (_refactor_attributes_fields x) as Ha
  end.
  cbv zeta in Hr, Ha.
  destruct Hr as (-> & -> & -> & -> & _ & _ & -> & _ & -> & -> & _).
  destruct Ha as (-> & -> & _ & -> & _ & -> & -> & -> & ->).
  cbn.
  destruct (String.eqb_spec domain_ "") as [->|Hd]; cbn;
    destruct (String.eqb_spec protocol_ "") as [->|Hp]; cbn;
    rewrite ?andb_false_r; cbn; repeat split; try reflexivity;
    try (destruct (String.eqb_spec domain_ domain_); [reflexivity|congruence]);
    now destruct www_.
Qed.

End UrlFields.

(* ===================================================================== *)
(** ** The [domain] and [www] fields                                     *)
(* ===================================================================== *)

Lemma domain_keeps_case_and_second_www :
  exists u,
    Url_init (H := strict_library) "http://www.www.MySite.com" None true = Some u /\
    www u = true /\
    domain u = "www.MySite.com" /\
    Str.startswith (domain u) "www." = true /\
    Str.all (fun c => negb (Str.is_upper c)) (domain u) = false.
Proof. eexists. split; [vm_compute; reflexivity|]. repeat split. Qed.

(** C8, amended. The [domain] of a [Url] constructed with no parent is the
    netloc that [urlparse] returns, with its characters as they stand in the
    input, less one leading "www." when the netloc starts with it; [www]
    tells whether it did. *)
Theorem domain_is_netloc_without_www `{Library} (url_ : string) (upp : bool) (u : Url) :
  Url_init url_ None upp = Some u ->
  exists r,
    urlparse url_ = Some r /\
    www u = Str.startswith (pr_netloc r) "www." /\
    pr_netloc r = (if www u then "www." else "") +:+ domain u.
Proof.
  intros Hu.
  destruct (Url_init_root_fields _ _ _ Hu)
    as (protocol_ & www_ & domain_ & path_ & fragment_ & Hinfo & _ & _ & Hw & Hd & _).
  destruct (get_url_info_parsed _ _ _ _ _ _ Hinfo) as (r & Hr & _ & Hwww & Hdom & _).
  exists r. split; [assumption|]. rewrite Hw, Hd. split; [assumption|].
  subst domain_. destruct www_.
  - symmetry in Hwww. apply startswith_app in Hwww.
    rewrite Hdom. exact Hwww.
  - exact (eq_sym Hdom).
Qed.

Lemma domain_is_netloc_without_www_witness :
  exists r,
    urlparse (H := strict_library) "https://www.MySite.com/test" = Some r /\
    true = Str.startswith (pr_netloc r) "www." /\
    pr_netloc r = "www.MySite.com".
Proof.
  exact (domain_is_netloc_without_www (H := strict_library)
           "https://www.MySite.com/test" true
           {| string_url := "https://www.MySite.com/test";
              parent_protocol := "https"; parent_www := Some true;
              parent_domain := "MySite.com"; parent_path := "";
              protocol := "https"; www := true; domain := "MySite.com";
              path := "/test"; fragment := ""; use_parent_protocol := true |}
           eq_refl).
Defined.

(* ===================================================================== *)
(** ** [UrlSet] and the regex search of [_get_urls_from_text]            *)
(* ===================================================================== *)

Lemma existsb_app_string (k : string) (l1 l2 : list string) :
  existsb (String.eqb k) (l1 ++ l2)%list =
  existsb (String.eqb k) l1 || existsb (String.eqb k) l2.
Proof. apply existsb_app. Qed.

Lemma UrlSet_add_keys (k : string) (self : UrlSet) (item : Url) :
  existsb (String.eqb k) (UrlSet_keys (UrlSet_add self item)) =
  existsb (String.eqb k) (UrlSet_keys self) || String.eqb k (get_basic_url item).
Proof.
  unfold UrlSet_add, UrlSet_keys.
  destruct (existsb _ self) eqn:E.
  - destruct (String.eqb_spec k (get_basic_url item)) as [->|_];
      [|now rewrite orb_false_r].
    rewrite orb_true_r. rewrite existsb_exists in *.
    destruct E as ([k' v] & Hin & Hk). cbn in Hk. apply String.eqb_eq in Hk.
    exists k'. split; [|now apply String.eqb_eq].
    apply in_map_iff. now exists (k', v).
  - rewrite map_app, existsb_app. cbn. now rewrite orb_false_r.
Qed.

(** The keys of [UrlSet(urls)] are the basic urls of [urls]. *)
Lemma UrlSet_init_keys (k : string) (urls : list Url) :
  existsb (String.eqb k) (UrlSet_keys (UrlSet_init urls)) =
  existsb (String.eqb k) (map get_basic_url urls).
Proof.
  unfold UrlSet_init.
  enough (forall acc,
            existsb (String.eqb k) (UrlSet_keys (fold_left UrlSet_add urls acc)) =
            existsb (String.eqb k) (UrlSet_keys acc) ||
            existsb (String.eqb k) (map get_basic_url urls)) as Hgen
    by (now rewrite Hgen).
  induction urls as [|u urls IH]; intros acc; cbn.
  - now rewrite orb_false_r.
  - rewrite IH, UrlSet_add_keys. now rewrite orb_assoc.
Qed.

(** The matches that the regex search adds to a list whose basic urls are
    [seen]: a match is kept when its basic url is not in [seen], and is
    then in [seen] for the matches after it. *)
Fixpoint fresh_matches (seen : list string) (us : list Url) : list Url :=
  match us with
  | [] => []
  | u :: us' =>
      if existsb (String.eqb (get_basic_url u)) seen
      then fresh_matches seen us'
      else u :: fresh_matches (seen ++ [get_basic_url u])%list us'
  end.

Section RegexSearch.
Context `{Library}.

Lemma append_matches_step self parent_url m matches urls u :
  Url_init m (Some parent_url) (assume_parent_protocol self) = Some u ->
  append_matches self parent_url (m :: matches) urls =
  append_matches self parent_url matches
    (if existsb (String.eqb (get_basic_url u)) (map get_basic_url urls)
     then urls else (urls ++ [u])%list).
Proof.
  intros Hu. cbn. rewrite Hu, UrlSet_init_keys.
  now destruct (existsb _ (map get_basic_url urls)).
Qed.

Lemma append_matches_fresh self parent_url matches :
  forall urls us,
    map_raising
      (fun m => Url_init m (Some parent_url) (assume_parent_protocol self))
      matches = Some us ->
    append_matches self parent_url matches urls =
    Some (urls ++ fresh_matches (map get_basic_url urls) us)%list.
Proof.
  induction matches as [|m matches IH]; intros urls us Hus; cbn in Hus.
  - injection Hus as <-. cbn. now rewrite app_nil_r.
  - destruct (Url_init m _ _) as [u|] eqn:Hu; [|discriminate].
    destruct (map_raising _ matches) as [us'|] eqn:Hus'; [|discriminate].
    injection Hus as <-.
    rewrite (append_matches_step _ _ _ _ _ _ Hu). cbn [fresh_matches].
    destruct (existsb _ (map get_basic_url urls)).
    + now apply IH.
    + rewrite (IH _ us' eq_refl), map_app. cbn. now rewrite <- app_assoc.
Qed.

End RegexSearch.

Definition regex_crawler : Crawler :=
  {| url :=
       {| string_url := "http://mysite.com"; parent_protocol := "http";
          parent_www := Some false; parent_domain := "mysite.com";
          parent_path := ""; protocol := "http"; www := false;
          domain := "mysite.com"; path := ""; fragment := "";
          use_parent_protocol := true |};
     domain_filter := true; max_runners := 100; print_in_real_time := false;
     max_retries := 5; sleep_between_retries := 0x1.3333333333333p-2%float;
     max_depth := None; regex_search := true; assume_parent_protocol := true;
     sleep_after_request := 0%float; concurrent_requests_limit := None |}.

Example regex_crawler_init :
  Crawler_init (H := strict_library) "http://mysite.com" true true 100 false 5
    0x1.3333333333333p-2%float None true 0%float None = Some regex_crawler.
Proof. vm_compute. reflexivity. Qed.

(** A page without anchors that names the same address twice: the second
    match is not among the anchor-derived links, which are none, and it is
    not appended. *)
Lemma repeated_match_appended_once :
  let html_text := "http://mysite.com/a http://mysite.com/a" in
  find_all_a_href (Library := strict_library) html_text = [] /\
  finditer _default_regex html_text = ["http://mysite.com/a"; "http://mysite.com/a"] /\
  option_map (map get_basic_url)
    (_get_urls_from_text (H := strict_library) regex_crawler html_text
       (url regex_crawler))
  = Some ["http://mysite.com/a"].
Proof. repeat split; vm_compute; reflexivity. Qed.

(** C9, amended. In the regex search a match is appended exactly when its
    basic url is not among the basic urls of the list built so far, which
    holds the anchor-derived links and the matches appended before it; so
    the whole search appends, in order, the matches whose basic url is
    neither the one of an anchor-derived link nor the one of an earlier
    match. *)
Theorem regex_match_appended_iff_unseen `{Library} (self : Crawler)
    (parent_url : Url) (m : string) (matches : list string)
    (urls : list Url) (u : Url) (us : list Url) :
  Url_init m (Some parent_url) (assume_parent_protocol self) = Some u ->
  map_raising
    (fun m' => Url_init m' (Some parent_url) (assume_parent_protocol self))
    matches = Some us ->
  append_matches self parent_url (m :: matches) urls =
    append_matches self parent_url matches
      (if existsb (String.eqb (get_basic_url u)) (map get_basic_url urls)
       then urls else (urls ++ [u])%list) /\
  append_matches self parent_url (m :: matches) urls =
    Some (urls ++ fresh_matches (map get_basic_url urls) (u :: us))%list.
Proof.
  intros Hu Hus. split; [now apply append_matches_step|].
  apply append_matches_fresh. cbn. now rewrite Hu, Hus.
Qed.

Definition page_a : Url :=
  {| string_url := "http://mysite.com/a"; parent_protocol := "http";
     parent_www := Some false; parent_domain := "mysite.com";
     parent_path := ""; protocol := "http"; www := false;
     domain := "mysite.com"; path := "/a"; fragment := "";
     use_parent_protocol := true |}.

Lemma regex_match_appended_iff_unseen_witness :
  append_matches (H := strict_library) regex_crawler (url regex_crawler)
    ["http://mysite.com/a"; "http://mysite.com/a"] [] =
    append_matches (H := strict_library) regex_crawler (url regex_crawler)
      ["http://mysite.com/a"] [page_a] /\
  append_matches (H := strict_library) regex_crawler (url regex_crawler)
    ["http://mysite.com/a"; "http://mysite.com/a"] [] = Some [page_a].
Proof.
  exact (regex_match_appended_iff_unseen (H := strict_library) regex_crawler
           (url regex_crawler) "http://mysite.com/a" ["http://mysite.com/a"]
           [] page_a [page_a] eq_refl eq_refl).
Defined.

(* ===================================================================== *)
(** ** Fetch with retries                                                *)
(* ===================================================================== *)

(** The events of one request. *)
Definition request_events (self : Crawler) (basic_url : string) : list event :=
  match concurrent_requests_limit self with
  | Some _ => [Acquire; Request basic_url; Release]
  | None => [Request basic_url]
  end.

Definition sleep_events (seconds : float) : list event :=
  if PrimFloat.ltb 0%float seconds then [Sleep seconds] else [].

(** The events of [k] failed requests that are retried, the first of them
    made with [retries] retries behind it. *)
Fixpoint retry_events (self : Crawler) (basic_url : string) (retries : Z) (k : nat)
  : list event :=
  match k with
  | O => []
  | S k' =>
      (request_events self basic_url ++ [LogWarning retries] ++
       sleep_events (sleep_between_retries self) ++
       retry_events self basic_url (retries + 1)%Z k')%list
  end.

Lemma sleep_if_positive_requests d st :
  requests (sleep_if_positive d st) = requests st.
Proof. unfold sleep_if_positive. now destruct (PrimFloat.ltb _ _). Qed.

Lemma sleep_if_positive_trace d st :
  trace (sleep_if_positive d st) = (trace st ++ sleep_events d)%list.
Proof.
  unfold sleep_if_positive, sleep_events.
  destruct (PrimFloat.ltb _ _); cbn; [reflexivity|now rewrite app_nil_r].
Qed.

Section FetchRetries.
Context `{Library}.

(** One call, from the request to the retry. *)
Lemma _get_urls_nested_unfold stack self net url_ retries st :
  _get_urls_nested stack self net url_ retries st =
  let st1 := {| requests := S (requests st);
                trace := (trace st ++ request_events self (get_basic_url url_))%list |} in
  match net (requests st) (get_basic_url url_) with
  | Body text =>
      match _get_urls_from_text self text url_ with
      | Some urls => (Some urls, sleep_if_positive (sleep_after_request self) st1)
      | None => (None, st1)
      end
  | UnicodeDecodeError => (Some [], emit [LogError] st1)
  | OtherException =>
      if (retries <? max_retries self)%Z
      then
        let st2 :=
          sleep_if_positive (sleep_between_retries self)
            (emit [LogWarning retries] st1) in
        match stack with
        | O => (None, st2)
        | S stack' => _get_urls_nested stack' self net url_ (retries + 1)%Z st2
        end
      else (Some [], emit [LogError] st1)
  end.
Proof. destruct stack; reflexivity. Qed.

(** What a call of [_get_urls] does, whatever the transport answers: [k]
    requests fail with an exception other than [UnicodeDecodeError] and are
    retried; then request number [k] ends the call, or the retry number
    [k] is one call more than can nest and raises [RecursionError]. *)
Lemma _get_urls_nested_spec stack self net url_ : forall retries st,
  exists (k : nat) (final : list event),
    (k <= Z.to_nat (max_retries self - retries))%nat /\
    (forall j, (j < k)%nat ->
       net (requests st + j)%nat (get_basic_url url_) = OtherException) /\
    ((k <= stack)%nat /\
     requests (snd (_get_urls_nested stack self net url_ retries st)) =
       (requests st + k + 1)%nat /\
     trace (snd (_get_urls_nested stack self net url_ retries st)) =
       (trace st ++ retry_events self (get_basic_url url_) retries k ++
        request_events self (get_basic_url url_) ++ final)%list /\
     match net (requests st + k)%nat (get_basic_url url_) with
     | Body text =>
         fst (_get_urls_nested stack self net url_ retries st) =
           _get_urls_from_text self text url_ /\
         final = match _get_urls_from_text self text url_ with
                 | Some _ => sleep_events (sleep_after_request self)
                 | None => []
                 end
     | UnicodeDecodeError =>
         fst (_get_urls_nested stack self net url_ retries st) = Some [] /\
         final = [LogError]
     | OtherException =>
         k = Z.to_nat (max_retries self - retries) /\
         fst (_get_urls_nested stack self net url_ retries st) = Some [] /\
         final = [LogError]
     end
     \/
     k = S stack /\ final = [] /\
     fst (_get_urls_nested stack self net url_ retries st) = None /\
     requests (snd (_get_urls_nested stack self net url_ retries st)) =
       (requests st + k)%nat /\
     trace (snd (_get_urls_nested stack self net url_ retries st)) =
       (trace st ++ retry_events self (get_basic_url url_) retries k)%list).
Proof.
  induction stack as [|stack IH]; intros retries st.
  all: rewrite !_get_urls_nested_unfold;
    destruct (net (requests st) (get_basic_url url_)) as [text| |] eqn:Hnet.
  1, 4: exists 0%nat,
          (match _get_urls_from_text self text url_ with
           | Some _ => sleep_events (sleep_after_request self)
           | None => []
           end);
        (split; [lia|]); (split; [intros j Hj; lia|]); left;
        rewrite Nat.add_0_r, Hnet; cbn [retry_events app];
        destruct (_get_urls_from_text self text url_); cbn [fst snd];
        rewrite ?sleep_if_positive_requests, ?sleep_if_positive_trace;
        cbn [requests trace]; rewrite <- ?app_assoc, ?app_nil_r;
        (split; [lia|]); (split; [lia|]); (split; [reflexivity|]); split; reflexivity.
  1, 3: exists 0%nat, [LogError];
        (split; [lia|]); (split; [intros j Hj; lia|]); left;
        rewrite Nat.add_0_r, Hnet; cbn [fst snd retry_events app emit requests trace];
        rewrite <- ?app_assoc;
        (split; [lia|]); (split; [lia|]); (split; [reflexivity|]); split; reflexivity.
  all: destruct (Z.ltb_spec retries (max_retries self)) as [Hlt|Hge].
  2, 4: exists 0%nat, [LogError];
        (split; [lia|]); (split; [intros j Hj; lia|]); left;
        rewrite Nat.add_0_r, Hnet; cbn [fst snd retry_events app emit requests trace];
        rewrite <- ?app_assoc;
        (split; [lia|]); (split; [lia|]); (split; [reflexivity|]);
        split; [lia|split; reflexivity].
  - exists 1%nat, []. split; [lia|]. split.
    { intros j Hj. assert (j = 0)%nat as -> by lia. now rewrite Nat.add_0_r. }
    right. cbn [fst snd retry_events].
    rewrite sleep_if_positive_requests, sleep_if_positive_trace.
    cbn [emit requests trace]. rewrite <- !app_assoc, app_nil_r.
    split; [reflexivity|]. split; [reflexivity|]. split; [reflexivity|].
    split; [lia|reflexivity].
  - destruct (IH (retries + 1)%Z
                (sleep_if_positive (sleep_between_retries self)
                   (emit [LogWarning retries]
                      {| requests := S (requests st);
                         trace := (trace st ++ request_events self (get_basic_url url_))%list |})))
      as (k & final & Hk & Hfail & Hcases).
    rewrite sleep_if_positive_requests in Hfail, Hcases.
    rewrite sleep_if_positive_trace in Hcases.
    cbn [emit requests trace] in Hfail, Hcases.
    exists (S k), final. split; [lia|]. split.
    { intros [|j] Hj; [now rewrite Nat.add_0_r|].
      replace (requests st + S j)%nat with (S (requests st) + j)%nat by lia.
      apply Hfail. lia. }
    replace (requests st + S k)%nat with (S (requests st) + k)%nat by lia.
    cbn [retry_events]. rewrite <- !app_assoc in Hcases |- *.
    destruct Hcases as [(Hle & Hreq & Htrace & Hlast)|(Hk' & Hfin & Hres & Hreq & Htrace)].
    + left. split; [lia|]. split; [rewrite Hreq; lia|].
      split; [rewrite Htrace, <- ?app_assoc; reflexivity|].
      destruct (net (S (requests st) + k)%nat (get_basic_url url_));
        [exact Hlast|exact Hlast|].
      destruct Hlast as (-> & Hres & Hfin). repeat split; [lia|assumption..].
    + right. split; [lia|]. split; [exact Hfin|]. split; [exact Hres|].
      split; [rewrite Hreq; lia|rewrite Htrace, <- ?app_assoc; reflexivity].
Qed.

End FetchRetries.

(** C3. Within the nesting of calls that the interpreter allows,
    [_get_urls] returns for every transport and never raises what the
    transport raised: the requests that fail with an exception other than
    [UnicodeDecodeError] are retried, at most [max_retries] of them, with a
    sleep of [sleep_between_retries] before each retry when it is positive;
    the last request either returns the page, whose links are the result,
    or fails to decode, or is the failure number [max_retries + 1], and in
    the last two cases the result is the empty list; a decode failure of
    the first request ends the call after that one request with the empty
    list.  But every retry is a call nested in the call before it: the
    retry that is one more than [recursion_limit] raises [RecursionError],
    so a transport that always fails ends the call with the empty list
    after [max_retries + 1] requests only when [max_retries] is not above
    [recursion_limit], and otherwise makes it raise after
    [recursion_limit + 1] requests. *)
Theorem _get_urls_retries `{Library} (self : Crawler)
    (net : nat -> string -> response) (url_ : Url) (st : fetch_state) :
  let r := _get_urls self net url_ 0 st in
  let b := get_basic_url url_ in
  (exists (k : nat) (final : list event),
     (k <= Z.to_nat (max_retries self))%nat /\
     (forall j, (j < k)%nat -> net (requests st + j)%nat b = OtherException) /\
     ((k <= recursion_limit)%nat /\
      requests (snd r) = (requests st + k + 1)%nat /\
      trace (snd r) =
        (trace st ++ retry_events self b 0 k ++ request_events self b ++ final)%list /\
      match net (requests st + k)%nat b with
      | Body text =>
          fst r = _get_urls_from_text self text url_ /\
          final = match _get_urls_from_text self text url_ with
                  | Some _ => sleep_events (sleep_after_request self)
                  | None => []
                  end
      | UnicodeDecodeError => fst r = Some [] /\ final = [LogError]
      | OtherException =>
          k = Z.to_nat (max_retries self) /\ fst r = Some [] /\ final = [LogError]
      end
      \/
      k = S recursion_limit /\ final = [] /\ fst r = None /\
      requests (snd r) = (requests st + k)%nat /\
      trace (snd r) = (trace st ++ retry_events self b 0 k)%list)) /\
  (net (requests st) b = UnicodeDecodeError ->
   fst r = Some [] /\
   requests (snd r) = S (requests st) /\
   trace (snd r) = (trace st ++ request_events self b ++ [LogError])%list) /\
  ((forall n, net n b = OtherException) ->
   ((Z.to_nat (max_retries self) <= recursion_limit)%nat ->
    fst r = Some [] /\
    requests (snd r) = (requests st + Z.to_nat (max_retries self) + 1)%nat) /\
   ((recursion_limit < Z.to_nat (max_retries self))%nat ->
    fst r = None /\
    requests (snd r) = (requests st + recursion_limit + 1)%nat)).
Proof.
  intros r b. subst r b. unfold _get_urls.
  destruct (_get_urls_nested_spec recursion_limit self net url_ 0 st)
    as (k & final & Hk & Hfail & Hcases).
  rewrite Z.sub_0_r in Hk, Hcases.
  split; [|split].
  - exists k, final. repeat split; assumption.
  - intros Hdec. destruct k as [|k].
    + destruct Hcases as [(_ & Hreq & Htrace & Hlast)|(Hk' & _)]; [|discriminate].
      rewrite Nat.add_0_r, Hdec in Hlast. destruct Hlast as [Hres ->].
      split; [assumption|]. split; [rewrite Hreq; lia|].
      rewrite Htrace. reflexivity.
    + specialize (Hfail 0%nat ltac:(lia)). rewrite Nat.add_0_r in Hfail. congruence.
  - intros Hall. split; intros Hlimit.
    + destruct Hcases as [(_ & Hreq & _ & Hlast)|(Hk' & _)]; [|lia].
      rewrite Hall in Hlast. destruct Hlast as (-> & Hres & _). split; assumption.
    + destruct Hcases as [(Hle & _ & _ & Hlast)|(-> & _ & Hres & Hreq & _)].
      * rewrite Hall in Hlast. destruct Hlast as (-> & _). lia.
      * split; [exact Hres|]. rewrite Hreq. lia.
Qed.

(** An interpreter that lets a thousand calls of [_get_urls] nest, which
    is more than CPython does with the recursion limit of 1000 it starts
    with. *)
Definition thousand_deep : Library :=
  {| check_bracketed_netloc := fun _ => false;
     checknetloc_nfkc := fun _ => false;
     find_all_a_href := fun _ => [];
     soup_raises := fun html_text => Str.contains "<!" html_text;
     recursion_limit := 1000 |}.

(** The crawler of "http://mysite.com" with [max_retries=5000]. *)
Definition retrying_crawler : Crawler :=
  {| url := url regex_crawler;
     domain_filter := true; max_runners := 100; print_in_real_time := false;
     max_retries := 5000; sleep_between_retries := 0x1.3333333333333p-2%float;
     max_depth := None; regex_search := false; assume_parent_protocol := true;
     sleep_after_request := 0%float; concurrent_requests_limit := None |}.

(** With a transport that fails every request, the fetch of the root by
    that crawler raises after 1001 requests; it does not return the empty
    list after 5001. *)
Lemma _get_urls_recursion_error :
  let r := _get_urls (H := thousand_deep) retrying_crawler
             (fun _ _ => OtherException) (url retrying_crawler) 0
             {| requests := 0; trace := [] |} in
  fst r = None /\ requests (snd r) = 1001%nat.
Proof.
  refine (proj2 (proj2 (proj2
            (_get_urls_retries (H := thousand_deep) retrying_crawler
               (fun _ _ => OtherException) (url retrying_crawler)
               {| requests := 0; trace := [] |}))
            (fun _ => eq_refl)) _).
  change (1000 < Z.to_nat 5000)%nat. rewrite Z2Nat.inj_pos. vm_compute. lia.
Defined.

(* ===================================================================== *)
(** ** The frontier and the map of crawled urls                          *)
(* ===================================================================== *)

(** [max_depth is None or depth < max_depth] *)
Definition depth_allowed (self : Crawler) (depth : Z) : Prop :=
  match max_depth self with
  | None => True
  | Some m => (depth < m)%Z
  end.

(** An item put on the queue in the step from [s] to [s']: one of the urls
    extracted from a page that a worker of [s] was fetching, one level
    deeper, allowed by
    [max_depth], of the domain of the root, not a key of the crawled urls,
    and crawlable. *)
Definition enqueued_from `{Library} (self : Crawler) (s s' : state)
    (item : Url * Z) : Prop :=
  exists (i : nat) (parent : Url) (depth : Z)
         (net : nat -> string -> response) (st : fetch_state)
         (got : list Url) (st' : fetch_state),
    workers s !! i = Some (Fetching parent depth) /\
    _get_urls self net parent 0 st = (Some got, st') /\
    item.1 ∈ got /\
    item.2 = (depth + 1)%Z /\
    depth_allowed self depth /\
    domain item.1 = domain (url self) /\
    crawled_urls s' !! get_basic_url item.1 = None /\
    is_crawlable item.1 _default_regex = true.

(** What a queue may hold: the root at depth 0, or a crawlable url of the
    domain of the root at a depth that [max_depth] allowed for its parent. *)
Definition frontier_item (self : Crawler) (item : Url * Z) : Prop :=
  item = (url self, 0%Z) \/
  exists depth : Z,
    item.2 = (depth + 1)%Z /\ (0 <= depth)%Z /\ depth_allowed self depth /\
    domain item.1 = domain (url self) /\
    is_crawlable item.1 _default_regex = true.

Lemma frontier_item_depth self item : frontier_item self item -> (0 <= item.2)%Z.
Proof. intros [->|(depth & -> & ? & _)]; cbn; lia. Qed.

Lemma UrlSet_values_subset (urls : list Url) (u : Url) :
  u ∈ UrlSet_values (UrlSet_init urls) -> u ∈ urls.
Proof.
  unfold UrlSet_init.
  enough (forall acc, u ∈ UrlSet_values (fold_left UrlSet_add urls acc) ->
                      u ∈ UrlSet_values acc \/ u ∈ urls) as Hgen.
  { intros Hu. destruct (Hgen [] Hu) as [Hnil|]; [|assumption].
    cbn in Hnil. now apply not_elem_of_nil in Hnil. }
  induction urls as [|x urls IH]; intros acc Hu; cbn in Hu; [now left|].
  destruct (IH _ Hu) as [Hacc|Hin]; [|right; now apply elem_of_cons; right].
  unfold UrlSet_add in Hacc.
  destruct (existsb _ acc); [now left|].
  unfold UrlSet_values in Hacc. rewrite map_app in Hacc.
  apply elem_of_app in Hacc as [?|Hx]; [now left|].
  cbn in Hx. apply list_elem_of_singleton in Hx as ->. right. apply elem_of_cons. now left.
Qed.

Lemma urls_to_queue_spec self crawled urls depth item :
  item ∈ urls_to_queue self crawled urls depth ->
  item.1 ∈ UrlSet_values urls /\
  item.2 = (depth + 1)%Z /\
  domain item.1 = domain (url self) /\
  crawled !! get_basic_url item.1 = None /\
  is_crawlable item.1 _default_regex = true.
Proof.
  unfold urls_to_queue. rewrite list_elem_of_omap.
  intros (u & Hin & Hu).
  destruct (String.eqb_spec (domain u) (domain (url self))) as [Hd|]; [|discriminate].
  destruct (bool_decide (is_Some (crawled !! get_basic_url u))) eqn:Hk; [discriminate|].
  destruct (is_crawlable u _default_regex) eqn:Hc; [|discriminate].
  injection Hu as <-. cbn. repeat split; try assumption.
  apply bool_decide_eq_false in Hk. now apply eq_None_not_Some.
Qed.

Section CrawlInvariants.
Context `{Library}.
Variable self : Crawler.

(** The invariant of a run: the queue and the workers hold frontier items
    only, a url that is being fetched is a key of the crawled urls, and no
    two workers fetch urls with the same basic url. *)
Definition run_invariant (s : state) : Prop :=
  Forall (frontier_item self) (_queue s) /\
  (forall i u d, workers s !! i = Some (Fetching u d) ->
     frontier_item self (u, d) /\ is_Some (crawled_urls s !! get_basic_url u)) /\
  (forall i j u d u' d',
     i <> j -> workers s !! i = Some (Fetching u d) ->
     workers s !! j = Some (Fetching u' d') ->
     get_basic_url u <> get_basic_url u').

Lemma take_from_queue_cases s i s' :
  take_from_queue s i = Some s' ->
  exists u d rest,
    _queue s = (u, d) :: rest /\ _queue s' = rest /\
    ((is_Some (crawled_urls s !! get_basic_url u) /\
      crawled_urls s' = crawled_urls s /\ workers s' = workers s /\
      unfinished_tasks s' = Nat.pred (unfinished_tasks s)) \/
     (crawled_urls s !! get_basic_url u = None /\
      crawled_urls s' = <[get_basic_url u := []]> (crawled_urls s) /\
      workers s' = <[i := Fetching u d]> (workers s) /\
      unfinished_tasks s' = unfinished_tasks s)).
Proof.
  unfold take_from_queue. destruct (_queue s) as [|[u d] rest]; [discriminate|].
  destruct (bool_decide (is_Some (crawled_urls s !! get_basic_url u))) eqn:Hk;
    intros [= <-]; exists u, d, rest; (split; [reflexivity|]); (split; [reflexivity|]).
  - left. apply bool_decide_eq_true in Hk. repeat split; assumption.
  - right. apply bool_decide_eq_false in Hk. apply eq_None_not_Some in Hk.
    repeat split; assumption.
Qed.

Lemma step_frontier s s' :
  step self s s' ->
  exists added,
    (_queue s' = (_queue s ++ added)%list \/ _queue s' = (tail (_queue s) ++ added)%list) /\
    Forall (enqueued_from self s s') added.
Proof.
  intros Hstep. destruct Hstep as [s i s' Hw Htake|s i u d net st got st' Hw Hget|].
  - exists []. split; [|constructor]. right.
    destruct (take_from_queue_cases _ _ _ Htake) as (u & d & rest & -> & -> & _).
    cbn. now rewrite app_nil_r.
  - unfold record_urls. cbn [_queue crawled_urls].
    eexists. split; [left; reflexivity|].
    destruct (max_depth self) as [m|] eqn:Hm.
    + destruct (Z.ltb_spec d m) as [Hlt|_]; [|constructor].
      apply Forall_forall. intros item Hin.
      apply urls_to_queue_spec in Hin as (Hgot & Hd & Hdom & Hnew & Hc).
      apply UrlSet_values_subset, list_elem_of_In, filter_In, proj1, list_elem_of_In in Hgot.
      exists i, u, d, net, st, got, st'. unfold depth_allowed. rewrite Hm.
      cbn [crawled_urls]. repeat split; assumption.
    + apply Forall_forall. intros item Hin.
      apply urls_to_queue_spec in Hin as (Hgot & Hd & Hdom & Hnew & Hc).
      apply UrlSet_values_subset, list_elem_of_In, filter_In, proj1, list_elem_of_In in Hgot.
      exists i, u, d, net, st, got, st'. unfold depth_allowed. rewrite Hm.
      cbn [crawled_urls]. repeat split; assumption.
  - exists []. split; [|constructor]. left. cbn. now rewrite app_nil_r.
Qed.

Lemma run_invariant_start : run_invariant (crawl_start self).
Proof.
  split; [|split].
  - repeat constructor.
  - intros i u d Hw. cbn in Hw. apply lookup_replicate in Hw as [? _]. discriminate.
  - intros i j u d u' d' _ Hw. cbn in Hw.
    apply lookup_replicate in Hw as [? _]. discriminate.
Qed.

Lemma run_invariant_step s s' :
  run_invariant s -> step self s s' -> run_invariant s'.
Proof.
  intros (Hq & Hf & Hdistinct) Hstep.
  destruct Hstep as [s i s' Hw Htake|s i u d net st got st' Hw Hget|s i u d net st st' Hw Hget].
  - destruct (take_from_queue_cases _ _ _ Htake)
      as (u & d & rest & Hqs & Hqs' & [(Hk & Hc & Hws & _)|(Hk & Hc & Hws & _)]);
      rewrite Hqs in Hq; inversion Hq as [|? ? Hitem Hrest]; subst.
    + split; [|split]; rewrite ?Hqs', ?Hc, ?Hws; assumption.
    + split; [|split]; rewrite ?Hqs', ?Hc, ?Hws.
      * assumption.
      * intros j u' d' Hj. apply list_lookup_insert_Some in Hj
          as [(-> & [= <- <-] & _)|(Hne & Hj)].
        -- split; [assumption|]. rewrite lookup_insert_eq. eauto.
        -- destruct (Hf _ _ _ Hj) as [Hitem' Hk'].
           split; [assumption|]. apply lookup_insert_is_Some'. now right.
      * intros j1 j2 u1 d1 u2 d2 Hne H1 H2.
        apply list_lookup_insert_Some in H1 as [(-> & [= <- <-] & _)|(Hne1 & H1)];
          apply list_lookup_insert_Some in H2 as [(-> & [= <- <-] & _)|(Hne2 & H2)].
        -- congruence.
        -- destruct (Hf _ _ _ H2) as [_ [x Hx]]. intros Heq.
           rewrite Heq in Hk. congruence.
        -- destruct (Hf _ _ _ H1) as [_ [x Hx]]. intros Heq.
           rewrite <- Heq in Hk. congruence.
        -- eauto.
  - destruct (Hf _ _ _ Hw) as [Hitem Hk].
    destruct (step_frontier s _ (step_record self s i u d net st got st' Hw Hget))
      as (added & Hadded & Hall).
    split; [|split]; unfold record_urls; cbn [_queue crawled_urls workers].
    + apply Forall_app. split; [assumption|].
      destruct (max_depth self) as [m|] eqn:Hm.
      * destruct (Z.ltb_spec d m) as [Hlt|_]; [|constructor].
        apply Forall_forall. intros item Hin.
        apply urls_to_queue_spec in Hin as (_ & Hd & Hdom & _ & Hc).
        right. exists d. unfold depth_allowed. rewrite Hm.
        apply frontier_item_depth in Hitem. repeat split; assumption.
      * apply Forall_forall. intros item Hin.
        apply urls_to_queue_spec in Hin as (_ & Hd & Hdom & _ & Hc).
        right. exists d. unfold depth_allowed. rewrite Hm.
        apply frontier_item_depth in Hitem. repeat split; assumption.
    + intros j u' d' Hj.
      apply list_lookup_insert_Some in Hj as [(_ & [=] & _)|(Hne & Hj)].
      destruct (Hf _ _ _ Hj) as [Hitem' Hk'].
      split; [assumption|]. apply lookup_insert_is_Some'. now right.
    + intros j1 j2 u1 d1 u2 d2 Hne H1 H2.
      apply list_lookup_insert_Some in H1 as [(_ & [=] & _)|(Hne1 & H1)].
      apply list_lookup_insert_Some in H2 as [(_ & [=] & _)|(Hne2 & H2)].
      eauto.
  - split; [|split]; cbn [_queue crawled_urls workers].
    + assumption.
    + intros j u' d' Hj.
      apply list_lookup_insert_Some in Hj as [(_ & [=] & _)|(Hne & Hj)]. eauto.
    + intros j1 j2 u1 d1 u2 d2 Hne H1 H2.
      apply list_lookup_insert_Some in H1 as [(_ & [=] & _)|(Hne1 & H1)].
      apply list_lookup_insert_Some in H2 as [(_ & [=] & _)|(Hne2 & H2)].
      eauto.
Qed.

Lemma reachable_run_invariant s : reachable self s -> run_invariant s.
Proof.
  induction 1 as [|s s' _ IH Hstep];
    [apply run_invariant_start|now apply (run_invariant_step s)].
Qed.

End CrawlInvariants.

Section RecordedEntry.
Context `{Library}.
Variable self : Crawler.

(** The entry of [k] is [l] and no worker is fetching a url whose basic url
    is [k]: nothing will write the entry again. *)
Definition entry_final (k : string) (l : list string) (s : state) : Prop :=
  crawled_urls s !! k = Some l /\
  forall i u d, workers s !! i = Some (Fetching u d) -> get_basic_url u <> k.

Lemma entry_final_step k l s s' :
  run_invariant self s -> entry_final k l s -> step self s s' -> entry_final k l s'.
Proof.
  intros (_ & Hf & _) [Hk Hnone] Hstep.
  destruct Hstep as [s i s' Hw Htake|s i u d net st got st' Hw Hget|s i u d net st st' Hw Hget].
  - destruct (take_from_queue_cases _ _ _ Htake)
      as (u & d & rest & _ & _ & [(_ & Hc & Hws & _)|(Hnew & Hc & Hws & _)]);
      split; rewrite ?Hc, ?Hws; try assumption.
    + rewrite lookup_insert_ne; [assumption|].
      intros Heq. rewrite Heq in Hnew. congruence.
    + intros j u' d' Hj.
      apply list_lookup_insert_Some in Hj as [(_ & [= <- <-] & _)|(_ & Hj)]; [|eauto].
      intros Heq. rewrite Heq in Hnew. congruence.
  - split; unfold record_urls; cbn [crawled_urls workers].
    + rewrite lookup_insert_ne; [assumption|]. eauto.
    + intros j u' d' Hj.
      apply list_lookup_insert_Some in Hj as [(_ & [=] & _)|(_ & Hj)]. eauto.
  - split; cbn [crawled_urls workers]; [assumption|].
    intros j u' d' Hj.
    apply list_lookup_insert_Some in Hj as [(_ & [=] & _)|(_ & Hj)]. eauto.
Qed.

Lemma entry_final_rtc k l s s' :
  run_invariant self s -> entry_final k l s -> rtc (step self) s s' ->
  entry_final k l s'.
Proof.
  intros Hinv Hfin Hrun. revert Hinv Hfin.
  induction Hrun as [s|s s1 s2 Hstep _ IH]; intros Hinv Hfin; [assumption|].
  apply IH.
  - now apply (run_invariant_step self s).
  - now apply (entry_final_step k l s).
Qed.

Lemma record_urls_entry_final s i u d net st got st' :
  run_invariant self s ->
  workers s !! i = Some (Fetching u d) ->
  _get_urls self net u 0 st = (Some got, st') ->
  entry_final (get_basic_url u)
    (map get_basic_url
       (List.filter (fun c => negb (String.eqb (get_basic_url c) (get_basic_url u))) got))
    (record_urls self s i u d got).
Proof.
  intros (_ & _ & Hdistinct) Hw _. split; unfold record_urls; cbn [crawled_urls workers].
  - apply lookup_insert_eq.
  - intros j u' d' Hj.
    apply list_lookup_insert_Some in Hj as [(_ & [=] & _)|(Hne & Hj)].
    apply (Hdistinct j i u' d' u d); auto.
Qed.

End RecordedEntry.

Lemma filter_map_basic (k : string) (got : list Url) :
  map get_basic_url
    (List.filter (fun c => negb (String.eqb (get_basic_url c) k)) got) =
  List.filter (fun b => negb (String.eqb b k)) (map get_basic_url got).
Proof.
  induction got as [|c got IH]; [reflexivity|]. cbn.
  destruct (String.eqb (get_basic_url c) k); cbn; now rewrite IH.
Qed.

(** C6. When a worker that claimed the key [k] gets the extracted children
    [got], the entry of [k] becomes the basic urls of [got] in their order,
    every occurrence kept, less those equal to [k]; and the entry stays so
    in every later state of the run. *)
Theorem recorded_children `{Library} (self : Crawler) (s : state) (i : nat)
    (u : Url) (d : Z) (net : nat -> string -> response) (st : fetch_state)
    (got : list Url) (st' : fetch_state) :
  reachable self s ->
  workers s !! i = Some (Fetching u d) ->
  _get_urls self net u 0 st = (Some got, st') ->
  let k := get_basic_url u in
  let children :=
    List.filter (fun b => negb (String.eqb b k)) (map get_basic_url got) in
  step self s (record_urls self s i u d got) /\
  crawled_urls (record_urls self s i u d got) !! k = Some children /\
  (forall s', rtc (step self) (record_urls self s i u d got) s' ->
              crawled_urls s' !! k = Some children) /\
  Forall (fun b => b <> k) children.
Proof.
  intros Hreach Hw Hget k children.
  assert (Hstep : step self s (record_urls self s i u d got))
    by (eapply step_record; eassumption).
  pose proof (reachable_run_invariant self s Hreach) as Hinv.
  pose proof (record_urls_entry_final self s i u d net st got st' Hinv Hw Hget) as Hfin.
  rewrite filter_map_basic in Hfin. fold k in Hfin. fold children in Hfin.
  split; [assumption|]. split; [apply Hfin|]. split.
  - intros s' Hrun.
    apply (entry_final_rtc self k children (record_urls self s i u d got) s');
      try assumption.
    now apply (run_invariant_step self s).
  - apply Forall_forall. intros b Hb. apply list_elem_of_In in Hb.
    apply filter_In in Hb as [_ Hb]. apply negb_true_iff in Hb.
    now apply String.eqb_neq.
Qed.

(* ===================================================================== *)
(** ** A run with [max_depth = 0]                                        *)
(* ===================================================================== *)

Section DepthZero.
Context `{Library}.
Variable self : Crawler.
Hypothesis depth_zero : max_depth self = Some 0%Z.

(** The four shapes of a state of such a run: the root is on the queue;
    one worker fetches it; that worker was ended by an exception; the root
    is recorded and the queue has been joined. *)
Definition depth_zero_state (s : state) : Prop :=
  (_queue s = [(url self, 0%Z)] /\ crawled_urls s = ∅ /\ unfinished_tasks s = 1%nat /\
   forall i w, workers s !! i = Some w -> w = Waiting) \/
  (_queue s = [] /\ dom (crawled_urls s) = {[get_basic_url (url self)]} /\
   unfinished_tasks s = 1%nat /\
   exists i, workers s !! i = Some (Fetching (url self) 0%Z) /\
             forall j w, j <> i -> workers s !! j = Some w -> w = Waiting) \/
  (_queue s = [] /\ dom (crawled_urls s) = {[get_basic_url (url self)]} /\
   unfinished_tasks s = 1%nat /\
   forall i w, workers s !! i = Some w -> w = Waiting \/ w = Raised) \/
  (_queue s = [] /\ dom (crawled_urls s) = {[get_basic_url (url self)]} /\
   unfinished_tasks s = 0%nat /\
   forall i w, workers s !! i = Some w -> w = Waiting).

Lemma record_urls_depth_zero s i got :
  _queue (record_urls self s i (url self) 0 got) = _queue s /\
  unfinished_tasks (record_urls self s i (url self) 0 got) =
    Nat.pred (unfinished_tasks s).
Proof.
  unfold record_urls. rewrite depth_zero. cbn.
  rewrite app_nil_r, Nat.add_0_r. split; reflexivity.
Qed.

Lemma depth_zero_state_step s s' :
  depth_zero_state s -> step self s s' -> depth_zero_state s'.
Proof.
  intros Hs Hstep.
  destruct Hstep as [s i s' Hw Htake|s i u d net st got st' Hw Hget|s i u d net st st' Hw Hget].
  - destruct (take_from_queue_cases _ _ _ Htake)
      as (u & d & rest & Hq & Hq' & Hcases).
    destruct Hs as [(Hqs & Hc & Hu & Hws)|[(Hqs & _)|[(Hqs & _)|(Hqs & _)]]];
      rewrite Hqs in Hq; try discriminate.
    injection Hq as <- <- <-.
    destruct Hcases as [([x Hx] & _)|(_ & Hc' & Hws' & Hu')];
      [rewrite Hc, lookup_empty in Hx; discriminate|].
    right; left. rewrite Hq', Hc', Hws', Hu', Hc.
    split; [reflexivity|]. split; [now rewrite dom_insert_L, dom_empty_L, union_empty_r_L|].
    split; [assumption|]. exists i. split.
    + apply list_lookup_insert_eq. now apply lookup_lt_Some in Hw.
    + intros j w Hne Hj. rewrite list_lookup_insert_ne in Hj by auto. eauto.
  - destruct Hs as [(_ & _ & _ & Hws)|[(Hqs & Hdom & Hu & i0 & Hi0 & Hothers)|
                    [(_ & _ & _ & Hws)|(_ & _ & _ & Hws)]]];
      try (apply Hws in Hw; discriminate);
      try (apply Hws in Hw as [?|?]; discriminate).
    destruct (decide (i = i0)) as [->|Hne];
      [|apply (Hothers _ _ Hne) in Hw; discriminate].
    rewrite Hi0 in Hw. injection Hw as <- <-.
    destruct (record_urls_depth_zero s i0 got) as [Hq' Hu'].
    right; right; right. rewrite Hq', Hu', Hqs, Hu.
    split; [reflexivity|]. split.
    + unfold record_urls. cbn [crawled_urls]. rewrite dom_insert_L, Hdom.
      apply union_idemp_L.
    + split; [reflexivity|]. intros j w Hj. unfold record_urls in Hj. cbn in Hj.
      apply list_lookup_insert_Some in Hj as [(_ & <- & _)|(Hne & Hj)];
        [reflexivity|eauto].
  - destruct Hs as [(_ & _ & _ & Hws)|[(Hqs & Hdom & Hu & i0 & Hi0 & Hothers)|
                    [(_ & _ & _ & Hws)|(_ & _ & _ & Hws)]]];
      try (apply Hws in Hw; discriminate);
      try (apply Hws in Hw as [?|?]; discriminate).
    destruct (decide (i = i0)) as [->|Hne];
      [|apply (Hothers _ _ Hne) in Hw; discriminate].
    right; right; left. cbn. repeat split; try assumption.
    intros j w Hj.
    apply list_lookup_insert_Some in Hj as [(_ & <- & _)|(Hne & Hj)];
      [now right|left; eauto].
Qed.

Lemma reachable_depth_zero_state s : reachable self s -> depth_zero_state s.
Proof.
  induction 1 as [|s s' _ IH Hstep]; [|now apply (depth_zero_state_step s)].
  left. cbn. repeat split.
  intros i w Hw. now apply lookup_replicate in Hw as [-> _].
Qed.

(** A run in which the fetch of the root returns [got] can be joined. *)
Lemma depth_zero_run net st got st' :
  (0 < max_runners self)%Z ->
  _get_urls self net (url self) 0 st = (Some got, st') ->
  exists s_end,
    reachable self s_end /\ joined s_end /\
    crawled_urls s_end =
      {[ get_basic_url (url self) :=
           List.filter (fun b => negb (String.eqb b (get_basic_url (url self))))
             (map get_basic_url got) ]}.
Proof.
  intros Hrunners Hget.
  set (s1 := {| crawled_urls := <[get_basic_url (url self) := []]> ∅;
                _queue := [];
                unfinished_tasks := 1;
                workers := <[0%nat := Fetching (url self) 0]>
                             (workers (crawl_start self)) |}).
  assert (Hw0 : workers (crawl_start self) !! 0%nat = Some Waiting).
  { cbn. apply lookup_replicate. split; [reflexivity|lia]. }
  assert (Hs1 : reachable self s1).
  { apply (reachable_step self (crawl_start self)); [constructor|].
    apply (step_take self _ 0%nat); [assumption|]. reflexivity. }
  assert (Hw1 : workers s1 !! 0%nat = Some (Fetching (url self) 0)).
  { cbn. apply list_lookup_insert_eq. rewrite length_replicate. lia. }
  exists (record_urls self s1 0%nat (url self) 0 got).
  split; [|split].
  - apply (reachable_step self s1); [assumption|].
    eapply step_record; eassumption.
  - unfold joined. now rewrite (proj2 (record_urls_depth_zero s1 0%nat got)).
  - unfold record_urls. cbn [crawled_urls s1].
    rewrite insert_insert_eq, filter_map_basic. reflexivity.
Qed.

End DepthZero.

(** C2. In every state of a run the queue holds frontier items only: the
    root at depth 0, or a crawlable url of the domain of the root, one
    level below a depth that [max_depth] allowed.  A step puts an item on
    the queue only as [(child, depth + 1)] for a url [child] extracted from
    a page that a worker was fetching at [depth], with [max_depth] unset or
    above [depth], the domain of [child] the one of the root, its basic url
    no key of the crawled urls, and [child] crawlable.  With [max_depth = 0]
    only the root is ever fetched or queued, the basic url of the root is
    the only possible key, it is the only key once the queue is joined, and
    a run in which the fetch of the root returns can be joined. *)
Theorem frontier_entries `{Library} (self : Crawler) (s : state) :
  reachable self s ->
  Forall (frontier_item self) (_queue s) /\
  (forall s', step self s s' ->
     exists added,
       (_queue s' = (_queue s ++ added)%list \/
        _queue s' = (tail (_queue s) ++ added)%list) /\
       Forall (enqueued_from self s s') added) /\
  (max_depth self = Some 0%Z ->
     (forall i u d, workers s !! i = Some (Fetching u d) -> u = url self /\ d = 0%Z) /\
     (forall item, item ∈ _queue s -> item = (url self, 0%Z)) /\
     (forall k, is_Some (crawled_urls s !! k) -> k = get_basic_url (url self)) /\
     (joined s -> dom (crawled_urls s) = {[get_basic_url (url self)]}) /\
     ((0 < max_runners self)%Z ->
      forall net st got st',
        _get_urls self net (url self) 0 st = (Some got, st') ->
        exists s_end,
          reachable self s_end /\ joined s_end /\
          crawled_urls s_end =
            {[ get_basic_url (url self) :=
                 List.filter
                   (fun b => negb (String.eqb b (get_basic_url (url self))))
                   (map get_basic_url got) ]})).
Proof.
  intros Hreach. split; [|split].
  - apply (reachable_run_invariant self s Hreach).
  - apply step_frontier.
  - intros Hzero.
    pose proof (reachable_depth_zero_state self Hzero s Hreach) as Hs.
    split; [|split; [|split; [|split]]].
    + intros i u d Hw.
      destruct Hs as [(_ & _ & _ & Hws)|[(_ & _ & _ & i0 & Hi0 & Hothers)|
                      [(_ & _ & _ & Hws)|(_ & _ & _ & Hws)]]];
        try (apply Hws in Hw; discriminate);
        try (apply Hws in Hw as [?|?]; discriminate).
      destruct (decide (i = i0)) as [->|Hne];
        [|apply (Hothers _ _ Hne) in Hw; discriminate].
      rewrite Hi0 in Hw. now injection Hw as <- <-.
    + intros item Hin.
      destruct Hs as [(Hq & _)|[(Hq & _)|[(Hq & _)|(Hq & _)]]];
        rewrite Hq in Hin;
        [now apply list_elem_of_singleton in Hin|now apply not_elem_of_nil in Hin..].
    + intros k Hk. apply elem_of_dom in Hk.
      destruct Hs as [(_ & Hc & _)|[(_ & Hd & _)|[(_ & Hd & _)|(_ & Hd & _)]]].
      * rewrite Hc, dom_empty_L in Hk. now apply not_elem_of_empty in Hk.
      * rewrite Hd in Hk. now apply elem_of_singleton in Hk.
      * rewrite Hd in Hk. now apply elem_of_singleton in Hk.
      * rewrite Hd in Hk. now apply elem_of_singleton in Hk.
    + unfold joined. intros Hj.
      destruct Hs as [(_ & _ & Hu & _)|[(_ & _ & Hu & _)|[(_ & _ & Hu & _)|(_ & Hd & _)]]];
        [congruence..|assumption].
    + intros Hrunners net st got st' Hget.
      now apply (depth_zero_run self Hzero net st got st').
Qed.

(** A crawler of "http://mysite.com" with two workers, [max_depth = 0] and
    the regex search. *)
Definition depth_zero_crawler : Crawler :=
  {| url := url regex_crawler;
     domain_filter := true; max_runners := 2; print_in_real_time := false;
     max_retries := 5; sleep_between_retries := 0x1.3333333333333p-2%float;
     max_depth := Some 0%Z; regex_search := true; assume_parent_protocol := true;
     sleep_after_request := 0%float; concurrent_requests_limit := None |}.

(** The state in which the first worker has taken the root from the queue. *)
Definition root_claimed : state :=
  {| crawled_urls := <["http://mysite.com" := []]> ∅;
     _queue := [];
     unfinished_tasks := 1;
     workers := [Fetching (url regex_crawler) 0; Waiting] |}.

Lemma frontier_entries_witness :
  Forall (frontier_item depth_zero_crawler) (_queue root_claimed) /\
  forall i u d, workers root_claimed !! i = Some (Fetching u d) ->
                u = url depth_zero_crawler /\ d = 0%Z.
Proof.
  pose proof (frontier_entries (H := strict_library) depth_zero_crawler root_claimed
                (reachable_step depth_zero_crawler _ _
                   (reachable_start depth_zero_crawler)
                   (step_take depth_zero_crawler
                      (crawl_start depth_zero_crawler) 0%nat root_claimed
                      eq_refl eq_refl))) as (Hq & _ & Hzero).
  split; [exact Hq|]. exact (proj1 (Hzero eq_refl)).
Defined.

Lemma recorded_children_witness :
  crawled_urls
    (record_urls depth_zero_crawler root_claimed 0%nat (url regex_crawler) 0
       [page_a; url regex_crawler])
    !! "http://mysite.com"
  = Some ["http://mysite.com/a"].
Proof.
  exact (proj1 (proj2
    (recorded_children (H := strict_library) depth_zero_crawler root_claimed
       0%nat (url regex_crawler) 0
       (fun _ _ => Body "<p>http://mysite.com/a http://mysite.com</p>")
       {| requests := 0; trace := [] |}
       [page_a; url regex_crawler]
       {| requests := 1; trace := [Request "http://mysite.com"] |}
       (reachable_step depth_zero_crawler _ _
          (reachable_start depth_zero_crawler)
          (step_take depth_zero_crawler
             (crawl_start depth_zero_crawler) 0%nat root_claimed
             eq_refl eq_refl))
       eq_refl eq_refl))).
Defined.

(* ===================================================================== *)
(** ** Normal forms of [refactor]                                        *)
(* ===================================================================== *)

Fixpoint last_char (s : string) : option ascii :=
  match s with
  | EmptyString => None
  | String c EmptyString => Some c
  | String _ s' => last_char s'
  end.

Lemma drop_length_pred c s :
  Str.drop (String.length (String c s) - 1) (String c s) =
  match s with
  | EmptyString => String c EmptyString
  | String _ _ => Str.drop (String.length s - 1) s
  end.
Proof.
  destruct s as [|d s]; [reflexivity|].
  cbn [String.length]. rewrite !Nat.sub_succ, !Nat.sub_0_r. reflexivity.
Qed.

Lemma endswith_char s c :
  Str.endswith s (String c "") =
  match last_char s with Some d => Ascii.eqb d c | None => false end.
Proof.
  unfold Str.endswith. induction s as [|a s IH]; [reflexivity|].
  destruct s as [|b s].
  - cbn. now destruct (Ascii.eqb a c).
  - change (last_char (String a (String b s))) with (last_char (String b s)).
    etransitivity; [|exact IH].
    change (String.length (String c "")) with 1%nat.
    rewrite drop_length_pred. reflexivity.
Qed.

Lemma drop_last_app_char s c : Str.drop_last (s +:+ String c "") = s.
Proof.
  induction s as [|a s IH]; [reflexivity|].
  destruct s as [|b s]; [reflexivity|].
  change (String a (String b s) +:+ String c "")
    with (String a (String b (s +:+ String c ""))).
  change (Str.drop_last (String a (String b (s +:+ String c ""))))
    with (String a (Str.drop_last (String b (s +:+ String c "")))).
  f_equal. exact IH.
Qed.

Lemma last_char_app_char s c : last_char (s +:+ String c "") = Some c.
Proof.
  induction s as [|a s IH]; [reflexivity|].
  destruct s as [|b s]; [reflexivity|]. exact IH.
Qed.

(** A string that ends with [c] is its [drop_last] followed by [c]. *)
Lemma last_char_split s c : last_char s = Some c -> s = Str.drop_last s +:+ String c "".
Proof.
  induction s as [|a s IH]; [discriminate|].
  destruct s as [|b s]; [now intros [= ->]|].
  intros Hl.
  change (String a (String b s) =
          String a (Str.drop_last (String b s) +:+ String c "")).
  f_equal. now apply IH.
Qed.

Definition no_double_slash (s : string) : Prop := Str.contains "//" s = false.

Lemma contains_cons p c s :
  Str.contains p (String c s) = Str.startswith (String c s) p || Str.contains p s.
Proof. reflexivity. Qed.

Lemma no_double_slash_cons c d s :
  no_double_slash (String c (String d s)) <->
  ~ (c = "/"%char /\ d = "/"%char) /\ no_double_slash (String d s).
Proof.
  unfold no_double_slash. rewrite contains_cons.
  cbn [Str.startswith]. rewrite andb_true_r, orb_false_iff, andb_false_iff.
  split.
  - intros [[Hc|Hd] Hs]; (split; [|assumption]); intros [-> ->]; discriminate.
  - intros [Hn Hs]. split; [|assumption].
    destruct (Ascii.eqb_spec "/"%char c) as [<-|]; [|now left].
    destruct (Ascii.eqb_spec "/"%char d) as [<-|]; [|now right].
    now destruct Hn.
Qed.

Lemma no_double_slash_single c : no_double_slash (String c "").
Proof. unfold no_double_slash. cbn. now rewrite andb_false_r. Qed.

(** A pass of [replace('//', '/')] changes exactly the strings that hold
    two consecutive slashes. *)
Lemma replace_slashes_fixed_aux n :
  forall s, (String.length s <= n)%nat ->
            (replace_slashes s = s <-> no_double_slash s).
Proof.
  induction n as [|n IH]; intros s Hn.
  - destruct s; [|cbn in Hn; lia]. split; reflexivity.
  - destruct s as [|c [|d s]].
    + split; reflexivity.
    + rewrite replace_slashes_single. split; [intros _; apply no_double_slash_single|reflexivity].
    + rewrite no_double_slash_cons.
      destruct (Ascii.eqb_spec c "/"%char) as [->|Hc];
        [destruct (Ascii.eqb_spec d "/"%char) as [->|Hd]|].
      * rewrite replace_slashes_pair. split.
        -- intros Heq. apply (f_equal String.length) in Heq.
           pose proof (replace_slashes_length_le s). cbn in Heq. lia.
        -- intros [Hn' _]. now destruct Hn'.
      * rewrite replace_slashes_other by tauto.
        rewrite <- (IH (String d s)) by (cbn in Hn |- *; lia).
        split; [intros [= ->]; split; [tauto|reflexivity]|intros [_ ->]; reflexivity].
      * rewrite replace_slashes_other by tauto.
        rewrite <- (IH (String d s)) by (cbn in Hn |- *; lia).
        split; [intros [= ->]; split; [tauto|reflexivity]|intros [_ ->]; reflexivity].
Qed.

Lemma replace_slashes_fixed s : replace_slashes s = s <-> no_double_slash s.
Proof. now apply (replace_slashes_fixed_aux (String.length s)). Qed.

(** The loop returns a string that a further pass leaves alone. *)
Lemma while_loop_fixed previous_url formatted_url :
  formatted_url = replace_slashes previous_url ->
  replace_slashes (while_loop previous_url formatted_url) =
  while_loop previous_url formatted_url.
Proof.
  funelim (while_loop previous_url formatted_url); intros Hinv.
  - match goal with
    | E : String.eqb _ _ = true |- _ => pose proof (proj1 (String.eqb_eq _ _) E)
    end.
    congruence.
  - match goal with IH : _ -> replace_slashes _ = _ |- _ => now apply IH end.
Qed.

Lemma remove_consecutive_slashes_no_double_slash s :
  no_double_slash (remove_consecutive_slashes s).
Proof. apply replace_slashes_fixed, while_loop_fixed. reflexivity. Qed.

Lemma while_loop_same previous_url formatted_url :
  formatted_url = previous_url ->
  while_loop previous_url formatted_url = formatted_url.
Proof.
  funelim (while_loop previous_url formatted_url); intros Heq; [reflexivity|].
  subst. pose proof (String.eqb_refl previous_url). congruence.
Qed.

Lemma remove_consecutive_slashes_id s :
  no_double_slash s -> remove_consecutive_slashes s = s.
Proof.
  intros Hs. apply replace_slashes_fixed in Hs.
  unfold remove_consecutive_slashes. rewrite Hs. now apply while_loop_same.
Qed.

(** The paths that [_refactor_ending] leaves: no two consecutive slashes
    and no slash at the end. *)
Definition normal (s : string) : Prop :=
  no_double_slash s /\ last_char s <> Some "/"%char.

Lemma no_double_slash_drop_last_aux n :
  forall s, (String.length s <= n)%nat -> no_double_slash s ->
    no_double_slash (Str.drop_last s) /\
    (last_char s = Some "/"%char -> last_char (Str.drop_last s) <> Some "/"%char).
Proof.
  induction n as [|n IH]; intros s Hn Hs.
  - destruct s; [|cbn in Hn; lia]. split; [exact Hs|discriminate].
  - destruct s as [|c [|d s]].
    + split; [exact Hs|discriminate].
    + split; [reflexivity|discriminate].
    + apply no_double_slash_cons in Hs as [Hcd Hs].
      destruct (IH (String d s)) as [IH1 IH2]; [cbn in Hn |- *; lia|assumption|].
      change (Str.drop_last (String c (String d s)))
        with (String c (Str.drop_last (String d s))).
      change (last_char (String c (String d s))) with (last_char (String d s)).
      destruct s as [|e s].
      * split; [apply no_double_slash_single|].
        cbn. intros [= ->] [= ->]. now apply Hcd.
      * change (Str.drop_last (String d (String e s)))
          with (String d (Str.drop_last (String e s))) in *.
        split.
        -- apply no_double_slash_cons. split; assumption.
        -- exact IH2.
Qed.

Lemma no_double_slash_app_slash t :
  normal t -> no_double_slash (t +:+ "/").
Proof.
  intros [Hs Hl]. induction t as [|c t IH]; [apply no_double_slash_single|].
  destruct t as [|d t].
  - cbn. apply no_double_slash_cons. split; [|apply no_double_slash_single].
    intros [-> _]. now apply Hl.
  - apply no_double_slash_cons in Hs as [Hcd Hs].
    change (String c (String d t) +:+ "/") with (String c (String d (t +:+ "/"))).
    apply no_double_slash_cons. split; [assumption|]. now apply IH.
Qed.

Lemma refactor_normal t : normal (refactor t).
Proof.
  unfold refactor.
  set (r1 := if Str.contains "//" t then remove_consecutive_slashes t else t).
  assert (H1 : no_double_slash r1).
  { subst r1. destruct (Str.contains "//" t) eqn:E;
      [apply remove_consecutive_slashes_no_double_slash|exact E]. }
  set (r2 := if String.eqb r1 "/" then "" else r1).
  assert (H2 : no_double_slash r2) by (subst r2; now destruct (String.eqb r1 "/")).
  rewrite endswith_char.
  destruct (no_double_slash_drop_last_aux (String.length r2) r2 (Nat.le_refl _) H2)
    as [H3 H4].
  destruct (last_char r2) as [d|] eqn:El.
  - destruct (Ascii.eqb_spec d "/"%char) as [->|Hd].
    + split; [assumption|]. now apply H4.
    + split; [assumption|]. rewrite El. congruence.
  - split; [assumption|]. rewrite El. discriminate.
Qed.

Lemma refactor_id t : normal t -> refactor t = t.
Proof.
  intros [Hs Hl]. unfold refactor. rewrite Hs.
  destruct (String.eqb_spec t "/") as [->|_]; [now destruct Hl|].
  rewrite endswith_char. destruct (last_char t) as [d|]; [|reflexivity].
  destruct (Ascii.eqb_spec d "/"%char) as [->|_]; [now destruct Hl|reflexivity].
Qed.

Lemma refactor_app_slash t : normal t -> refactor (t +:+ "/") = t.
Proof.
  intros Ht. unfold refactor. rewrite (no_double_slash_app_slash t Ht).
  destruct t as [|c t]; [reflexivity|].
  destruct (String.eqb_spec (String c t +:+ "/") "/") as [Heq|_].
  - destruct t; cbn in Heq; discriminate Heq.
  - rewrite endswith_char, last_char_app_char. cbn [Ascii.eqb].
    change (Ascii.eqb "/" "/") with true. cbv iota.
    apply drop_last_app_char.
Qed.

(* ===================================================================== *)
(** ** Parsing a fragment reference                                      *)
(* ===================================================================== *)

Lemma replace_char_cons (b c : ascii) (s : string) :
  Str.replace (String b "") "" (String c s) =
  if Ascii.eqb b c then Str.replace (String b "") "" s
  else String c (Str.replace (String b "") "" s).
Proof.
  unfold Str.replace. cbn [Str.replace_from Str.startswith].
  rewrite andb_true_r. destruct (Ascii.eqb b c); reflexivity.
Qed.

Lemma remove_unsafe_cons (c : ascii) (s : string) :
  remove_unsafe (String c s) =
  if Ascii.eqb "009" c || Ascii.eqb "013" c || Ascii.eqb "010" c
  then remove_unsafe s else String c (remove_unsafe s).
Proof.
  unfold remove_unsafe, unsafe_url_bytes_to_remove. cbn [fold_left].
  rewrite (replace_char_cons "009" c).
  destruct (Ascii.eqb "009" c); cbn [orb]; [reflexivity|].
  rewrite (replace_char_cons "013" c).
  destruct (Ascii.eqb "013" c); cbn [orb]; [reflexivity|].
  rewrite (replace_char_cons "010" c).
  destruct (Ascii.eqb "010" c); reflexivity.
Qed.

Lemma find_cons (c d : ascii) (s : string) :
  Str.find c (String d s) =
  if Ascii.eqb c d then Some 0%nat
  else match Str.find c s with Some i => Some (S i) | None => None end.
Proof. reflexivity. Qed.

Section FragmentReference.
Context `{Library}.

Lemma split_scheme_not_alpha c s :
  Str.is_ascii_alpha c = false -> split_scheme (String c s) = ("", String c s).
Proof.
  intros Hc. unfold split_scheme. rewrite Hc.
  destruct (Str.find ":" (String c s)) as [[|i]|]; reflexivity.
Qed.

Lemma split_netloc_no_slash c s :
  Ascii.eqb c "/" = false -> split_netloc (String c s) = Some ("", String c s).
Proof.
  intros Hc. unfold split_netloc.
  destruct s as [|d s]; cbn [Str.take String.eqb]; rewrite Hc; reflexivity.
Qed.

Lemma get_url_info_hash rest :
  get_url_info (String "#" rest) = Some ("", false, "", "", remove_unsafe rest).
Proof.
  unfold get_url_info, urlparse, urlsplit.
  change (Str.lstrip c0_control_or_space (String "#" rest)) with (String "#" rest).
  rewrite remove_unsafe_cons.
  change (Ascii.eqb "009" "#" || Ascii.eqb "013" "#" || Ascii.eqb "010" "#") with false.
  cbv iota. rewrite split_scheme_not_alpha by reflexivity.
  rewrite split_netloc_no_slash by reflexivity.
  reflexivity.
Qed.

Lemma get_url_info_dot_slash_hash rest :
  get_url_info (String "." (String "/" (String "#" rest))) =
  Some ("", false, "", "./", remove_unsafe rest).
Proof.
  unfold get_url_info, urlparse, urlsplit.
  change (Str.lstrip c0_control_or_space (String "." (String "/" (String "#" rest))))
    with (String "." (String "/" (String "#" rest))).
  rewrite !remove_unsafe_cons.
  change (Ascii.eqb "009" "." || Ascii.eqb "013" "." || Ascii.eqb "010" ".") with false.
  change (Ascii.eqb "009" "/" || Ascii.eqb "013" "/" || Ascii.eqb "010" "/") with false.
  change (Ascii.eqb "009" "#" || Ascii.eqb "013" "#" || Ascii.eqb "010" "#") with false.
  cbv iota. rewrite split_scheme_not_alpha by reflexivity.
  rewrite split_netloc_no_slash by reflexivity.
  reflexivity.
Qed.

End FragmentReference.

(* ===================================================================== *)
(** ** Path resolution against a parent                                  *)
(* ===================================================================== *)

(** [string_url.startswith('#') or string_url.startswith('./#')] *)
Definition is_fragment_reference (raw : string) : bool :=
  Str.startswith raw "#" || Str.startswith raw "./#".

(** The path that [_refactor_path] leaves, from the three attributes it
    reads. *)
Definition joined_path (parent_path_ raw path_ : string) : string :=
  if negb (String.eqb parent_path_ "") && is_fragment_reference raw
  then parent_path_
  else if Str.startswith path_ "./" then parent_path_ +:+ Str.drop 1 path_
       else if negb (String.eqb path_ "") && negb (Str.startswith path_ "/")
            then parent_path_ +:+ "/" +:+ path_
            else path_.

Lemma _refactor_path_path v :
  path (_refactor_path v) = joined_path (parent_path v) (string_url v) (path v).
Proof.
  unfold _refactor_path, joined_path, is_fragment_reference.
  destruct (Str.startswith (path v) "./");
    [|destruct (negb (String.eqb (path v) "") && negb (Str.startswith (path v) "/"))];
    url_simpl;
    destruct (negb (String.eqb (parent_path v) "") &&
              (Str.startswith (string_url v) "#" || Str.startswith (string_url v) "./#"));
    reflexivity.
Qed.

Lemma _refactor_attributes_path u :
  path (_refactor_attributes u) =
  let p1 :=
    if String.eqb (domain u) "" || String.eqb (domain u) (parent_domain u)
    then joined_path (parent_path u) (string_url u) (path u)
    else path u in
  if String.eqb p1 "" then p1 else refactor p1.
Proof.
  cbv zeta. unfold _refactor_attributes.
  match goal with
  | |- path (_refactor_ending ?y) = _ =>
      destruct (_refactor_ending_fields y) as (_ & _ & _ & _ & _ & _ & _ & _ & _ & -> & _)
  end.
  destruct (String.eqb (domain u) "" || String.eqb (domain u) (parent_domain u));
    [|reflexivity].
  rewrite _refactor_path_path.
  destruct (String.eqb (protocol u) ""); url_simpl;
    destruct (String.eqb (domain u) ""); url_simpl;
    destruct (parent_www u); url_simpl;
    try destruct (www u); url_simpl; reflexivity.
Qed.

Lemma normal_empty : normal "".
Proof. split; [reflexivity|discriminate]. Qed.

Section PathResolution.
Context `{Library}.

(** The path of every constructed [Url] is normal. *)
Lemma Url_init_path_normal url_ parent upp u :
  Url_init url_ parent upp = Some u -> normal (path u).
Proof.
  unfold Url_init.
  destruct (get_url_info url_) as [[[[[protocol_ www_] domain_] path_] fragment_]|];
    [|discriminate].
  intros [= <-].
  match goal with
  | |- normal (path (_refactor_root_attributes ?y)) =>
      destruct (_refactor_root_attributes_fields y) as (_ & _ & _ & _ & -> & _)
  end.
  rewrite _refactor_attributes_path. cbv zeta.
  match goal with
  | |- normal (if String.eqb ?p "" then _ else _) =>
      destruct (String.eqb_spec p "") as [->|_];
      [apply normal_empty|apply refactor_normal]
  end.
Qed.

Lemma Url_init_same_site_path url_ parent upp protocol_ www_ domain_ path_ fragment_ :
  get_url_info url_ = Some (protocol_, www_, domain_, path_, fragment_) ->
  domain_ = "" \/ domain_ = domain parent ->
  exists u,
    Url_init url_ (Some parent) upp = Some u /\
    path u =
      (if String.eqb (joined_path (path parent) url_ path_) ""
       then "" else refactor (joined_path (path parent) url_ path_)).
Proof.
  intros Hinfo Hsite. unfold Url_init. rewrite Hinfo. eexists. split; [reflexivity|].
  match goal with
  | |- path (_refactor_root_attributes ?y) = _ =>
      destruct (_refactor_root_attributes_fields y) as (_ & _ & _ & _ & -> & _)
  end.
  rewrite _refactor_attributes_path. cbv zeta. url_simpl.
  assert (Hs : String.eqb domain_ "" || String.eqb domain_ (domain parent) = true).
  { destruct Hsite as [->| ->]; [reflexivity|].
    rewrite String.eqb_refl. apply orb_true_r. }
  rewrite Hs.
  destruct (String.eqb_spec (joined_path (path parent) url_ path_) "") as [->|_];
    reflexivity.
Qed.

End PathResolution.

Lemma joined_path_no_reference pp raw p :
  is_fragment_reference raw = false \/ pp = "" ->
  joined_path pp raw p =
    if Str.startswith p "./" then pp +:+ Str.drop 1 p
    else if negb (String.eqb p "") && negb (Str.startswith p "/")
         then pp +:+ "/" +:+ p
         else p.
Proof.
  intros [Hf| ->]; unfold joined_path; [rewrite Hf, andb_false_r|]; reflexivity.
Qed.

Lemma joined_path_reference pp raw p :
  is_fragment_reference raw = true -> pp <> "" -> joined_path pp raw p = pp.
Proof.
  intros Hf Hpp. unfold joined_path. rewrite Hf.
  now destruct (String.eqb_spec pp "").
Qed.

Lemma startswith_slash_not_dot p :
  Str.startswith p "/" = true -> Str.startswith p "./" = false.
Proof.
  destruct p as [|c p]; [discriminate|]. cbn [Str.startswith]. rewrite andb_true_r.
  intros Hc. apply Ascii.eqb_eq in Hc as <-. reflexivity.
Qed.

Lemma app_slash_nonempty a b : String.eqb (a +:+ String "/" b) "" = false.
Proof. destruct a; reflexivity. Qed.

Section PathRules.
Context `{Library}.

(** The path that [urlparse] finds in a fragment reference. *)
Lemma fragment_reference_path url_ protocol_ www_ domain_ path_ fragment_ :
  is_fragment_reference url_ = true ->
  get_url_info url_ = Some (protocol_, www_, domain_, path_, fragment_) ->
  path_ = "" \/ path_ = "./".
Proof.
  unfold is_fragment_reference. intros Hf Hinfo.
  apply orb_true_iff in Hf as [Hf|Hf]; apply startswith_app in Hf;
    rewrite Hf in Hinfo; rewrite ?append_cons, append_nil_l in Hinfo.
  - rewrite get_url_info_hash in Hinfo. injection Hinfo as _ _ _ <- _. now left.
  - rewrite get_url_info_dot_slash_hash in Hinfo. injection Hinfo as _ _ _ <- _.
    now right.
Qed.

End PathRules.

(** C1. Let [url_] be parsed into a path [path_] and a domain that is empty
    or the one of [parent], a constructed [Url].  Then [Url(url_, parent)]
    is constructed, and its path is the path [joined] that [_refactor_path]
    leaves, normalised by [_refactor_ending]: outside of fragment
    references, [joined] is [parent.path + path_[1:]] when [path_] starts
    with "./" and [parent.path + "/" + path_] when [path_] is not empty and
    does not start with "/"; it is [path_] when [path_] starts with "/".
    On the constructed [Url] the four rules read: a fragment reference
    keeps the path of the parent, and the three joined paths are stored
    normalised.  In particular
    [Url("./test2", Url("http://www.mysite.com/test")).get_basic_url()] is
    "http://mysite.com/test/test2". *)
Theorem path_resolution `{Library} :
  (forall (url_ : string) (parent : Url) (upp : bool)
          (parent_url : string) (grandparent : option Url) (parent_upp : bool)
          (protocol_ : string) (www_ : bool) (domain_ path_ fragment_ : string),
     Url_init parent_url grandparent parent_upp = Some parent ->
     get_url_info url_ = Some (protocol_, www_, domain_, path_, fragment_) ->
     domain_ = "" \/ domain_ = domain parent ->
     exists (u : Url) (joined : string),
       Url_init url_ (Some parent) upp = Some u /\
       path u = (if String.eqb joined "" then "" else refactor joined) /\
       (is_fragment_reference url_ = false -> Str.startswith path_ "./" = true ->
        joined = path parent +:+ Str.drop 1 path_) /\
       (is_fragment_reference url_ = false -> path_ <> "" ->
        Str.startswith path_ "/" = false -> Str.startswith path_ "./" = false ->
        joined = path parent +:+ "/" +:+ path_) /\
       (Str.startswith path_ "/" = true -> joined = path_) /\
       (is_fragment_reference url_ = true -> path u = path parent) /\
       (Str.startswith path_ "./" = true ->
        path u = refactor (path parent +:+ Str.drop 1 path_)) /\
       (path_ <> "" -> Str.startswith path_ "/" = false ->
        Str.startswith path_ "./" = false ->
        path u = refactor (path parent +:+ "/" +:+ path_)) /\
       (Str.startswith path_ "/" = true -> path u = refactor path_)) /\
  match Url_init "http://www.mysite.com/test" None true with
  | Some parent => option_map get_basic_url (Url_init "./test2" (Some parent) true)
  | None => None
  end = Some "http://mysite.com/test/test2".
Proof.
  split; [|vm_compute; reflexivity].
  intros url_ parent upp parent_url grandparent parent_upp
    protocol_ www_ domain_ path_ fragment_ Hparent Hinfo Hsite.
  pose proof (Url_init_path_normal _ _ _ _ Hparent) as Hnormal.
  destruct (Url_init_same_site_path url_ parent upp _ _ _ _ _ Hinfo Hsite)
    as (u & Hu & Hpath).
  set (pp := path parent) in *. set (j := joined_path pp url_ path_) in *.
  assert (Hfrag : is_fragment_reference url_ = true -> path_ = "" \/ path_ = "./")
    by (intros Hf; exact (fragment_reference_path _ _ _ _ _ _ Hf Hinfo)).
  assert (Hj : is_fragment_reference url_ = false \/ pp = "" ->
               j = if Str.startswith path_ "./" then pp +:+ Str.drop 1 path_
                   else if negb (String.eqb path_ "") && negb (Str.startswith path_ "/")
                        then pp +:+ "/" +:+ path_
                        else path_)
    by (apply joined_path_no_reference).
  assert (Hjref : is_fragment_reference url_ = true -> pp <> "" -> j = pp)
    by (apply joined_path_reference).
  assert (Hdot : Str.startswith path_ "./" = true ->
                 exists rest, path_ = String "." (String "/" rest)).
  { intros Hp. apply startswith_app in Hp. eexists. exact Hp. }
  exists u, j. split; [assumption|]. split; [assumption|].
  split; [|split; [|split; [|split; [|split; [|split]]]]].
  - intros Hf Hp. rewrite Hj by now left. now rewrite Hp.
  - intros Hf Hne Hs Hd. rewrite Hj by now left. rewrite Hd, Hs.
    now destruct (String.eqb_spec path_ "").
  - intros Hs. destruct (is_fragment_reference url_) eqn:Hf.
    + destruct (Hfrag eq_refl) as [-> | ->]; discriminate.
    + rewrite Hj by now left. rewrite (startswith_slash_not_dot _ Hs), Hs.
      now rewrite andb_false_r.
  - intros Hf. rewrite Hpath. destruct (String.eqb_spec pp "") as [Hpp|Hpp].
    + rewrite Hj by now right. rewrite Hpp.
      destruct (Hfrag Hf) as [-> | ->]; reflexivity.
    + rewrite (Hjref Hf Hpp). destruct (String.eqb_spec pp ""); [contradiction|].
      now apply refactor_id.
  - intros Hp. rewrite Hpath. destruct (Hdot Hp) as [rest ->].
    cbn [Str.drop]. destruct (is_fragment_reference url_) eqn:Hf.
    + destruct (Hfrag eq_refl) as [Heq|Heq]; [discriminate|].
      injection Heq as ->. destruct (String.eqb_spec pp "") as [Hpp|Hpp].
      * rewrite Hj by now right. rewrite Hpp. reflexivity.
      * rewrite (Hjref eq_refl Hpp). destruct (String.eqb_spec pp ""); [contradiction|].
        rewrite refactor_id by assumption. symmetry. now apply refactor_app_slash.
    + rewrite Hj by now left. cbn [Str.startswith Str.drop].
      change (Ascii.eqb "." "." && (Ascii.eqb "/" "/" && true)) with true.
      cbv iota. now rewrite app_slash_nonempty.
  - intros Hne Hs Hd. rewrite Hpath. destruct (is_fragment_reference url_) eqn:Hf.
    + destruct (Hfrag eq_refl) as [-> | ->]; [contradiction|discriminate].
    + rewrite Hj by now left. rewrite Hd, Hs.
      destruct (String.eqb_spec path_ ""); [contradiction|].
      cbn [negb andb]. change (pp +:+ "/" +:+ path_) with (pp +:+ String "/" path_).
      now rewrite app_slash_nonempty.
  - intros Hs. rewrite Hpath. destruct (is_fragment_reference url_) eqn:Hf.
    + destruct (Hfrag eq_refl) as [-> | ->]; discriminate.
    + rewrite Hj by now left. rewrite (startswith_slash_not_dot _ Hs), Hs.
      rewrite andb_false_r. destruct (String.eqb_spec path_ "") as [->|_];
        [discriminate|reflexivity].
Qed.

Definition test_parent : Url :=
  {| string_url := "http://www.mysite.com/test"; parent_protocol := "http";
     parent_www := Some true; parent_domain := "mysite.com"; parent_path := "";
     protocol := "http"; www := true; domain := "mysite.com"; path := "/test";
     fragment := ""; use_parent_protocol := true |}.

Lemma path_resolution_witness :
  exists (u : Url) (joined : string),
    Url_init (H := strict_library) "./test2" (Some test_parent) true = Some u /\
    path u = (if String.eqb joined "" then "" else refactor joined) /\
    (is_fragment_reference "./test2" = false ->
     Str.startswith "./test2" "./" = true ->
     joined = path test_parent +:+ Str.drop 1 "./test2").
Proof.
  destruct (proj1 (path_resolution (H := strict_library))
              "./test2" test_parent true "http://www.mysite.com/test" None true
              "" false "" "./test2" "" eq_refl eq_refl (or_introl eq_refl))
    as (u & joined & Hu & Hpath & Hdot & _).
  exists u, joined. repeat split; assumption.
Defined.

(* ===================================================================== *)
(** ** Characters and substrings                                         *)
(* ===================================================================== *)

(** A property of characters that holds for the 256 of them. *)
Lemma ascii_forall (P : ascii -> bool) :
  forallb (fun n => P (ascii_of_nat n)) (seq 0 256) = true -> forall c, P c = true.
Proof.
  intros HP c. rewrite forallb_forall in HP.
  rewrite <- (ascii_nat_embedding c). apply HP.
  apply in_seq. pose proof (nat_ascii_bounded c). lia.
Qed.

Lemma all_take p n s : Str.all p s = true -> Str.all p (Str.take n s) = true.
Proof.
  revert s. induction n as [|n IH]; intros [|c s] Hs; try reflexivity.
  cbn in Hs |- *. apply andb_true_iff in Hs as [Hc Hs].
  now rewrite Hc, IH.
Qed.

Lemma all_drop p n s : Str.all p s = true -> Str.all p (Str.drop n s) = true.
Proof.
  revert s. induction n as [|n IH]; intros [|c s] Hs; try assumption; try reflexivity.
  cbn in Hs |- *. apply andb_true_iff in Hs as [_ Hs]. now apply IH.
Qed.

Lemma all_drop_last p s : Str.all p s = true -> Str.all p (Str.drop_last s) = true.
Proof.
  induction s as [|c s IH]; [reflexivity|]. intros Hs.
  cbn in Hs. apply andb_true_iff in Hs as [Hc Hs].
  destruct s as [|d s]; [reflexivity|].
  change (Str.drop_last (String c (String d s)))
    with (String c (Str.drop_last (String d s))).
  cbn [Str.all]. rewrite Hc. now apply IH.
Qed.

Lemma all_impl (p q : ascii -> bool) s :
  (forall c, p c = true -> q c = true) -> Str.all p s = true -> Str.all q s = true.
Proof.
  intros Hpq. induction s as [|c s IH]; [reflexivity|]. cbn.
  intros Hs. apply andb_true_iff in Hs as [Hc Hs]. now rewrite (Hpq _ Hc), IH.
Qed.

Lemma all_replace_slashes_aux p n :
  forall s, (String.length s <= n)%nat -> Str.all p s = true ->
            Str.all p (replace_slashes s) = true.
Proof.
  induction n as [|n IH]; intros s Hn Hs.
  - destruct s; [reflexivity|cbn in Hn; lia].
  - destruct s as [|c [|d s]]; [reflexivity|now rewrite replace_slashes_single|].
    cbn [Str.all] in Hs. apply andb_true_iff in Hs as [Hc Hs].
    destruct (Ascii.eqb_spec c "/"%char) as [->|Hc'];
      [destruct (Ascii.eqb_spec d "/"%char) as [->|Hd]|].
    + rewrite replace_slashes_pair. cbn [Str.all]. rewrite Hc.
      apply andb_true_iff in Hs as [_ Hs]. apply IH; [cbn in Hn; lia|assumption].
    + rewrite replace_slashes_other by tauto. cbn [Str.all]. rewrite Hc.
      apply IH; [cbn in Hn |- *; lia|assumption].
    + rewrite replace_slashes_other by tauto. cbn [Str.all]. rewrite Hc.
      apply IH; [cbn in Hn |- *; lia|assumption].
Qed.

Lemma all_replace_slashes p s :
  Str.all p s = true -> Str.all p (replace_slashes s) = true.
Proof. apply (all_replace_slashes_aux p (String.length s)). lia. Qed.

Lemma all_while_loop p previous_url formatted_url :
  Str.all p formatted_url = true ->
  Str.all p (while_loop previous_url formatted_url) = true.
Proof.
  funelim (while_loop previous_url formatted_url); intros Hs; [assumption|].
  match goal with
  | IH : forall q, Str.all q _ = true -> _ |- _ => apply IH
  end.
  now apply all_replace_slashes.
Qed.

Lemma all_refactor p t : Str.all p t = true -> Str.all p (refactor t) = true.
Proof.
  intros Ht. unfold refactor.
  set (r1 := if Str.contains "//" t then remove_consecutive_slashes t else t).
  assert (H1 : Str.all p r1 = true).
  { subst r1. destruct (Str.contains "//" t); [|assumption].
    apply all_while_loop. now apply all_replace_slashes. }
  set (r2 := if String.eqb r1 "/" then "" else r1).
  assert (H2 : Str.all p r2 = true) by (subst r2; now destruct (String.eqb r1 "/")).
  destruct (Str.endswith r2 "/"); [now apply all_drop_last|assumption].
Qed.

(** [c not in s] *)
Definition lacks (c : ascii) (s : string) : bool :=
  Str.all (fun d => negb (Ascii.eqb c d)) s.

Lemma mem_lacks c s : Str.mem c s = negb (lacks c s).
Proof.
  unfold lacks. induction s as [|d s IH]; [reflexivity|]. cbn.
  rewrite IH. now destruct (Ascii.eqb c d), (Str.all _ s).
Qed.

Lemma find_None c s : Str.find c s = None <-> lacks c s = true.
Proof.
  unfold lacks. induction s as [|d s IH]; [split; reflexivity|].
  rewrite find_cons. cbn [Str.all]. destruct (Ascii.eqb c d); cbn.
  - split; discriminate.
  - rewrite <- IH. destruct (Str.find c s); split; congruence.
Qed.

Lemma find_Some c s i :
  Str.find c s = Some i ->
  lacks c (Str.take i s) = true /\
  s = Str.take i s +:+ String c (Str.drop (S i) s).
Proof.
  unfold lacks. revert i. induction s as [|d s IH]; intros i; [discriminate|].
  rewrite find_cons. destruct (Ascii.eqb_spec c d) as [->|Hcd].
  - intros [= <-]. split; reflexivity.
  - destruct (Str.find c s) as [j|]; [|discriminate]. intros [= <-].
    destruct (IH j eq_refl) as [Hl Hs]. split.
    + cbn. rewrite Hl. now destruct (Ascii.eqb_spec c d).
    + cbn [Str.take Str.drop]. rewrite append_cons. f_equal. exact Hs.
Qed.

Lemma find_app c a b :
  lacks c a = true -> Str.find c (a +:+ String c b) = Some (String.length a).
Proof.
  unfold lacks. induction a as [|d a IH]; intros Ha.
  - rewrite append_nil_l, find_cons. now rewrite Ascii.eqb_refl.
  - cbn in Ha. apply andb_true_iff in Ha as [Hd Ha].
    rewrite append_cons, find_cons. apply negb_true_iff in Hd. rewrite Hd.
    now rewrite IH.
Qed.

Lemma take_app a b : Str.take (String.length a) (a +:+ b) = a.
Proof.
  induction a as [|c a IH]; [now destruct b|].
  rewrite append_cons. cbn. now rewrite IH.
Qed.

Lemma drop_app a b : Str.drop (String.length a) (a +:+ b) = b.
Proof. induction a as [|c a IH]; [reflexivity|]. rewrite append_cons. exact IH. Qed.

(* ===================================================================== *)
(** ** The stages of [urlsplit]                                          *)
(* ===================================================================== *)

(** The characters that [urlsplit] does not remove. *)
Definition safe (c : ascii) : bool :=
  negb (Ascii.eqb "009" c || Ascii.eqb "013" c || Ascii.eqb "010" c).

Definition scheme_char (c : ascii) : bool := Str.mem c scheme_chars.

Lemma scheme_char_facts c :
  scheme_char c = true ->
  scheme_char (Str.lower_char c) = true /\
  Str.lower_char (Str.lower_char c) = Str.lower_char c /\
  Ascii.eqb ":" (Str.lower_char c) = false /\
  Ascii.eqb ":" c = false /\
  safe (Str.lower_char c) = true.
Proof.
  intros Hc.
  pose proof (ascii_forall
    (fun c => implb (scheme_char c)
                (scheme_char (Str.lower_char c) &&
                 Ascii.eqb (Str.lower_char (Str.lower_char c)) (Str.lower_char c) &&
                 negb (Ascii.eqb ":" (Str.lower_char c)) &&
                 negb (Ascii.eqb ":" c) &&
                 safe (Str.lower_char c)))
    ltac:(vm_compute; reflexivity) c) as Hall.
  cbv beta in Hall. rewrite Hc in Hall. cbn [implb] in Hall.
  repeat (apply andb_true_iff in Hall as [Hall ?]).
  repeat split; try assumption.
  - now apply Ascii.eqb_eq.
  - now apply negb_true_iff.
  - now apply negb_true_iff.
Qed.

Lemma scheme_lower x :
  Str.all scheme_char x = true ->
  Str.all scheme_char (Str.lower x) = true /\
  Str.lower (Str.lower x) = Str.lower x /\
  lacks ":" (Str.lower x) = true /\
  lacks ":" x = true /\
  Str.all safe (Str.lower x) = true.
Proof.
  unfold lacks. induction x as [|c x IH]; [repeat split; reflexivity|].
  cbn [Str.all Str.lower]. intros Hx. apply andb_true_iff in Hx as [Hc Hx].
  destruct (scheme_char_facts c Hc) as (H1 & H2 & H3 & H4 & H5).
  destruct (IH Hx) as (I1 & I2 & I3 & I4 & I5).
  rewrite H1, H2, H3, H4, H5, I1, I2, I3, I4, I5. repeat split; reflexivity.
Qed.

Lemma remove_unsafe_safe s : Str.all safe (remove_unsafe s) = true.
Proof.
  induction s as [|c s IH]; [reflexivity|]. rewrite remove_unsafe_cons.
  destruct (Ascii.eqb "009" c || Ascii.eqb "013" c || Ascii.eqb "010" c) eqn:E;
    [assumption|]. cbn [Str.all]. unfold safe at 1. now rewrite E, IH.
Qed.

Lemma remove_unsafe_id s : Str.all safe s = true -> remove_unsafe s = s.
Proof.
  induction s as [|c s IH]; [reflexivity|]. cbn [Str.all]. intros Hs.
  apply andb_true_iff in Hs as [Hc Hs]. rewrite remove_unsafe_cons.
  unfold safe in Hc. apply negb_true_iff in Hc. rewrite Hc. now rewrite IH.
Qed.

Lemma take_nonempty i c s : Str.take (S i) (String c s) <> "".
Proof. discriminate. Qed.

(** What [split_scheme] returns: no scheme and the whole text, or the
    lowered text before the first colon, which holds scheme characters
    only, and the text after that colon. *)
Lemma split_scheme_spec url_ scheme rest :
  split_scheme url_ = (scheme, rest) ->
  (scheme = "" /\ rest = url_) \/
  (exists x, x <> "" /\ scheme = Str.lower x /\ Str.all scheme_char x = true /\
             url_ = x +:+ String ":" rest).
Proof.
  unfold split_scheme.
  destruct (Str.find ":" url_) as [[|i]|] eqn:Hfind;
    try (intros [= <- <-]; now left).
  destruct url_ as [|c0 s]; [discriminate|].
  destruct (Str.is_ascii_alpha c0 && _) eqn:Hok; [|intros [= <- <-]; now left].
  intros [= <- <-]. right. apply andb_true_iff in Hok as [_ Hall].
  exists (Str.take (S i) (String c0 s)). split; [discriminate|].
  split; [reflexivity|]. split; [exact Hall|].
  now apply find_Some in Hfind as [_ Hs].
Qed.

Lemma drop_app_cons a c b : Str.drop (S (String.length a)) (a +:+ String c b) = b.
Proof. induction a as [|d a IH]; [reflexivity|]. rewrite append_cons. exact IH. Qed.

(** [split_scheme] on a text that starts with a scheme and a colon. *)
Lemma split_scheme_app c0 x rest :
  Str.is_ascii_alpha c0 = true ->
  Str.all scheme_char (String c0 x) = true ->
  split_scheme (String c0 x +:+ String ":" rest) = (Str.lower (String c0 x), rest).
Proof.
  intros Halpha Hall. unfold split_scheme.
  destruct (scheme_lower _ Hall) as (_ & _ & _ & Hcolon & _).
  rewrite (find_app ":" (String c0 x) rest Hcolon).
  change (String.length (String c0 x)) with (S (String.length x)).
  rewrite append_cons. cbv iota. rewrite Halpha.
  change (Str.take (S (String.length x)) (String c0 (x +:+ String ":" rest)))
    with (Str.take (String.length (String c0 x)) (String c0 x +:+ String ":" rest)).
  rewrite take_app. fold scheme_char. rewrite Hall. cbn [andb].
  change (Str.drop (S (S (String.length x))) (String c0 (x +:+ String ":" rest)))
    with (Str.drop (S (String.length (String c0 x))) (String c0 x +:+ String ":" rest)).
  now rewrite drop_app_cons.
Qed.

(** The characters that end a netloc. *)
Definition is_delim (c : ascii) : bool :=
  Ascii.eqb "/" c || Ascii.eqb "?" c || Ascii.eqb "#" c.

(** The number of characters before the first delimiter. *)
Fixpoint netloc_length (s : string) : nat :=
  match s with
  | EmptyString => 0
  | String c s' => if is_delim c then 0 else S (netloc_length s')
  end.

Definition find_or_length (c : ascii) (s : string) : nat :=
  match Str.find c s with Some i => i | None => String.length s end.

Lemma find_or_length_cons c d s :
  find_or_length c (String d s) =
  if Ascii.eqb c d then 0%nat else S (find_or_length c s).
Proof.
  unfold find_or_length. rewrite find_cons.
  destruct (Ascii.eqb c d); [reflexivity|]. now destruct (Str.find c s).
Qed.

Lemma netloc_length_min s :
  netloc_length s =
  Nat.min (Nat.min (Nat.min (String.length s) (find_or_length "/" s))
                   (find_or_length "?" s))
          (find_or_length "#" s).
Proof.
  induction s as [|c s IH]; [reflexivity|].
  rewrite !find_or_length_cons. cbn [netloc_length String.length]. unfold is_delim.
  destruct (Ascii.eqb "/" c), (Ascii.eqb "?" c), (Ascii.eqb "#" c); cbn [orb]; lia.
Qed.

Lemma _splitnetloc_2 a b s :
  _splitnetloc (String a (String b s)) 2 =
  (Str.take (netloc_length s) s, Str.drop (netloc_length s) s).
Proof.
  unfold _splitnetloc, Str.find_from, slice. cbn [fold_left Str.drop String.length].
  pose proof (netloc_length_min s) as Hmin. unfold find_or_length in Hmin.
  match goal with
  | |- (Str.take (?d - 2) s, Str.drop ?d _) = _ =>
      assert (Hd : d = S (S (netloc_length s)))
        by (destruct (Str.find "/" s), (Str.find "?" s), (Str.find "#" s); lia);
      rewrite Hd
  end.
  cbn [Str.drop]. now rewrite !Nat.sub_succ, Nat.sub_0_r.
Qed.

Lemma netloc_length_spec s :
  Str.all (fun c => negb (is_delim c)) (Str.take (netloc_length s) s) = true /\
  match Str.drop (netloc_length s) s with
  | EmptyString => True
  | String c _ => is_delim c = true
  end.
Proof.
  induction s as [|c s [IH1 IH2]]; [split; [reflexivity|exact I]|].
  cbn [netloc_length]. destruct (is_delim c) eqn:E.
  - split; [reflexivity|exact E].
  - cbn [Str.take Str.drop Str.all]. rewrite E. split; assumption.
Qed.

(** The netloc of a text that is a netloc without delimiter followed by
    nothing or by a delimiter. *)
Lemma netloc_length_app n rest :
  Str.all (fun c => negb (is_delim c)) n = true ->
  match rest with EmptyString => True | String c _ => is_delim c = true end ->
  netloc_length (n +:+ rest) = String.length n.
Proof.
  intros Hn Hrest. induction n as [|c n IH].
  - rewrite append_nil_l. destruct rest as [|c rest]; [reflexivity|].
    cbn. now rewrite Hrest.
  - cbn [Str.all] in Hn. apply andb_true_iff in Hn as [Hc Hn].
    rewrite append_cons. cbn [netloc_length String.length].
    apply negb_true_iff in Hc. rewrite Hc. now rewrite IH.
Qed.

Section SplitNetloc.
Context `{Library}.

(** The brackets of a netloc that [split_netloc] accepts. *)
Definition brackets_accepted (netloc : string) : Prop :=
  (Str.mem "[" netloc = false /\ Str.mem "]" netloc = false) \/
  (Str.mem "[" netloc = true /\ Str.mem "]" netloc = true /\
   check_bracketed_netloc netloc = true).

Lemma take_drop n s : Str.take n s +:+ Str.drop n s = s.
Proof.
  revert s. induction n as [|n IH]; intros [|c s]; try reflexivity.
  cbn [Str.take Str.drop]. rewrite append_cons. f_equal. apply IH.
Qed.

Lemma split_netloc_facts url_ netloc rest :
  split_netloc url_ = Some (netloc, rest) ->
  netloc <> "" ->
  url_ = "//" +:+ netloc +:+ rest /\
  Str.all (fun c => negb (is_delim c)) netloc = true /\
  match rest with EmptyString => True | String c _ => is_delim c = true end /\
  brackets_accepted netloc.
Proof.
  unfold split_netloc.
  destruct (String.eqb_spec (Str.take 2 url_) "//") as [Htake|_];
    [|intros [= <- <-] Hne; now destruct Hne].
  destruct url_ as [|a [|b s]]; try discriminate.
  injection Htake as -> ->. rewrite _splitnetloc_2.
  destruct (netloc_length_spec s) as [Hall Hrest].
  pose proof (take_drop (netloc_length s) s) as Hs.
  set (n := Str.take (netloc_length s) s) in *.
  set (r := Str.drop (netloc_length s) s) in *.
  unfold brackets_accepted.
  destruct (Str.mem "[" n) eqn:Eo, (Str.mem "]" n) eqn:Ec; cbn [andb orb negb];
    try discriminate.
  - destruct (check_bracketed_netloc n) eqn:Echeck; [|discriminate].
    intros [= <- <-] _. rewrite !append_cons, append_nil_l, Hs.
    repeat split; try assumption. right. auto.
  - intros [= <- <-] _. rewrite !append_cons, append_nil_l, Hs.
    repeat split; try assumption. left. auto.
Qed.

(** [split_netloc] on two slashes, an accepted netloc and the rest. *)
Lemma split_netloc_app netloc rest :
  Str.all (fun c => negb (is_delim c)) netloc = true ->
  match rest with EmptyString => True | String c _ => is_delim c = true end ->
  brackets_accepted netloc ->
  split_netloc ("//" +:+ netloc +:+ rest) = Some (netloc, rest).
Proof.
  intros Hn Hrest Hb. unfold split_netloc.
  rewrite !append_cons, append_nil_l.
  change (Str.take 2 (String "/" (String "/" (netloc +:+ rest)))) with "//".
  rewrite String.eqb_refl, _splitnetloc_2, (netloc_length_app _ _ Hn Hrest).
  rewrite take_app, drop_app.
  destruct Hb as [[-> ->]|(-> & -> & ->)]; reflexivity.
Qed.

End SplitNetloc.

Section ParseStages.
Context `{Library}.

(** The stages that lead [get_url_info] to its result. *)
Lemma get_url_info_stages url_ protocol_ www_ domain_ path_ fragment_ :
  get_url_info url_ = Some (protocol_, www_, domain_, path_, fragment_) ->
  exists rest0 netloc rest1 rest2 path0 query,
    split_scheme (remove_unsafe (Str.lstrip c0_control_or_space url_)) =
      (protocol_, rest0) /\
    split_netloc rest0 = Some (netloc, rest1) /\
    split_fragment rest1 = (rest2, fragment_) /\
    split_query rest2 = (path0, query) /\
    _checknetloc netloc = true /\
    www_ = Str.startswith netloc "www." /\
    domain_ = (if www_ then Str.drop 4 netloc else netloc) /\
    path_ =
      (let path' :=
         if existsb (String.eqb protocol_) uses_params && Str.mem ";" path0
         then fst (_splitparams path0) else path0 in
       if String.eqb query "" then path' else path' +:+ "?" +:+ query).
Proof.
  intros Hinfo.
  destruct (get_url_info_parsed _ _ _ _ _ _ Hinfo)
    as (r & Hparse & Hp & Hw & Hd & Hpath & Hf).
  clear Hinfo. unfold urlparse in Hparse.
  destruct (urlsplit url_) as [r0|] eqn:Hsplit; [|discriminate].
  unfold urlsplit in Hsplit.
  destruct (split_scheme _) as [scheme rest0] eqn:Hscheme.
  destruct (split_netloc rest0) as [[netloc rest1]|] eqn:Hnetloc; [|discriminate].
  destruct (split_fragment rest1) as [rest2 fragment0] eqn:Hfragment.
  destruct (split_query rest2) as [path0 query] eqn:Hquery.
  destruct (_checknetloc netloc) eqn:Hcheck; [|discriminate].
  injection Hsplit as <-. cbn [pr_scheme pr_path pr_netloc pr_query pr_fragment] in Hparse.
  exists rest0, netloc, rest1, rest2, path0, query.
  assert (Hr : r = {| pr_scheme := scheme; pr_netloc := netloc;
                      pr_path :=
                        if existsb (String.eqb scheme) uses_params && Str.mem ";" path0
                        then fst (_splitparams path0) else path0;
                      pr_params :=
                        if existsb (String.eqb scheme) uses_params && Str.mem ";" path0
                        then snd (_splitparams path0) else "";
                      pr_query := query; pr_fragment := fragment0 |}).
  { destruct (existsb (String.eqb scheme) uses_params && Str.mem ";" path0);
      [destruct (_splitparams path0)|]; now injection Hparse as <-. }
  subst r. cbn [pr_scheme pr_path pr_netloc pr_query pr_fragment] in *.
  subst protocol_ fragment_. subst domain_. subst path_.
  repeat split; assumption.
Qed.

End ParseStages.

(** [s] is empty or starts with a delimiter. *)
Definition delim_headed (s : string) : Prop :=
  match s with EmptyString => True | String c _ => is_delim c = true end.

Lemma delim_headed_take n s : delim_headed s -> delim_headed (Str.take n s).
Proof. destruct n, s; try exact (fun _ => I). exact (fun Hs => Hs). Qed.

Lemma delim_headed_app a b :
  delim_headed a -> delim_headed b -> delim_headed (a +:+ b).
Proof. destruct a; [intros _ Hb; exact Hb|intros Ha _; exact Ha]. Qed.

Lemma take_length s : Str.take (String.length s) s = s.
Proof. induction s as [|c s IH]; [reflexivity|]. cbn. now rewrite IH. Qed.

Lemma split_fragment_facts rest1 rest2 fragment_ :
  split_fragment rest1 = (rest2, fragment_) ->
  lacks "#" rest2 = true /\
  (exists n, rest2 = Str.take n rest1) /\
  (forall p, Str.all p rest1 = true -> Str.all p rest2 = true).
Proof.
  unfold split_fragment, split_once. rewrite mem_lacks.
  destruct (lacks "#" rest1) eqn:El.
  - intros [= <- <-]. split; [assumption|]. split; [|auto].
    exists (String.length rest1). now rewrite take_length.
  - destruct (Str.find "#" rest1) as [i|] eqn:Hfind.
    + intros [= <- <-]. apply find_Some in Hfind as [Hl _].
      split; [assumption|]. split; [now exists i|]. intros p. apply all_take.
    + apply find_None in Hfind. congruence.
Qed.

Lemma split_query_facts rest2 path0 query :
  split_query rest2 = (path0, query) ->
  (exists n, path0 = Str.take n rest2) /\
  (forall p, Str.all p rest2 = true ->
             Str.all p path0 = true /\ Str.all p query = true) /\
  (path0 = "" -> query = "" \/ delim_headed ("?" +:+ query)).
Proof.
  unfold split_query, split_once. rewrite mem_lacks.
  destruct (lacks "?" rest2) eqn:El.
  - intros [= <- <-]. split; [|split; [auto|now left]].
    exists (String.length rest2). now rewrite take_length.
  - destruct (Str.find "?" rest2) as [i|] eqn:Hfind.
    + intros [= <- <-]. split; [now exists i|]. split; [|intros _; now right].
      intros p Hp. split; [now apply all_take|exact (all_drop p (S i) rest2 Hp)].
    + apply find_None in Hfind. congruence.
Qed.

Lemma _splitparams_take path0 : exists n, fst (_splitparams path0) = Str.take n path0.
Proof.
  assert (Hfull : path0 = Str.take (String.length path0) path0)
    by now rewrite take_length.
  unfold _splitparams, Str.find_from.
  destruct (Str.mem "/" path0).
  - destruct (Str.rfind "/" path0) as [r|]; [|now exists (String.length path0)].
    destruct (Str.find ";" (Str.drop r path0)) as [i|];
      [now eexists|now exists (String.length path0)].
  - destruct (Str.find ";" path0) as [i|];
      [now eexists|now exists (String.length path0)].
Qed.

Lemma delim_headed_replace_slashes s :
  delim_headed s -> delim_headed (replace_slashes s).
Proof.
  destruct s as [|c [|d s]]; [exact (fun Hs => Hs)|now rewrite replace_slashes_single|].
  destruct (Ascii.eqb_spec c "/"%char) as [->|Hc];
    [destruct (Ascii.eqb_spec d "/"%char) as [->|Hd]|].
  - now rewrite replace_slashes_pair.
  - now rewrite replace_slashes_other by tauto.
  - now rewrite replace_slashes_other by tauto.
Qed.

Lemma delim_headed_while_loop previous_url formatted_url :
  delim_headed formatted_url -> delim_headed (while_loop previous_url formatted_url).
Proof.
  funelim (while_loop previous_url formatted_url); intros Hs; [assumption|].
  match goal with
  | IH : delim_headed _ -> delim_headed _ |- _ => apply IH
  end.
  now apply delim_headed_replace_slashes.
Qed.

Lemma delim_headed_drop_last s : delim_headed s -> delim_headed (Str.drop_last s).
Proof. destruct s as [|c [|d s]]; [exact (fun Hs => Hs)|exact (fun _ => I)|exact (fun Hs => Hs)]. Qed.

Lemma delim_headed_refactor t : delim_headed t -> delim_headed (refactor t).
Proof.
  intros Ht. unfold refactor.
  set (r1 := if Str.contains "//" t then remove_consecutive_slashes t else t).
  assert (H1 : delim_headed r1).
  { subst r1. destruct (Str.contains "//" t); [|assumption].
    apply delim_headed_while_loop. now apply delim_headed_replace_slashes. }
  set (r2 := if String.eqb r1 "/" then "" else r1).
  assert (H2 : delim_headed r2) by (subst r2; now destruct (String.eqb r1 "/")).
  destruct (Str.endswith r2 "/"); [now apply delim_headed_drop_last|assumption].
Qed.

(** Splitting a path with its query at the first question mark and joining
    the two again, as [get_url_info] does. *)
Lemma split_query_rejoin P :
  Str.endswith P "?" = false ->
  (if String.eqb (snd (split_query P)) "" then fst (split_query P)
   else fst (split_query P) +:+ "?" +:+ snd (split_query P)) = P /\
  exists n, fst (split_query P) = Str.take n P.
Proof.
  intros Hend. unfold split_query, split_once. rewrite mem_lacks.
  destruct (lacks "?" P) eqn:El; cbn [negb fst snd].
  - split; [reflexivity|]. exists (String.length P). now rewrite take_length.
  - destruct (Str.find "?" P) as [i|] eqn:Hfind;
      [|apply find_None in Hfind; congruence].
    cbn [fst snd]. split; [|now exists i].
    apply find_Some in Hfind as [_ Hs].
    destruct (String.eqb_spec (Str.drop (S i) P) "") as [Hempty|_].
    + rewrite Hempty in Hs. rewrite Hs, endswith_char, last_char_app_char in Hend.
      discriminate.
    + symmetry. exact Hs.
Qed.

Section Canonical.
Context `{Library}.

(** Parsing a basic url gives back its parts. *)
Lemma get_url_info_canonical scheme D P :
  Str.startswith scheme "http" = true ->
  Str.all scheme_char scheme = true ->
  Str.lower scheme = scheme ->
  Str.all safe scheme = true -> Str.all safe D = true -> Str.all safe P = true ->
  Str.all (fun c => negb (is_delim c)) D = true ->
  brackets_accepted D ->
  _checknetloc D = true ->
  Str.startswith D "www." = false ->
  delim_headed P ->
  lacks "#" P = true ->
  lacks ";" P = true ->
  Str.endswith P "?" = false ->
  get_url_info (scheme +:+ "://" +:+ D +:+ P) = Some (scheme, false, D, P, "").
Proof.
  intros Hhttp Hchars Hlower Hs1 Hs2 Hs3 HD Hbr Hcheck Hwww HP Hhash Hsemi Hend.
  destruct scheme as [|c0 x]; [discriminate|].
  assert (Hc0 : c0 = "h"%char).
  { cbn [Str.startswith] in Hhttp. apply andb_true_iff in Hhttp as [Hc _].
    now apply Ascii.eqb_eq in Hc. }
  unfold get_url_info, urlparse, urlsplit.
  assert (Hstrip : Str.lstrip c0_control_or_space (String c0 x +:+ "://" +:+ D +:+ P) =
                   String c0 x +:+ "://" +:+ D +:+ P)
    by (rewrite append_cons, Hc0; reflexivity).
  rewrite Hstrip, remove_unsafe_id
    by (rewrite !all_app, Hs1, Hs2, Hs3; reflexivity).
  change (String c0 x +:+ "://" +:+ D +:+ P)
    with (String c0 x +:+ String ":" ("//" +:+ D +:+ P)).
  rewrite split_scheme_app; [|subst c0; reflexivity|assumption].
  rewrite Hlower, (split_netloc_app D P HD HP Hbr).
  unfold split_fragment. rewrite mem_lacks, Hhash. cbn [negb].
  destruct (split_query_rejoin P Hend) as [Hjoin [n Hn]].
  destruct (split_query P) as [path' query'] eqn:Hq. cbn [fst snd] in Hjoin, Hn.
  rewrite Hcheck. cbn [pr_scheme pr_path pr_netloc pr_query pr_fragment].
  assert (Hnosemi : Str.mem ";" path' = false).
  { rewrite mem_lacks, Hn. unfold lacks. rewrite all_take; [reflexivity|exact Hsemi]. }
  rewrite Hnosemi, andb_false_r.
  cbn [pr_scheme pr_path pr_netloc pr_query pr_fragment].
  rewrite Hwww, Hjoin. reflexivity.
Qed.

End Canonical.

Section Reparse.
Context `{Library}.

(** The fields of a [Url] constructed with no parent from a text with a
    netloc, and its basic url. *)
Lemma Url_init_root_absolute url_ upp protocol_ www_ domain_ path_ fragment_ :
  get_url_info url_ = Some (protocol_, www_, domain_, path_, fragment_) ->
  domain_ <> "" ->
  exists u,
    Url_init url_ None upp = Some u /\
    protocol u = protocol_ /\ www u = www_ /\ domain u = domain_ /\
    path u = (if String.eqb path_ "" then path_ else refactor path_) /\
    get_basic_url u =
      (if Str.startswith protocol_ "http"
       then protocol_ +:+ "://" +:+ domain_ +:+ path u else url_).
Proof.
  intros Hinfo Hne.
  destruct (Url_init url_ None upp) as [u|] eqn:Hu;
    [|unfold Url_init in Hu; rewrite Hinfo in Hu; discriminate].
  exists u. split; [reflexivity|].
  destruct (Url_init_root_fields _ _ _ Hu)
    as (p' & w' & d' & pa' & f' & Hinfo' & Hraw & Hp & Hw & Hd & Hpp & Hpd & Hupp).
  rewrite Hinfo in Hinfo'. injection Hinfo' as <- <- <- <- <-.
  assert (Hpath : path u = if String.eqb path_ "" then path_ else refactor path_).
  { unfold Url_init in Hu. rewrite Hinfo in Hu. injection Hu as <-.
    match goal with
    | |- path (_refactor_root_attributes ?y) = _ =>
        destruct (_refactor_root_attributes_fields y) as (_ & _ & _ & _ & -> & _)
    end.
    rewrite _refactor_attributes_path. cbv zeta. url_simpl.
    destruct (String.eqb_spec domain_ ""); [contradiction|]. reflexivity. }
  repeat split; try assumption.
  assert (Hproto : _get_protocol u = protocol_).
  { unfold _get_protocol. rewrite Hpp, Hp.
    match goal with |- (if ?c then _ else _) = _ => now destruct c end. }
  unfold get_basic_url. rewrite Hproto, Hd, Hraw. reflexivity.
Qed.

(** What the parts of such a [Url] inherit from the text they were cut
    from. *)
Lemma get_url_info_absolute_facts url_ protocol_ www_ domain_ path_ fragment_ :
  get_url_info url_ = Some (protocol_, www_, domain_, path_, fragment_) ->
  domain_ <> "" ->
  protocol_ <> "" ->
  exists netloc,
    www_ = Str.startswith netloc "www." /\
    domain_ = (if www_ then Str.drop 4 netloc else netloc) /\
    brackets_accepted netloc /\ _checknetloc netloc = true /\
    Str.all scheme_char protocol_ = true /\
    Str.lower protocol_ = protocol_ /\
    Str.all safe protocol_ = true /\ Str.all safe domain_ = true /\
    Str.all safe path_ = true /\
    Str.all (fun c => negb (is_delim c)) domain_ = true /\
    delim_headed path_ /\
    lacks "#" path_ = true.
Proof.
  intros Hinfo Hd Hp.
  destruct (get_url_info_stages _ _ _ _ _ _ Hinfo)
    as (rest0 & netloc & rest1 & rest2 & path0 & query &
        Hscheme & Hnetloc & Hfragment & Hquery & Hcheck & Hwww & Hdomain & Hpath).
  exists netloc.
  assert (Hnl : netloc <> "").
  { intros ->. subst www_. cbn in Hdomain. contradiction. }
  pose proof (remove_unsafe_safe (Str.lstrip c0_control_or_space url_)) as Hsafe.
  destruct (split_scheme_spec _ _ _ Hscheme) as [[-> _]|(x & Hx & -> & Hchars & Hurl)];
    [contradiction|].
  destruct (scheme_lower x Hchars) as (Hs1 & Hs2 & _ & _ & Hs5).
  rewrite Hurl in Hsafe. rewrite all_app in Hsafe.
  apply andb_true_iff in Hsafe as [_ Hsafe0]. cbn [Str.all] in Hsafe0.
  apply andb_true_iff in Hsafe0 as [_ Hsafe0].
  destruct (split_netloc_facts _ _ _ Hnetloc Hnl) as (Hrest0 & Hnodelim & Hhead1 & Hbr).
  rewrite Hrest0, !all_app in Hsafe0.
  apply andb_true_iff in Hsafe0 as [_ Hsafe0].
  apply andb_true_iff in Hsafe0 as [Hsafe_netloc Hsafe1].
  destruct (split_fragment_facts _ _ _ Hfragment) as (Hhash2 & [n2 Hn2] & Hall2).
  destruct (split_query_facts _ _ _ Hquery) as ([n0 Hn0] & Hall0 & _).
  destruct (_splitparams_take path0) as [np Hnp].
  set (path' := if existsb (String.eqb (Str.lower x)) uses_params && Str.mem ";" path0
                then fst (_splitparams path0) else path0) in *.
  assert (Hpath' : exists m, path' = Str.take m path0).
  { subst path'. destruct (_ && _); [now exists np|].
    exists (String.length path0). now rewrite take_length. }
  destruct Hpath' as [m Hm].
  assert (Hgen : forall p, Str.all p rest1 = true -> p "?"%char = true ->
                           Str.all p path_ = true).
  { intros p Hp1 Hq. destruct (Hall0 p (Hall2 p Hp1)) as [Hp0 Hpq].
    assert (Hp' : Str.all p path' = true) by (rewrite Hm; now apply all_take).
    rewrite Hpath. cbv zeta. destruct (String.eqb query ""); [assumption|].
    rewrite !all_app, Hp', Hpq. cbn. now rewrite Hq. }
  repeat split; try assumption.
  - rewrite Hdomain. destruct www_; [now apply all_drop|assumption].
  - now apply Hgen.
  - rewrite Hdomain. destruct www_; [now apply all_drop|assumption].
  - rewrite Hpath. cbv zeta.
    assert (Hh' : delim_headed path').
    { rewrite Hm, Hn0, Hn2. now repeat apply delim_headed_take. }
    destruct (String.eqb query ""); [assumption|].
    apply delim_headed_app; [assumption|reflexivity].
  - rewrite Hpath. cbv zeta.
    destruct (Hall0 _ Hhash2) as [Hp0 Hpq].
    assert (Hp' : lacks "#" path' = true) by (rewrite Hm; now apply all_take).
    destruct (String.eqb query ""); [assumption|].
    unfold lacks in *. rewrite !all_app, Hp', Hpq. reflexivity.
Qed.

End Reparse.

(* ===================================================================== *)
(** ** Characters that the stages of [urlsplit] keep                     *)
(* ===================================================================== *)

Lemma all_lstrip p q s : Str.all q s = true -> Str.all q (Str.lstrip p s) = true.
Proof.
  induction s as [|c s IH]; [reflexivity|]. intros Hs. cbn [Str.lstrip].
  destruct (p c); [|exact Hs].
  cbn in Hs. apply andb_true_iff in Hs as [_ Hs]. now apply IH.
Qed.

Section KeptCharacters.
Context `{Library}.

Lemma all_remove_unsafe q s :
  Str.all q s = true -> Str.all q (remove_unsafe s) = true.
Proof.
  induction s as [|c s IH]; [reflexivity|]. intros Hs.
  cbn in Hs. apply andb_true_iff in Hs as [Hc Hs]. rewrite remove_unsafe_cons.
  destruct (Ascii.eqb "009" c || Ascii.eqb "013" c || Ascii.eqb "010" c);
    [now apply IH|]. cbn [Str.all]. now rewrite Hc, IH.
Qed.

Lemma all_split_scheme q url_ :
  Str.all q url_ = true -> Str.all q (snd (split_scheme url_)) = true.
Proof.
  intros Hs. unfold split_scheme.
  destruct (Str.find ":" url_) as [[|i]|]; try exact Hs.
  destruct url_ as [|c0 s]; [exact Hs|].
  destruct (Str.is_ascii_alpha c0 && _); [|exact Hs].
  cbn [snd]. now apply all_drop.
Qed.

Lemma all_split_netloc q url_ netloc rest :
  split_netloc url_ = Some (netloc, rest) ->
  Str.all q url_ = true -> Str.all q rest = true.
Proof.
  unfold split_netloc.
  destruct (String.eqb (Str.take 2 url_) "//"); [|now intros [= _ <-]].
  unfold _splitnetloc.
  match goal with
  | |- context [Str.drop ?n url_] => generalize n
  end.
  intros n Hsplit Hall.
  assert (Hrest : rest = Str.drop n url_).
  { destruct (_ || _); [discriminate|].
    destruct (_ && _); [destruct (check_bracketed_netloc _); [|discriminate]|];
      now injection Hsplit as _ <-. }
  rewrite Hrest. now apply all_drop.
Qed.

End KeptCharacters.

(* ===================================================================== *)
(** ** Parsing a basic url again                                         *)
(* ===================================================================== *)

(** Three texts whose basic url is no text for the same basic url: the
    basic url of "http://www.www.mysite.com" still starts its host with
    "www.", which the second construction removes; the one of
    "http://mysite.com/a?/" ends with the "?" of a query that the removal
    of the last slash left empty, and [get_url_info] drops it; the one of
    "http://mysite.com/a;b/" has lost the slash that kept ";b" out of the
    last segment, and [urlparse] now takes ";b" for parameters. *)
Lemma basic_url_reparse_differs :
  (exists u u',
     Url_init (H := strict_library) "http://www.www.mysite.com" None true = Some u /\
     Url_init (H := strict_library) (get_basic_url u) None true = Some u' /\
     get_basic_url u = "http://www.mysite.com" /\
     get_basic_url u' = "http://mysite.com" /\
     get_basic_url u' <> get_basic_url u) /\
  (exists u u',
     Url_init (H := strict_library) "http://mysite.com/a?/" None true = Some u /\
     Url_init (H := strict_library) (get_basic_url u) None true = Some u' /\
     get_basic_url u = "http://mysite.com/a?" /\
     get_basic_url u' = "http://mysite.com/a" /\
     get_basic_url u' <> get_basic_url u) /\
  (exists u u',
     Url_init (H := strict_library) "http://mysite.com/a;b/" None true = Some u /\
     Url_init (H := strict_library) (get_basic_url u) None true = Some u' /\
     get_basic_url u = "http://mysite.com/a;b" /\
     get_basic_url u' = "http://mysite.com/a" /\
     get_basic_url u' <> get_basic_url u).
Proof.
  repeat split;
    (do 2 eexists; split; [vm_compute; reflexivity|];
     split; [vm_compute; reflexivity|];
     split; [vm_compute; reflexivity|];
     split; [vm_compute; reflexivity|];
     vm_compute; discriminate).
Qed.

(** The path with its query that [get_url_info] makes of a text is the
    text again: the first "?" of [P], if there is one, is not its last
    character. *)
Definition query_kept (P : string) : bool :=
  negb (Str.mem "?" P) || negb (String.eqb (snd (split_query P)) "").

(** [urlparse] splits no parameters off the path [P] under [scheme]: the
    scheme is none of [uses_params], or the last segment of [P] before its
    query holds no ";". *)
Definition params_kept (scheme P : string) : bool :=
  negb (existsb (String.eqb scheme) uses_params) ||
  String.eqb (fst (_splitparams (fst (split_query P)))) (fst (split_query P)).

(** A text that is empty or starts with a slash. *)
Definition slash_headed (s : string) : Prop :=
  match s with EmptyString => True | String c _ => c = "/"%char end.

Lemma slash_headed_delim s : slash_headed s -> delim_headed s.
Proof. destruct s as [|c s]; [exact (fun _ => I)|]. now intros ->. Qed.

Lemma slash_headed_replace_slashes s :
  slash_headed s -> slash_headed (replace_slashes s).
Proof.
  destruct s as [|c [|d s]]; [exact (fun Hs => Hs)|now rewrite replace_slashes_single|].
  destruct (Ascii.eqb_spec c "/"%char) as [->|Hc];
    [destruct (Ascii.eqb_spec d "/"%char) as [->|Hd]|].
  - now rewrite replace_slashes_pair.
  - now rewrite replace_slashes_other by tauto.
  - now rewrite replace_slashes_other by tauto.
Qed.

Lemma slash_headed_while_loop previous_url formatted_url :
  slash_headed formatted_url -> slash_headed (while_loop previous_url formatted_url).
Proof.
  funelim (while_loop previous_url formatted_url); intros Hs; [assumption|].
  match goal with
  | IH : slash_headed _ -> slash_headed _ |- _ => apply IH
  end.
  now apply slash_headed_replace_slashes.
Qed.

Lemma slash_headed_drop_last s : slash_headed s -> slash_headed (Str.drop_last s).
Proof.
  destruct s as [|c [|d s]]; [exact (fun Hs => Hs)|exact (fun _ => I)|exact (fun Hs => Hs)].
Qed.

Lemma slash_headed_refactor t : slash_headed t -> slash_headed (refactor t).
Proof.
  intros Ht. unfold refactor.
  set (r1 := if Str.contains "//" t then remove_consecutive_slashes t else t).
  assert (H1 : slash_headed r1).
  { subst r1. destruct (Str.contains "//" t); [|assumption].
    apply slash_headed_while_loop. now apply slash_headed_replace_slashes. }
  set (r2 := if String.eqb r1 "/" then "" else r1).
  assert (H2 : slash_headed r2) by (subst r2; now destruct (String.eqb r1 "/")).
  destruct (Str.endswith r2 "/"); [now apply slash_headed_drop_last|assumption].
Qed.

(** The path that a [Url] without parent and without domain gets from the
    path of its text. *)
Lemma joined_path_root raw path_ :
  joined_path "" raw path_ =
  (if Str.startswith path_ "./" then Str.drop 1 path_
   else if negb (String.eqb path_ "") && negb (Str.startswith path_ "/")
        then "/" +:+ path_ else path_).
Proof.
  unfold joined_path. cbn [String.eqb negb andb].
  destruct (Str.startswith path_ "./"); [reflexivity|].
  now destruct (negb (String.eqb path_ "") && negb (Str.startswith path_ "/")).
Qed.

Lemma joined_path_root_facts raw path_ (p : ascii -> bool) :
  slash_headed (joined_path "" raw path_) /\
  (p "/"%char = true -> Str.all p path_ = true ->
   Str.all p (joined_path "" raw path_) = true).
Proof.
  rewrite joined_path_root.
  destruct (Str.startswith path_ "./") eqn:Hdot.
  - destruct path_ as [|c [|d s]]; try discriminate.
    + cbn [Str.startswith] in Hdot. now rewrite andb_false_r in Hdot.
    + cbn [Str.startswith] in Hdot.
      apply andb_true_iff in Hdot as [_ Hdot]. apply andb_true_iff in Hdot as [Hd _].
      apply Ascii.eqb_eq in Hd. subst d. cbn [Str.drop].
      split; [reflexivity|]. intros _ Hs. cbn [Str.all] in Hs.
      now apply andb_true_iff in Hs as [_ Hs].
  - destruct (String.eqb_spec path_ "") as [->|Hne]; cbn [negb andb];
      [split; [exact I|trivial]|].
    destruct (Str.startswith path_ "/") eqn:Hsl; cbn [negb].
    + split; [|trivial]. destruct path_ as [|c s]; [exact I|].
      cbn [Str.startswith] in Hsl.
      apply andb_true_iff in Hsl as [Hc _]. apply Ascii.eqb_eq in Hc. now subst c.
    + split; [reflexivity|]. intros Hp Hs. rewrite append_cons, append_nil_l.
      cbn [Str.all]. now rewrite Hp.
Qed.

Section ReparseBasic.
Context `{Library}.

(** The fields of a [Url] constructed with no parent, and its basic url. *)
Lemma Url_init_root url_ upp protocol_ www_ domain_ path_ fragment_ :
  get_url_info url_ = Some (protocol_, www_, domain_, path_, fragment_) ->
  exists u,
    Url_init url_ None upp = Some u /\
    protocol u = protocol_ /\ www u = www_ /\ domain u = domain_ /\
    path u =
      (let p1 := if String.eqb domain_ "" then joined_path "" url_ path_ else path_ in
       if String.eqb p1 "" then p1 else refactor p1) /\
    get_basic_url u =
      (if Str.startswith protocol_ "http"
       then protocol_ +:+ "://" +:+ domain_ +:+ path u else url_).
Proof.
  intros Hinfo.
  destruct (Url_init url_ None upp) as [u|] eqn:Hu;
    [|unfold Url_init in Hu; rewrite Hinfo in Hu; discriminate].
  exists u. split; [reflexivity|].
  destruct (Url_init_root_fields _ _ _ Hu)
    as (p' & w' & d' & pa' & f' & Hinfo' & Hraw & Hp & Hw & Hd & Hpp & Hpd & Hupp).
  rewrite Hinfo in Hinfo'. injection Hinfo' as <- <- <- <- <-.
  assert (Hpath : path u =
            (let p1 := if String.eqb domain_ "" then joined_path "" url_ path_
                       else path_ in
             if String.eqb p1 "" then p1 else refactor p1)).
  { unfold Url_init in Hu. rewrite Hinfo in Hu. injection Hu as <-.
    match goal with
    | |- path (_refactor_root_attributes ?y) = _ =>
        destruct (_refactor_root_attributes_fields y) as (_ & _ & _ & _ & -> & _)
    end.
    rewrite _refactor_attributes_path. cbv zeta. url_simpl.
    now rewrite orb_diag. }
  repeat split; try assumption.
  assert (Hproto : _get_protocol u = protocol_).
  { unfold _get_protocol. rewrite Hpp, Hp.
    match goal with |- (if ?c then _ else _) = _ => now destruct c end. }
  unfold get_basic_url. rewrite Hproto, Hd, Hraw. reflexivity.
Qed.

(** What the scheme and the path that [get_url_info] returns inherit from
    the text they were cut from. *)
Lemma get_url_info_scheme_path url_ protocol_ www_ domain_ path_ fragment_ :
  get_url_info url_ = Some (protocol_, www_, domain_, path_, fragment_) ->
  protocol_ <> "" ->
  Str.all scheme_char protocol_ = true /\
  Str.lower protocol_ = protocol_ /\
  Str.all safe protocol_ = true /\
  Str.all safe path_ = true /\
  lacks "#" path_ = true.
Proof.
  intros Hinfo Hp.
  destruct (get_url_info_stages _ _ _ _ _ _ Hinfo)
    as (rest0 & netloc & rest1 & rest2 & path0 & query &
        Hscheme & Hnetloc & Hfragment & Hquery & _ & _ & _ & Hpath).
  pose proof (all_split_scheme safe _
                (remove_unsafe_safe (Str.lstrip c0_control_or_space url_))) as H0.
  rewrite Hscheme in H0. cbn [snd] in H0.
  pose proof (all_split_netloc safe _ _ _ Hnetloc H0) as H1.
  destruct (split_scheme_spec _ _ _ Hscheme) as [[-> _]|(x & Hx & -> & Hchars & Hurl)];
    [contradiction|].
  destruct (scheme_lower x Hchars) as (Hs1 & Hs2 & _ & _ & Hs5).
  destruct (split_fragment_facts _ _ _ Hfragment) as (Hhash2 & _ & Hall2).
  destruct (split_query_facts _ _ _ Hquery) as (_ & Hall0 & _).
  destruct (_splitparams_take path0) as [np Hnp].
  set (path' := if existsb (String.eqb (Str.lower x)) uses_params && Str.mem ";" path0
                then fst (_splitparams path0) else path0) in *.
  assert (Hpath' : exists m, path' = Str.take m path0).
  { subst path'. destruct (_ && _); [now exists np|].
    exists (String.length path0). now rewrite take_length. }
  destruct Hpath' as [m Hm].
  assert (Hgen : forall p, Str.all p rest2 = true -> p "?"%char = true ->
                           Str.all p path_ = true).
  { intros p Hp2 Hq. destruct (Hall0 p Hp2) as [Hp0 Hpq].
    assert (Hp' : Str.all p path' = true) by (rewrite Hm; now apply all_take).
    rewrite Hpath. cbv zeta. destruct (String.eqb query ""); [assumption|].
    rewrite !all_app, Hp', Hpq. cbn. now rewrite Hq. }
  repeat split; try assumption.
  - apply Hgen; [now apply Hall2|reflexivity].
  - now apply Hgen.
Qed.

(** Parsing a basic url whose path keeps its query and its parameters
    gives back its parts. *)
Lemma get_url_info_basic scheme D P :
  Str.startswith scheme "http" = true ->
  Str.all scheme_char scheme = true ->
  Str.lower scheme = scheme ->
  Str.all safe scheme = true -> Str.all safe D = true -> Str.all safe P = true ->
  Str.all (fun c => negb (is_delim c)) D = true ->
  brackets_accepted D ->
  _checknetloc D = true ->
  Str.startswith D "www." = false ->
  delim_headed P ->
  lacks "#" P = true ->
  query_kept P = true ->
  params_kept scheme P = true ->
  get_url_info (scheme +:+ "://" +:+ D +:+ P) = Some (scheme, false, D, P, "").
Proof.
  intros Hhttp Hchars Hlower Hs1 Hs2 Hs3 HD Hbr Hcheck Hwww HP Hhash Hquery Hparams.
  destruct scheme as [|c0 x]; [discriminate|].
  assert (Hc0 : c0 = "h"%char).
  { cbn [Str.startswith] in Hhttp. apply andb_true_iff in Hhttp as [Hc _].
    now apply Ascii.eqb_eq in Hc. }
  unfold get_url_info, urlparse, urlsplit.
  assert (Hstrip : Str.lstrip c0_control_or_space (String c0 x +:+ "://" +:+ D +:+ P) =
                   String c0 x +:+ "://" +:+ D +:+ P)
    by (rewrite append_cons, Hc0; reflexivity).
  rewrite Hstrip, remove_unsafe_id
    by (rewrite !all_app, Hs1, Hs2, Hs3; reflexivity).
  change (String c0 x +:+ "://" +:+ D +:+ P)
    with (String c0 x +:+ String ":" ("//" +:+ D +:+ P)).
  rewrite split_scheme_app; [|subst c0; reflexivity|assumption].
  rewrite Hlower, (split_netloc_app D P HD HP Hbr).
  unfold split_fragment. rewrite mem_lacks, Hhash. cbn [negb].
  unfold query_kept, params_kept in Hquery, Hparams.
  assert (Hjoin : (if String.eqb (snd (split_query P)) "" then fst (split_query P)
                   else fst (split_query P) +:+ "?" +:+ snd (split_query P)) = P).
  { revert Hquery. unfold split_query, split_once. rewrite mem_lacks.
    destruct (lacks "?" P) eqn:El; cbn [negb fst snd orb]; [reflexivity|].
    destruct (Str.find "?" P) as [i|] eqn:Hfind;
      [|apply find_None in Hfind; congruence].
    cbn [fst snd]. intros Hq. apply negb_true_iff in Hq. rewrite Hq.
    apply find_Some in Hfind as [_ Hs]. now symmetry. }
  destruct (split_query P) as [path' query'] eqn:Hq. cbn [fst snd] in Hjoin, Hparams.
  rewrite Hcheck. cbn [pr_scheme pr_path pr_netloc pr_query pr_fragment].
  assert (Hkept :
    fst (if existsb (String.eqb (String c0 x)) uses_params && Str.mem ";" path'
         then _splitparams path' else (path', "")) = path').
  { destruct (existsb (String.eqb (String c0 x)) uses_params); [|reflexivity].
    cbn [negb orb andb] in Hparams |- *. apply String.eqb_eq in Hparams.
    now destruct (Str.mem ";" path'). }
  destruct (if existsb (String.eqb (String c0 x)) uses_params && Str.mem ";" path'
            then _splitparams path' else (path', "")) as [path'' params].
  cbn [fst] in Hkept. subst path''.
  cbn [pr_scheme pr_path pr_netloc pr_query pr_fragment].
  rewrite Hwww, Hjoin. reflexivity.
Qed.

Lemma reparse_verbatim url_ upp u :
  Url_init url_ None upp = Some u ->
  Str.startswith (protocol u) "http" = false ->
  get_basic_url u = url_.
Proof.
  intros Hu Hhttp.
  destruct (Url_init_root_fields _ _ _ Hu)
    as (proto & w & d & p & f & _ & Hraw & Hp & _ & _ & Hpp & _).
  assert (Hproto : _get_protocol u = proto).
  { unfold _get_protocol. rewrite Hpp, Hp.
    match goal with |- (if ?c then _ else _) = _ => now destruct c end. }
  unfold get_basic_url. rewrite Hproto, <- Hp, Hhttp. exact Hraw.
Qed.

Lemma reparse_basic url_ upp u :
  Url_init url_ None upp = Some u ->
  Str.startswith (protocol u) "http" = true ->
  Str.startswith (domain u) "www." = false ->
  (www u = true -> brackets_accepted (domain u) /\ _checknetloc (domain u) = true) ->
  query_kept (path u) = true ->
  params_kept (protocol u) (path u) = true ->
  exists u',
    Url_init (get_basic_url u) None upp = Some u' /\
    protocol u' = protocol u /\ domain u' = domain u /\ path u' = path u /\
    get_basic_url u' = get_basic_url u.
Proof.
  intros Hu Hhttp Hwww Hhost Hquery Hparams.
  pose proof (Url_init_path_normal _ _ _ _ Hu) as Hnormal.
  destruct (Url_init_root_fields _ _ _ Hu)
    as (proto & w & d & p & f & Hinfo & _ & Hp & Hw & Hd & _).
  destruct (Url_init_root url_ upp _ _ _ _ _ Hinfo)
    as (u0 & Hu0 & _ & _ & _ & Hpath & Hbasic).
  rewrite Hu in Hu0. injection Hu0 as <-.
  rewrite Hp in Hhttp, Hparams. rewrite Hd in Hwww, Hhost. rewrite Hw in Hhost.
  rewrite Hhttp in Hbasic.
  assert (Hproto : proto <> "") by (intros ->; discriminate).
  destruct (get_url_info_scheme_path _ _ _ _ _ _ Hinfo Hproto)
    as (Hchars & Hlower & Hs1 & Hs3 & Hhash).
  set (P := path u) in *.
  (* the domain and the head of the path *)
  assert (HD : Str.all safe d = true /\
               Str.all (fun c => negb (is_delim c)) d = true /\
               brackets_accepted d /\ _checknetloc d = true /\
               Str.all safe P = true /\ lacks "#" P = true /\
               delim_headed P /\ (d = "" -> slash_headed P)).
  { destruct (String.eqb_spec d "") as [->|Hdne].
    - cbv zeta in Hpath.
      destruct (joined_path_root_facts url_ p safe) as [Hhead Hsafe].
      destruct (joined_path_root_facts url_ p (fun c => negb (Ascii.eqb "#" c)))
        as [_ Hlacks].
      specialize (Hsafe eq_refl Hs3). specialize (Hlacks eq_refl Hhash).
      assert (HP : Str.all safe P = true /\ lacks "#" P = true /\ slash_headed P).
      { rewrite Hpath. destruct (String.eqb (joined_path "" url_ p) "");
          [now repeat split|].
        repeat split;
          [now apply all_refactor|now apply all_refactor|now apply slash_headed_refactor]. }
      destruct HP as (HP1 & HP2 & HP3).
      repeat split; trivial; [now left|now apply slash_headed_delim].
    - destruct (get_url_info_absolute_facts _ _ _ _ _ _ Hinfo Hdne Hproto)
        as (netloc & Hwn & Hdn & Hbr & Hcheck & _ & _ & _ & Hs2 & _ & Hnodelim & Hhead & _).
      cbv zeta in Hpath.
      assert (HP : Str.all safe P = true /\ lacks "#" P = true /\ delim_headed P).
      { rewrite Hpath. destruct (String.eqb p ""); [now repeat split|].
        repeat split;
          [now apply all_refactor|now apply all_refactor|now apply delim_headed_refactor]. }
      destruct HP as (HP1 & HP2 & HP3).
      assert (Hbr' : brackets_accepted d /\ _checknetloc d = true).
      { destruct w; [now apply Hhost|]. rewrite Hdn. now split. }
      destruct Hbr' as [Hbr' Hcheck'].
      repeat split; trivial. intros ->. now destruct Hdne. }
  destruct HD as (Hs2 & Hnodelim & Hbr & Hcheck & HP1 & HP2 & HP3 & HP4).
  assert (Hinfo' : get_url_info (get_basic_url u) = Some (proto, false, d, P, ""))
    by (rewrite Hbasic; now apply get_url_info_basic).
  destruct (Url_init_root (get_basic_url u) upp _ _ _ _ _ Hinfo')
    as (u' & Hu' & Hp' & _ & Hd' & Hpath' & Hbasic').
  assert (HpathP : path u' = P).
  { rewrite Hpath'. cbv zeta.
    assert (Hj : (if String.eqb d "" then joined_path "" (get_basic_url u) P else P) = P).
    { destruct (String.eqb_spec d "") as [Hd0|_]; [|reflexivity].
      specialize (HP4 Hd0). rewrite joined_path_root.
      destruct P as [|c s]; [reflexivity|]. cbn in HP4. subst c. reflexivity. }
    rewrite Hj. destruct (String.eqb_spec P "") as [->|_]; [reflexivity|].
    now apply refactor_id. }
  exists u'. split; [exact Hu'|]. split; [now rewrite Hp', Hp|].
  split; [now rewrite Hd', Hd|]. split; [exact HpathP|].
  rewrite Hbasic', Hhttp, HpathP, Hbasic. reflexivity.
Qed.

End ReparseBasic.

(** C7, amended. Let [u] be constructed from a text with no parent.  When
    the scheme of [u] does not start with "http", its basic url is the text
    itself, and constructing a [Url] from it gives [u] again.  When it
    does, constructing a [Url] from the basic url of [u] gives the same
    scheme, domain, path and basic url, provided that the domain of [u]
    does not itself start with "www.", that the first "?" of its path is
    not the last character of the path, that its scheme takes no
    parameters or the last segment of its path before the query holds no
    ";", and, if the text had a leading "www.", that the validators of
    [urlsplit] accept the domain without it, as they do for every ASCII
    domain without brackets. *)
Theorem basic_url_reparse `{Library} (url_ : string) (upp : bool) (u : Url) :
  Url_init url_ None upp = Some u ->
  (Str.startswith (protocol u) "http" = false ->
   get_basic_url u = url_ /\ Url_init (get_basic_url u) None upp = Some u) /\
  (Str.startswith (protocol u) "http" = true ->
   Str.startswith (domain u) "www." = false ->
   query_kept (path u) = true ->
   params_kept (protocol u) (path u) = true ->
   (www u = true -> brackets_accepted (domain u) /\ _checknetloc (domain u) = true) ->
   exists u',
     Url_init (get_basic_url u) None upp = Some u' /\
     protocol u' = protocol u /\ domain u' = domain u /\ path u' = path u /\
     get_basic_url u' = get_basic_url u) /\
  (Str.all Str.is_ascii (domain u) = true ->
   Str.mem "[" (domain u) = false -> Str.mem "]" (domain u) = false ->
   brackets_accepted (domain u) /\ _checknetloc (domain u) = true).
Proof.
  intros Hu. split; [|split].
  - intros Hhttp. rewrite (reparse_verbatim url_ upp u Hu Hhttp). now split.
  - intros Hhttp Hwww Hquery Hparams Hhost. now apply (reparse_basic url_ upp u).
  - intros Hascii Hl Hr. split; [left; now split|].
    unfold _checknetloc. rewrite Hascii. now rewrite orb_true_r.
Qed.

Definition test_path_url : Url :=
  {| string_url := "https://www.mysite.com/test/path//?q=1#here/";
     parent_protocol := "https"; parent_www := Some true;
     parent_domain := "mysite.com"; parent_path := "";
     protocol := "https"; www := true; domain := "mysite.com";
     path := "/test/path/?q=1"; fragment := "here";
     use_parent_protocol := true |}.

Lemma basic_url_reparse_witness :
  exists u',
    Url_init (H := strict_library) "https://mysite.com/test/path/?q=1" None true = Some u' /\
    protocol u' = "https" /\ domain u' = "mysite.com" /\ path u' = "/test/path/?q=1" /\
    get_basic_url u' = "https://mysite.com/test/path/?q=1".
Proof.
  exact (proj1 (proj2
           (basic_url_reparse (H := strict_library)
              "https://www.mysite.com/test/path//?q=1#here/" true test_path_url
              eq_refl))
           eq_refl eq_refl eq_refl eq_refl
           (fun _ => conj (or_introl (conj eq_refl eq_refl)) eq_refl)).
Defined.
(* ===================================================================== *)
(** ** Runs of slashes                                                   *)
(* ===================================================================== *)

(** Every run of slashes of [s] replaced by one slash, in one pass. *)
Fixpoint collapse_slashes (s : string) : string :=
  match s with
  | EmptyString => EmptyString
  | String c s' =>
      match s' with
      | String d _ =>
          if Ascii.eqb c "/" && Ascii.eqb d "/" then collapse_slashes s'
          else String c (collapse_slashes s')
      | EmptyString => String c EmptyString
      end
  end.

Lemma collapse_slashes_pair s :
  collapse_slashes (String "/" (String "/" s)) = collapse_slashes (String "/" s).
Proof. reflexivity. Qed.

Lemma collapse_slashes_other c s :
  c <> "/"%char -> collapse_slashes (String c s) = String c (collapse_slashes s).
Proof.
  intros Hc. destruct s as [|d s]; [reflexivity|].
  cbn [collapse_slashes]. destruct (Ascii.eqb_spec c "/") as [->|_]; [now destruct Hc|].
  reflexivity.
Qed.

Lemma collapse_slashes_slash_other d s :
  d <> "/"%char ->
  collapse_slashes (String "/" (String d s)) = String "/" (collapse_slashes (String d s)).
Proof.
  intros Hd. cbn [collapse_slashes]. destruct (Ascii.eqb_spec d "/") as [->|_];
    [now destruct Hd|]. rewrite andb_false_r. reflexivity.
Qed.

(** One pass of the loop leaves the collapsed string as it was. *)
Lemma collapse_slashes_replace_aux n :
  forall s, (String.length s <= n)%nat ->
    collapse_slashes (replace_slashes s) = collapse_slashes s /\
    collapse_slashes (String "/" (replace_slashes s)) = collapse_slashes (String "/" s).
Proof.
  induction n as [|n IH]; intros s Hn.
  - destruct s; [|cbn in Hn; lia]. now split.
  - destruct s as [|c [|d s]].
    + now split.
    + rewrite replace_slashes_single. now split.
    + destruct (Ascii.ascii_dec c "/"%char) as [->|Hc];
        [destruct (Ascii.ascii_dec d "/"%char) as [->|Hd]|].
      * rewrite replace_slashes_pair, !collapse_slashes_pair.
        destruct (IH s) as [_ IH2]; [cbn in Hn; lia|]. now rewrite IH2.
      * rewrite replace_slashes_other by tauto.
        destruct (IH (String d s)) as [_ IH2]; [cbn in Hn |- *; lia|].
        rewrite !collapse_slashes_pair. now rewrite IH2.
      * rewrite replace_slashes_other by tauto.
        destruct (IH (String d s)) as [IH1 _]; [cbn in Hn |- *; lia|].
        rewrite (collapse_slashes_other c) by assumption.
        rewrite (collapse_slashes_other c (String d s)) by assumption.
        rewrite IH1. split; [reflexivity|].
        rewrite !(collapse_slashes_slash_other c) by assumption.
        rewrite (collapse_slashes_other c) by assumption.
        rewrite (collapse_slashes_other c (String d s)) by assumption.
        now rewrite IH1.
Qed.

Lemma collapse_slashes_replace s :
  collapse_slashes (replace_slashes s) = collapse_slashes s.
Proof. now apply (collapse_slashes_replace_aux (String.length s)). Qed.

Lemma collapse_slashes_while_loop previous_url formatted_url :
  collapse_slashes (while_loop previous_url formatted_url) =
  collapse_slashes formatted_url.
Proof.
  funelim (while_loop previous_url formatted_url); [reflexivity|].
  match goal with IH : collapse_slashes _ = _ |- _ => rewrite IH end.
  apply collapse_slashes_replace.
Qed.

Lemma collapse_slashes_fixed s : no_double_slash s -> collapse_slashes s = s.
Proof.
  induction s as [|c s IH]; [reflexivity|]. intros Hs.
  destruct s as [|d s]; [reflexivity|].
  apply no_double_slash_cons in Hs as [Hcd Hs].
  destruct (Ascii.ascii_dec c "/"%char) as [->|Hc].
  - destruct (Ascii.ascii_dec d "/"%char) as [->|Hd]; [now destruct Hcd|].
    rewrite collapse_slashes_slash_other by assumption. f_equal. now apply IH.
  - rewrite collapse_slashes_other by assumption. f_equal. now apply IH.
Qed.

(** X1. [remove_consecutive_slashes] returns its argument with every run of
    slashes replaced by one slash: the result holds no two slashes in a
    row, a string without two slashes in a row is returned as it is, and a
    second call changes nothing. *)
Theorem remove_consecutive_slashes_collapses (basic_url : string) :
  remove_consecutive_slashes basic_url = collapse_slashes basic_url /\
  Str.contains "//" (remove_consecutive_slashes basic_url) = false /\
  (Str.contains "//" basic_url = false ->
   remove_consecutive_slashes basic_url = basic_url) /\
  remove_consecutive_slashes (remove_consecutive_slashes basic_url) =
    remove_consecutive_slashes basic_url.
Proof.
  pose proof (remove_consecutive_slashes_no_double_slash basic_url) as Hn.
  split; [|split; [exact Hn|split]].
  - rewrite <- (collapse_slashes_fixed _ Hn).
    unfold remove_consecutive_slashes.
    now rewrite collapse_slashes_while_loop, collapse_slashes_replace.
  - apply remove_consecutive_slashes_id.
  - now apply remove_consecutive_slashes_id.
Qed.

(* ===================================================================== *)
(** ** The endings that [_refactor_ending] leaves                        *)
(* ===================================================================== *)

Lemma normal_spec s :
  normal s <-> Str.contains "//" s = false /\ Str.endswith s "/" = false.
Proof.
  unfold normal, no_double_slash. rewrite endswith_char.
  split; intros [Hs Hl]; (split; [exact Hs|]).
  - destruct (last_char s) as [d|]; [|reflexivity].
    destruct (Ascii.eqb_spec d "/") as [->|_]; [now destruct Hl|reflexivity].
  - intros Heq. rewrite Heq in Hl. discriminate.
Qed.

(** X2. The local function [refactor] of [_refactor_ending] returns a text
    with no two slashes in a row and no slash at its end; it returns "" for
    "/"; it changes exactly the texts that are not of that form, so a second
    call changes nothing. *)
Theorem refactor_normal_form (text : string) :
  Str.contains "//" (refactor text) = false /\
  Str.endswith (refactor text) "/" = false /\
  (refactor text = text <->
   Str.contains "//" text = false /\ Str.endswith text "/" = false) /\
  refactor (refactor text) = refactor text /\
  refactor "/" = "".
Proof.
  pose proof (refactor_normal text) as Hn.
  destruct (proj1 (normal_spec _) Hn) as [H1 H2].
  split; [exact H1|]. split; [exact H2|]. split; [|split].
  - split.
    + intros Heq. rewrite Heq in H1, H2. now split.
    + intros H. apply refactor_id. now apply normal_spec.
  - now apply refactor_id.
  - reflexivity.
Qed.

Section ConstructedEndings.
Context `{Library}.

Lemma Url_init_fragment_normal url_ parent upp u :
  Url_init url_ parent upp = Some u -> normal (fragment u).
Proof.
  unfold Url_init.
  destruct (get_url_info url_) as [[[[[protocol_ www_] domain_] path_] fragment_]|];
    [|discriminate].
  intros [= <-].
  match goal with
  | |- normal (fragment (_refactor_root_attributes ?y)) =>
      destruct (_refactor_root_attributes_fields y) as (_ & _ & _ & _ & _ & -> & _)
  end.
  unfold _refactor_attributes.
  match goal with
  | |- normal (fragment (_refactor_ending ?y)) =>
      destruct (_refactor_ending_fields y)
        as (_ & _ & _ & _ & _ & _ & _ & _ & _ & _ & ->)
  end.
  match goal with
  | |- normal (if String.eqb ?f "" then _ else _) =>
      destruct (String.eqb_spec f "") as [->|_];
        [apply normal_empty|apply refactor_normal]
  end.
Qed.

End ConstructedEndings.

(** X3. Whatever the text, the parent and the flag, the [path] and the
    [fragment] of a constructed [Url] hold no two slashes in a row and end
    with no slash, and [string_url] is the text given. *)
Theorem Url_init_endings `{Library} (url_ : string) (parent : option Url)
    (upp : bool) (u : Url) :
  Url_init url_ parent upp = Some u ->
  Str.contains "//" (path u) = false /\ Str.endswith (path u) "/" = false /\
  Str.contains "//" (fragment u) = false /\ Str.endswith (fragment u) "/" = false /\
  string_url u = url_.
Proof.
  intros Hu.
  destruct (proj1 (normal_spec _) (Url_init_path_normal _ _ _ _ Hu)) as [H1 H2].
  destruct (proj1 (normal_spec _) (Url_init_fragment_normal _ _ _ _ Hu)) as [H3 H4].
  repeat split; trivial.
  unfold Url_init in Hu.
  destruct (get_url_info url_) as [[[[[protocol_ www_] domain_] path_] fragment_]|];
    [|discriminate].
  injection Hu as <-.
  match goal with
  | |- string_url (_refactor_root_attributes ?y) = _ =>
      destruct (_refactor_root_attributes_fields y) as (-> & _)
  end.
  match goal with
  | |- string_url (_refactor_attributes ?y) = _ =>
      destruct (_refactor_attributes_fields y) as (-> & _)
  end.
  reflexivity.
Qed.

Definition slashes_url : Url :=
  {| string_url := "http://www.mysite.com//a///b/#x//y/";
     parent_protocol := "http"; parent_www := Some true;
     parent_domain := "mysite.com"; parent_path := "";
     protocol := "http"; www := true; domain := "mysite.com";
     path := "/a/b"; fragment := "x/y"; use_parent_protocol := true |}.

Lemma Url_init_endings_witness :
  Str.contains "//" (path slashes_url) = false /\
  Str.endswith (path slashes_url) "/" = false /\
  Str.contains "//" (fragment slashes_url) = false /\
  Str.endswith (fragment slashes_url) "/" = false /\
  string_url slashes_url = "http://www.mysite.com//a///b/#x//y/".
Proof.
  exact (Url_init_endings (H := strict_library)
           "http://www.mysite.com//a///b/#x//y/" None true slashes_url eq_refl).
Defined.

(* ===================================================================== *)
(** ** [UrlSet]: the first url of every basic url                        *)
(* ===================================================================== *)

Definition url_item (u : Url) : string * Url := (get_basic_url u, u).

Lemma existsb_keys (k : string) (self : UrlSet) :
  existsb (fun kv => String.eqb k (fst kv)) self =
  existsb (String.eqb k) (UrlSet_keys self).
Proof.
  unfold UrlSet_keys. induction self as [|kv self IH]; [reflexivity|].
  cbn. now rewrite IH.
Qed.

Lemma UrlSet_fold_fresh (urls : list Url) : forall acc : UrlSet,
  fold_left UrlSet_add urls acc =
  (acc ++ map url_item (fresh_matches (UrlSet_keys acc) urls))%list.
Proof.
  induction urls as [|u urls IH]; intros acc; cbn [fold_left fresh_matches map].
  - now rewrite app_nil_r.
  - rewrite IH. unfold UrlSet_add. rewrite existsb_keys.
    destruct (existsb (String.eqb (get_basic_url u)) (UrlSet_keys acc)); [reflexivity|].
    unfold UrlSet_keys. rewrite map_app. cbn [map fst].
    now rewrite <- app_assoc.
Qed.

Lemma fresh_matches_keys (us : list Url) : forall seen,
  NoDup (map get_basic_url (fresh_matches seen us)) /\
  forall k, In k (map get_basic_url (fresh_matches seen us)) ->
            existsb (String.eqb k) seen = false.
Proof.
  induction us as [|u us IH]; intros seen; cbn [fresh_matches].
  - split; [constructor|intros k []].
  - destruct (existsb (String.eqb (get_basic_url u)) seen) eqn:E; [apply IH|].
    destruct (IH (seen ++ [get_basic_url u])%list) as [Hnd Hout].
    cbn [map]. split.
    + apply NoDup_cons. split; [|exact Hnd].
      intros Hin. apply list_elem_of_In, Hout in Hin.
      rewrite existsb_app in Hin. cbn in Hin.
      now rewrite String.eqb_refl, orb_true_r in Hin.
    + intros k [<-|Hin]; [exact E|].
      apply Hout in Hin. rewrite existsb_app in Hin.
      now apply orb_false_iff in Hin as [Hin _].
Qed.

Lemma fresh_matches_find (k : string) (us : list Url) : forall seen,
  existsb (String.eqb k) seen = false ->
  List.find (fun u => String.eqb (get_basic_url u) k) (fresh_matches seen us) =
  List.find (fun u => String.eqb (get_basic_url u) k) us.
Proof.
  induction us as [|u us IH]; intros seen Hk; [reflexivity|].
  cbn [fresh_matches List.find].
  destruct (existsb (String.eqb (get_basic_url u)) seen) eqn:E.
  - destruct (String.eqb_spec (get_basic_url u) k) as [Heq|_]; [|now apply IH].
    rewrite Heq in E. congruence.
  - cbn [List.find]. destruct (String.eqb_spec (get_basic_url u) k) as [Heq|Hne];
      [reflexivity|].
    apply IH. rewrite existsb_app, Hk. cbn.
    rewrite orb_false_r. apply String.eqb_neq. congruence.
Qed.

Lemma UrlSet_init_items (urls : list Url) :
  UrlSet_init urls = map url_item (fresh_matches [] urls).
Proof. unfold UrlSet_init. now rewrite UrlSet_fold_fresh. Qed.

Lemma UrlSet_init_values (urls : list Url) :
  UrlSet_values (UrlSet_init urls) = fresh_matches [] urls.
Proof.
  rewrite UrlSet_init_items. unfold UrlSet_values. rewrite map_map. cbn. apply map_id.
Qed.

(** X4. [UrlSet(urls)] keeps, in the order of [urls], the first url of
    every basic url: its keys are the basic urls of its values, no key
    occurs twice, the keys are the basic urls that occur in [urls], and the
    value kept for a key is the first url of [urls] with that basic url.
    Adding a url whose basic url is a key changes nothing. *)
Theorem UrlSet_first_seen (urls : list Url) :
  UrlSet_values (UrlSet_init urls) = fresh_matches [] urls /\
  UrlSet_keys (UrlSet_init urls) =
    map get_basic_url (UrlSet_values (UrlSet_init urls)) /\
  NoDup (UrlSet_keys (UrlSet_init urls)) /\
  (forall k, In k (UrlSet_keys (UrlSet_init urls)) <-> In k (map get_basic_url urls)) /\
  (forall k,
     List.find (fun u => String.eqb (get_basic_url u) k)
               (UrlSet_values (UrlSet_init urls)) =
     List.find (fun u => String.eqb (get_basic_url u) k) urls) /\
  (forall u, In u urls -> UrlSet_add (UrlSet_init urls) u = UrlSet_init urls).
Proof.
  pose proof (UrlSet_init_items urls) as Hinit.
  pose proof (UrlSet_init_values urls) as Hvalues.
  assert (Hkeys : UrlSet_keys (UrlSet_init urls) =
                  map get_basic_url (fresh_matches [] urls)).
  { rewrite Hinit. unfold UrlSet_keys. now rewrite map_map. }
  assert (Hmem : forall k, In k (UrlSet_keys (UrlSet_init urls)) <->
                           In k (map get_basic_url urls)).
  { intros k. pose proof (UrlSet_init_keys k urls) as Hk.
    split; intros Hin.
    - assert (He : existsb (String.eqb k) (UrlSet_keys (UrlSet_init urls)) = true)
        by (apply existsb_exists; exists k; split; [exact Hin|apply String.eqb_refl]).
      rewrite Hk in He. apply existsb_exists in He as (k' & Hin' & Heq).
      apply String.eqb_eq in Heq. now subst.
    - assert (He : existsb (String.eqb k) (map get_basic_url urls) = true)
        by (apply existsb_exists; exists k; split; [exact Hin|apply String.eqb_refl]).
      rewrite <- Hk in He. apply existsb_exists in He as (k' & Hin' & Heq).
      apply String.eqb_eq in Heq. now subst. }
  split; [exact Hvalues|]. split; [now rewrite Hvalues|].
  split; [rewrite Hkeys; apply fresh_matches_keys|].
  split; [exact Hmem|]. split.
  - intros k. rewrite Hvalues. now apply fresh_matches_find.
  - intros u Hu. unfold UrlSet_add. rewrite existsb_keys.
    assert (He : existsb (String.eqb (get_basic_url u))
                   (UrlSet_keys (UrlSet_init urls)) = true); [|now rewrite He].
    apply existsb_exists. exists (get_basic_url u).
    split; [|apply String.eqb_refl]. apply Hmem. now apply in_map.
Qed.

(* ===================================================================== *)
(** ** The configuration that [Crawler.__init__] leaves                  *)
(* ===================================================================== *)

(** X5. Whatever the arguments, a constructed [Crawler] has at least one
    runner, no negative number of retries, sleeps that are numbers not
    below zero, a depth limit that is unset or not negative, and a limit of
    concurrent requests that is unset or positive; an argument within its
    range is stored as given, an unset depth limit stays unset, and the
    root is [Url(url)]. *)
Theorem Crawler_init_bounds `{Library} (url_ : string)
    (regex_search_ domain_filter_ : bool) (max_runners_ : Z)
    (print_in_real_time_ : bool) (max_retries_ : Z) (sleep_between_retries_ : float)
    (max_depth_ : option Z) (assume_parent_protocol_ : bool)
    (sleep_after_request_ : float) (concurrent_requests_limit_ : option Z)
    (self : Crawler) :
  Crawler_init url_ regex_search_ domain_filter_ max_runners_ print_in_real_time_
    max_retries_ sleep_between_retries_ max_depth_ assume_parent_protocol_
    sleep_after_request_ concurrent_requests_limit_ = Some self ->
  Url_init url_ None true = Some (url self) /\
  (1 <= max_runners self)%Z /\
  ((0 < max_runners_)%Z -> max_runners self = max_runners_) /\
  (0 <= max_retries self)%Z /\
  ((0 <= max_retries_)%Z -> max_retries self = max_retries_) /\
  PrimFloat.leb 0%float (sleep_between_retries self) = true /\
  (PrimFloat.leb 0%float sleep_between_retries_ = true ->
   sleep_between_retries self = sleep_between_retries_) /\
  PrimFloat.leb 0%float (sleep_after_request self) = true /\
  (PrimFloat.leb 0%float sleep_after_request_ = true ->
   sleep_after_request self = sleep_after_request_) /\
  match max_depth self, max_depth_ with
  | None, None => True
  | Some d, Some d_ => (0 <= d)%Z /\ ((0 <= d_)%Z -> d = d_)
  | _, _ => False
  end /\
  match concurrent_requests_limit self with
  | Some l => (0 < l)%Z /\ concurrent_requests_limit_ = Some l
  | None =>
      match concurrent_requests_limit_ with
      | Some l_ => (l_ <= 0)%Z
      | None => True
      end
  end.
Proof.
  unfold Crawler_init. destruct (Url_init url_ None true) as [root|]; [|discriminate].
  intros [= <-]. cbn [url max_runners max_retries sleep_between_retries max_depth
                       sleep_after_request concurrent_requests_limit].
  split; [reflexivity|].
  split; [destruct (Z.gtb_spec max_runners_ 0); lia|].
  split; [destruct (Z.gtb_spec max_runners_ 0); lia|].
  split; [destruct (Z.geb_spec max_retries_ 0); lia|].
  split; [destruct (Z.geb_spec max_retries_ 0); lia|].
  split; [destruct (PrimFloat.leb 0 sleep_between_retries_) eqn:E;
          [exact E|reflexivity]|].
  split; [now intros ->|].
  split; [destruct (PrimFloat.leb 0 sleep_after_request_) eqn:E;
          [exact E|reflexivity]|].
  split; [now intros ->|].
  split.
  - destruct max_depth_ as [d|]; [|exact I].
    destruct (Z.ltb_spec d 0); split; lia.
  - destruct concurrent_requests_limit_ as [l|]; [|exact I].
    destruct (Z.gtb_spec l 0); [split; [lia|reflexivity]|lia].
Qed.

Definition clamped_crawler : Crawler :=
  {| url := url regex_crawler;
     domain_filter := true; max_runners := 1; print_in_real_time := false;
     max_retries := 0; sleep_between_retries := 0x1.3333333333333p-2%float;
     max_depth := Some 0%Z; regex_search := false; assume_parent_protocol := true;
     sleep_after_request := 0%float; concurrent_requests_limit := None |}.

Lemma Crawler_init_bounds_witness :
  Url_init (H := strict_library) "http://mysite.com" None true =
    Some (url clamped_crawler) /\
  (1 <= max_runners clamped_crawler)%Z /\
  (0 <= max_retries clamped_crawler)%Z /\
  PrimFloat.leb 0%float (sleep_between_retries clamped_crawler) = true /\
  PrimFloat.leb 0%float (sleep_after_request clamped_crawler) = true.
Proof.
  pose proof (Crawler_init_bounds (H := strict_library) "http://mysite.com"
                false true (-3) false (-1) nan (Some (-2)%Z) true
                (-0x1p+0)%float (Some 0%Z) clamped_crawler eq_refl)
    as (H1 & H2 & _ & H3 & _ & H4 & _ & H5 & _).
  exact (conj H1 (conj H2 (conj H3 (conj H4 H5)))).
Defined.

(* ===================================================================== *)
(** ** Content urls and XML                                              *)
(* ===================================================================== *)

Lemma endswith_last_char s p c :
  Str.endswith s (p +:+ String c "") = true -> last_char s = Some c.
Proof.
  unfold Str.endswith. intros Hs. apply andb_true_iff in Hs as [_ Hs].
  apply String.eqb_eq in Hs.
  assert (Hd : forall n t, last_char (Str.drop n t) = None \/
                           last_char (Str.drop n t) = last_char t).
  { induction n as [|n IH]; intros t; [now right|].
    destruct t as [|a t]; [now left|]. cbn [Str.drop].
    destruct (IH t) as [Hn|He]; [now left|].
    destruct t as [|b t]; [left; now destruct n|]. now right. }
  destruct (Hd (String.length s - String.length (p +:+ String c "")) s) as [Hn|He].
  - rewrite Hs, last_char_app_char in Hn. discriminate.
  - now rewrite <- He, Hs, last_char_app_char.
Qed.

(** X6. A url whose basic url ends with ".xml" is no content url, so it is
    crawlable exactly when it is valid; and a url whose basic url ends with
    ".png", ".pdf", ".jpg", ".jpeg" or ".txt" is no XML url. *)
Theorem is_xml_not_content (u : Url) (regex_ : regex) :
  (is_xml u = true ->
   _is_content_url u = false /\ is_crawlable u regex_ = is_valid u regex_) /\
  (_is_content_url u = true -> is_xml u = false).
Proof.
  assert (Hx : is_xml u = true -> _is_content_url u = false).
  { unfold is_xml, _is_content_url. intros Hxml.
    apply (endswith_last_char _ ".xm" "l") in Hxml.
    repeat match goal with
    | |- context [Str.endswith ?s ?p] =>
        let E := fresh "E" in
        destruct (Str.endswith s p) eqn:E;
        [first [ apply (endswith_last_char _ ".pn" "g") in E
               | apply (endswith_last_char _ ".pd" "f") in E
               | apply (endswith_last_char _ ".jp" "g") in E
               | apply (endswith_last_char _ ".jpe" "g") in E
               | apply (endswith_last_char _ ".tx" "t") in E ];
         rewrite E in Hxml; discriminate|]
    end.
    reflexivity. }
  split.
  - intros Hxml. split; [now apply Hx|].
    unfold is_crawlable. rewrite (Hx Hxml). now rewrite andb_true_r.
  - intros Hc. destruct (is_xml u); [|reflexivity].
    rewrite Hx in Hc by reflexivity. discriminate.
Qed.

(* ===================================================================== *)
(** ** When the construction of a [Url] raises                           *)
(* ===================================================================== *)

(** An ASCII character that is no bracket. *)
Definition plain (c : ascii) : bool :=
  Str.is_ascii c && negb (Ascii.eqb "[" c) && negb (Ascii.eqb "]" c).

Section Construction.
Context `{Library}.

Lemma plain_netloc s :
  Str.all plain s = true ->
  Str.mem "[" s = false /\ Str.mem "]" s = false /\ Str.all Str.is_ascii s = true.
Proof.
  intros Hs. rewrite !mem_lacks. unfold lacks. repeat split.
  - apply negb_false_iff.
    apply (all_impl plain); [|exact Hs].
    intros c Hc. unfold plain in Hc.
    now apply andb_true_iff in Hc as [Hc _]; apply andb_true_iff in Hc as [_ Hc].
  - apply negb_false_iff.
    apply (all_impl plain); [|exact Hs].
    intros c Hc. unfold plain in Hc. now apply andb_true_iff in Hc as [_ Hc].
  - apply (all_impl plain); [|exact Hs].
    intros c Hc. unfold plain in Hc.
    now apply andb_true_iff in Hc as [Hc _]; apply andb_true_iff in Hc as [Hc _].
Qed.

Lemma split_netloc_plain url_ :
  Str.all plain url_ = true ->
  exists netloc rest,
    split_netloc url_ = Some (netloc, rest) /\ Str.all Str.is_ascii netloc = true.
Proof.
  intros Hs. unfold split_netloc.
  destruct (String.eqb (Str.take 2 url_) "//"); [|now exists "", url_].
  unfold _splitnetloc, slice.
  match goal with
  | |- context [Str.take ?n (Str.drop 2 url_)] =>
      assert (Hn : Str.all plain (Str.take n (Str.drop 2 url_)) = true)
        by (now apply all_take, all_drop);
      generalize dependent (Str.take n (Str.drop 2 url_))
  end.
  intros netloc Hn. destruct (plain_netloc _ Hn) as (-> & -> & Hascii).
  cbn [andb orb negb]. eauto.
Qed.

Lemma get_url_info_plain url_ :
  Str.all plain url_ = true -> exists info, get_url_info url_ = Some info.
Proof.
  intros Hs. unfold get_url_info, urlparse, urlsplit.
  pose proof (all_split_scheme plain _
                (all_remove_unsafe plain _
                   (all_lstrip c0_control_or_space plain _ Hs))) as Hrest.
  destruct (split_scheme (remove_unsafe (Str.lstrip c0_control_or_space url_)))
    as [scheme rest]. cbn [snd] in Hrest.
  destruct (split_netloc_plain _ Hrest) as (netloc & rest1 & -> & Hascii).
  destruct (split_fragment rest1) as [rest2 fragment_].
  destruct (split_query rest2) as [path0 query].
  unfold _checknetloc. rewrite Hascii, orb_true_r.
  cbn [pr_scheme pr_path].
  match goal with
  | |- context [if ?b then _splitparams path0 else _] =>
      destruct (if b then _splitparams path0 else (path0, "")) as [path1 params]
  end.
  eauto.
Qed.

End Construction.

(** X7. The construction of a [Url] raises only for a text that holds a
    bracket or a character outside ASCII: for every other text, whatever
    the parent and the flag, [Url(url, parent_url, use_parent_protocol)]
    returns. *)
Theorem Url_init_returns `{Library} (url_ : string) (parent : option Url)
    (upp : bool) :
  Str.mem "[" url_ = false -> Str.mem "]" url_ = false ->
  Str.all Str.is_ascii url_ = true ->
  exists u, Url_init url_ parent upp = Some u.
Proof.
  intros Hl Hr Hascii.
  assert (Hplain : Str.all plain url_ = true).
  { rewrite mem_lacks in Hl, Hr. apply negb_false_iff in Hl, Hr. unfold lacks in Hl, Hr.
    clear -Hl Hr Hascii. induction url_ as [|c s IH]; [reflexivity|].
    cbn [Str.all] in *.
    apply andb_true_iff in Hl as [Hl1 Hl], Hr as [Hr1 Hr], Hascii as [Ha1 Ha].
    unfold plain at 1. now rewrite Ha1, Hl1, Hr1, IH. }
  destruct (get_url_info_plain _ Hplain) as (info & Hinfo).
  unfold Url_init. rewrite Hinfo.
  destruct info as [[[[protocol_ www_] domain_] path_] fragment_]. eauto.
Qed.

Lemma Url_init_returns_witness :
  exists u, Url_init (H := strict_library) "/about?x=1#top" (Some page_a) true = Some u.
Proof.
  exact (Url_init_returns (H := strict_library) "/about?x=1#top" (Some page_a) true
           eq_refl eq_refl eq_refl).
Defined.

(** A text with one bracket in its netloc: the construction raises,
    whatever the library validators do. *)
Example Url_init_raises `{Library} (parent : option Url) (upp : bool) :
  Url_init "http://www[abc.com" parent upp = None.
Proof. reflexivity. Qed.

(* ===================================================================== *)
(** ** The matches of the regex search                                   *)
(* ===================================================================== *)

Lemma string_length_app a b : String.length (a +:+ b) = (String.length a + String.length b)%nat.
Proof. induction a as [|c a IH]; [reflexivity|]. rewrite append_cons. cbn. now rewrite IH. Qed.

(** Every match of [finditer] is a piece of the text that the pattern
    matches where it stands. *)
Lemma finditer_from_sound r s : forall prev skip m,
  In m (finditer_from r prev skip s) ->
  exists prev' pre post, s = pre +:+ m +:+ post /\ matches r prev' m post.
Proof.
  induction s as [|c s IH]; intros prev skip m; [intros []|].
  cbn [finditer_from].
  assert (Hlater : forall prev' skip',
            In m (finditer_from r prev' skip' s) ->
            exists prev'' pre post,
              String c s = pre +:+ m +:+ post /\ matches r prev'' m post).
  { intros prev' skip' Hin.
    destruct (IH _ _ _ Hin) as (p & pre & post & -> & Hm).
    exists p, (String c pre), post. now rewrite append_cons. }
  destruct skip as [|n]; [|apply Hlater].
  destruct (rmatch r prev (String c s) (fun _ rest => Some rest)) as [rest|] eqn:E;
    [|apply Hlater].
  apply rmatch_sound in E as (w & rest0 & Hs & Hw & [= ->]).
  intros [<-|Hin]; [|now apply Hlater in Hin].
  exists prev, "", rest. rewrite Hs, string_length_app, Nat.add_sub, take_app.
  now rewrite append_nil_l.
Qed.

Lemma is_word_after_app tail rest :
  is_word_after (tail +:+ rest) = false -> is_word_after tail = false.
Proof. destruct tail as [|c tail]; [reflexivity|]. now rewrite append_cons. Qed.

(** A word that [_default_regex] matches, wherever it stands, has the shape
    of its full matches. *)
Lemma matches_default_regex_anywhere prev s rest :
  matches _default_regex prev s rest -> url_shaped s.
Proof.
  unfold _default_regex, url_shaped. cbn [matches].
  intros (w1 & w2 & -> & (scheme & sep & -> & Hscheme & ->) &
          (w & w3 & -> & Hw & host & w4 & -> & (Hh1 & Hh2 & Hhost) &
           dot & w5 & -> & -> & tld & w6 & -> & (Ht1 & Ht2 & Htld) &
           b & tail & -> & [-> Hb] & (_ & _ & Htail))).
  rewrite word_before_tld in Hb by trivial.
  exists scheme, w, host, tld, tail.
  rewrite !append_assoc, ?append_nil_l. repeat split; trivial.
  - destruct Hw as [(x & y & -> & -> & c & -> & Hc)| ->]; [right|now left].
    now exists c.
  - apply (is_word_after_app tail rest). now destruct (is_word_after (tail +:+ rest)).
Qed.

Lemma url_shaped_scheme s :
  url_shaped s ->
  Str.startswith s "http://" = true \/ Str.startswith s "https://" = true.
Proof.
  intros (scheme & w & host & tld & tail & -> & [-> | ->] & _); [left|right]; reflexivity.
Qed.

(** X8. Every match that the regex search of [_get_urls_from_text] finds in
    a page is a piece of the page that fully matches the default pattern:
    it has the shape of an absolute url and starts with "http://" or
    "https://". *)
Theorem finditer_default_regex_matches (html_text m : string) :
  In m (finditer _default_regex html_text) ->
  (exists pre post, html_text = pre +:+ m +:+ post) /\
  url_shaped m /\
  fullmatch _default_regex m = true /\
  (Str.startswith m "http://" = true \/ Str.startswith m "https://" = true).
Proof.
  intros Hin. apply finditer_from_sound in Hin as (prev & pre & post & -> & Hm).
  apply matches_default_regex_anywhere in Hm.
  split; [now exists pre, post|]. split; [exact Hm|].
  split; [now apply fullmatch_default_regex|now apply url_shaped_scheme].
Qed.

Lemma finditer_default_regex_matches_witness :
  (exists pre post,
     "<p>see https://www.mysite.com/a/b?x=1, or ask</p>" =
     pre +:+ "https://www.mysite.com/a/b?x=1" +:+ post) /\
  url_shaped "https://www.mysite.com/a/b?x=1" /\
  fullmatch _default_regex "https://www.mysite.com/a/b?x=1" = true /\
  (Str.startswith "https://www.mysite.com/a/b?x=1" "http://" = true \/
   Str.startswith "https://www.mysite.com/a/b?x=1" "https://" = true).
Proof.
  exact (finditer_default_regex_matches
           "<p>see https://www.mysite.com/a/b?x=1, or ask</p>"
           "https://www.mysite.com/a/b?x=1" (or_introl eq_refl)).
Defined.

(* ===================================================================== *)
(** ** When [_get_urls_from_text] raises                                 *)
(* ===================================================================== *)

Lemma map_raising_returns {A B : Type} (f : A -> option B) (l : list A) :
  (forall x, In x l -> exists y, f x = Some y) ->
  exists ys, map_raising f l = Some ys.
Proof.
  induction l as [|x l IH]; intros Hf; [now exists []|].
  cbn [map_raising]. destruct (Hf x (or_introl eq_refl)) as [y ->].
  destruct IH as [ys ->]; [intros z Hz; apply Hf; now right|]. eauto.
Qed.

(** X9. Once the HTML parser has accepted the page,
    [_get_urls_from_text] raises only on a bracket or a character outside
    ASCII: when [BeautifulSoup] does not raise on the page and every href
    that the page's [a] tags give, and with the regex search the text of
    the page too, is ASCII text without brackets, the call returns a
    list. *)
Theorem _get_urls_from_text_returns `{Library} (self : Crawler)
    (html_text : string) (parent_url : Url) :
  soup_raises html_text = false ->
  (forall href, In (Some href) (find_all_a_href html_text) ->
                Str.all plain href = true) ->
  (regex_search self = true -> Str.all plain html_text = true) ->
  exists urls, _get_urls_from_text self html_text parent_url = Some urls.
Proof.
  intros Hsoup Hhrefs Htext. unfold _get_urls_from_text. rewrite Hsoup.
  destruct (map_raising_returns
              (fun href => Url_init href (Some parent_url) (assume_parent_protocol self))
              (hrefs_of (find_all_a_href html_text))) as [anchors ->].
  { intros href Hin. unfold hrefs_of in Hin.
    apply list_elem_of_In, list_elem_of_omap in Hin as ([href'|] & Hin & Heq);
      [|discriminate].
    injection Heq as ->. apply list_elem_of_In, Hhrefs, plain_netloc in Hin.
    destruct Hin as (Hl & Hr & Ha). now apply Url_init_returns. }
  destruct (regex_search self); [|eauto].
  destruct (map_raising_returns
              (fun m => Url_init m (Some parent_url) (assume_parent_protocol self))
              (finditer _default_regex html_text)) as [us Hus].
  { intros m Hin. apply finditer_from_sound in Hin as (_ & pre & post & Hhtml & _).
    specialize (Htext eq_refl). rewrite Hhtml, !all_app in Htext.
    apply andb_true_iff in Htext as [_ Htext].
    apply andb_true_iff in Htext as [Htext _].
    apply plain_netloc in Htext as (Hl & Hr & Ha). now apply Url_init_returns. }
  rewrite (append_matches_fresh _ _ _ _ _ Hus). eauto.
Qed.

Lemma _get_urls_from_text_returns_witness :
  exists urls,
    _get_urls_from_text (H := strict_library) regex_crawler
      "<p>http://mysite.com/a</p>" (url regex_crawler) = Some urls.
Proof.
  exact (_get_urls_from_text_returns (H := strict_library) regex_crawler
           "<p>http://mysite.com/a</p>" (url regex_crawler) eq_refl
           (fun href (Hin : In (Some href) []) => match Hin with end)
           (fun _ => eq_refl)).
Defined.

(** A page whose text holds "http://www[abc.com": with the regex search the
    call raises, whatever the library does with the page. *)
Example _get_urls_from_text_raises `{Library} (self : Crawler) (parent_url : Url)
    (anchors : list Url) :
  append_matches self parent_url (finditer _default_regex "http://www[abc.com") anchors
  = None.
Proof. reflexivity. Qed.

(** A page that the HTML parser rejects: the call raises before it looks
    for any link. *)
Example _get_urls_from_text_rejected `{Library} (self : Crawler)
    (html_text : string) (parent_url : Url) :
  soup_raises html_text = true ->
  _get_urls_from_text self html_text parent_url = None.
Proof. intros Hsoup. unfold _get_urls_from_text. now rewrite Hsoup. Qed.

(* ===================================================================== *)
(** ** Links resolved against their page                                 *)
(* ===================================================================== *)

Lemma _refactor_attributes_fragment u :
  fragment (_refactor_attributes u) =
  (if String.eqb (fragment u) "" then fragment u else refactor (fragment u)).
Proof.
  unfold _refactor_attributes.
  match goal with
  | |- fragment (_refactor_ending ?y) = _ =>
      destruct (_refactor_ending_fields y)
        as (_ & _ & _ & _ & _ & _ & _ & _ & _ & _ & ->);
      assert (Hf : fragment y = fragment u); [|now rewrite Hf]
  end.
  destruct (String.eqb (domain u) "" || String.eqb (domain u) (parent_domain u));
    [|reflexivity].
  match goal with
  | |- fragment (_refactor_path ?y) = _ =>
      destruct (_refactor_path_fields y) as (_ & _ & _ & _ & _ & _ & _ & _ & _ & ->)
  end.
  destruct (String.eqb (protocol u) ""); url_simpl;
    destruct (String.eqb (domain u) ""); url_simpl;
    destruct (parent_www u) as [pw|]; url_simpl;
    try destruct (www u); url_simpl; reflexivity.
Qed.

Section ChildFields.
Context `{Library}.

(** The fields of a [Url] constructed with a parent, from what
    [get_url_info] returns for its text. *)
Lemma Url_init_child_fields url_ p upp protocol_ www_ domain_ path_ fragment_ :
  get_url_info url_ = Some (protocol_, www_, domain_, path_, fragment_) ->
  let same_site := String.eqb domain_ "" || String.eqb domain_ (domain p) in
  exists u,
    Url_init url_ (Some p) upp = Some u /\
    string_url u = url_ /\
    protocol u = (if same_site && String.eqb protocol_ "" then protocol p else protocol_) /\
    domain u = (if String.eqb domain_ "" then domain p else domain_) /\
    www u = (if same_site && negb www_ then www p else www_) /\
    fragment u = (if String.eqb fragment_ "" then fragment_ else refactor fragment_) /\
    parent_protocol u = (if String.eqb (protocol p) "" then protocol u else protocol p) /\
    parent_domain u = (if String.eqb (domain p) "" then domain u else domain p) /\
    use_parent_protocol u = (if upp then use_parent_protocol p else false).
Proof.
  intros Hinfo same_site. unfold Url_init. rewrite Hinfo.
  eexists. split; [reflexivity|].
  match goal with
  | |- context [_refactor_root_attributes ?v] =>
      destruct (_refactor_root_attributes_fields v)
        as (-> & -> & -> & -> & _ & -> & -> & _ & -> & -> & _)
  end.
  rewrite _refactor_attributes_fragment.
  match goal with
  | |- context [_refactor_attributes ?y] =>
      destruct (_refactor_attributes_fields y)
        as (-> & -> & _ & -> & _ & -> & -> & -> & ->)
  end.
  url_simpl. fold same_site. repeat split; try reflexivity.
  now destruct upp.
Qed.

Lemma _get_protocol_root url_ upp u :
  Url_init url_ None upp = Some u -> _get_protocol u = protocol u.
Proof.
  intros Hu.
  destruct (Url_init_root_fields _ _ _ Hu)
    as (proto & w & d & p & f & _ & _ & Hp & _ & _ & Hpp & _).
  unfold _get_protocol. rewrite Hpp, Hp.
  match goal with |- (if ?c then _ else _) = _ => now destruct c end.
Qed.

End ChildFields.

(** X10. A link that is a fragment only, "#" followed by any text, resolves
    to the page it stands on: the url constructed for it has the scheme,
    the [www] flag, the domain and the path of the parent, its full url is
    the one of the parent's page followed by "/#" and the fragment, and when
    the scheme of the parent starts with "http" and is the one that the
    parent shows, its basic url is the basic url of the parent. *)
Theorem fragment_link_resolves `{Library} (f : string) (p : Url) (upp : bool) :
  Str.contains "//" (path p) = false -> Str.endswith (path p) "/" = false ->
  exists u,
    Url_init (String "#" f) (Some p) upp = Some u /\
    protocol u = protocol p /\ www u = www p /\ domain u = domain p /\
    path u = path p /\
    fragment u = (if String.eqb (remove_unsafe f) "" then ""
                  else refactor (remove_unsafe f)) /\
    get_full_url u =
      protocol p +:+ "://" +:+ (if www p then "www." else "") +:+ domain p +:+
      path p +:+ (if String.eqb (fragment u) "" then "" else "/#" +:+ fragment u) /\
    (Str.startswith (protocol p) "http" = true -> _get_protocol p = protocol p ->
     get_basic_url u = get_basic_url p).
Proof.
  intros Hslash Hend.
  assert (Hnormal : normal (path p)) by (now apply normal_spec).
  destruct (Url_init_child_fields (String "#" f) p upp _ _ _ _ _ (get_url_info_hash f))
    as (u & Hu & Hraw & Hproto & Hdom & Hwww & Hfrag & Hpp & Hpd & Huse).
  cbn [String.eqb orb andb negb] in Hproto, Hdom, Hwww.
  destruct (Url_init_same_site_path (String "#" f) p upp _ _ _ _ _
              (get_url_info_hash f) (or_introl eq_refl)) as (u0 & Hu0 & Hpath).
  rewrite Hu in Hu0. injection Hu0 as <-.
  assert (Hjoined : joined_path (path p) (String "#" f) "" = path p).
  { unfold joined_path, is_fragment_reference.
    change (Str.startswith (String "#" f) "#") with true.
    cbn [orb andb]. destruct (String.eqb_spec (path p) "") as [->|_]; reflexivity. }
  rewrite Hjoined in Hpath.
  assert (Hpath' : path u = path p).
  { rewrite Hpath. destruct (String.eqb_spec (path p) "") as [->|_]; [reflexivity|].
    now apply refactor_id. }
  assert (Hsurf : _get_protocol u = protocol p).
  { unfold _get_protocol. rewrite Hpp, Hproto.
    destruct (String.eqb_spec (protocol p) "") as [->|_];
      match goal with |- (if ?c then _ else _) = _ => now destruct c end. }
  exists u. split; [exact Hu|]. split; [exact Hproto|]. split; [exact Hwww|].
  split; [exact Hdom|]. split; [exact Hpath'|].
  split.
  { rewrite Hfrag. destruct (String.eqb_spec (remove_unsafe f) "") as [Hempty|_];
      [exact Hempty|reflexivity]. }
  split.
  - unfold get_full_url. rewrite Hsurf, Hwww, Hdom, Hpath'.
    now destruct (String.eqb (fragment u) "").
  - intros Hhttp Hshown. unfold get_basic_url.
    rewrite Hsurf, Hshown, Hhttp, Hdom, Hpath'. reflexivity.
Qed.

Definition test_page : Url :=
  {| string_url := "http://www.mysite.com/test"; parent_protocol := "http";
     parent_www := Some true; parent_domain := "mysite.com"; parent_path := "";
     protocol := "http"; www := true; domain := "mysite.com"; path := "/test";
     fragment := ""; use_parent_protocol := true |}.

Lemma fragment_link_resolves_witness :
  exists u,
    Url_init (H := strict_library) "#fragment" (Some test_page) true = Some u /\
    protocol u = "http" /\ www u = true /\ domain u = "mysite.com" /\
    path u = "/test" /\ fragment u = "fragment" /\
    get_full_url u =
      "http" +:+ "://" +:+ "www." +:+ "mysite.com" +:+ "/test" +:+
      (if String.eqb (fragment u) "" then "" else "/#" +:+ fragment u) /\
    (Str.startswith "http" "http" = true -> _get_protocol test_page = "http" ->
     get_basic_url u = get_basic_url test_page).
Proof.
  exact (fragment_link_resolves (H := strict_library) "fragment" test_page true
           eq_refl eq_refl).
Defined.

(** X11. The scheme that a link shows.  For a url constructed with a parent
    whose scheme and domain are not empty: with [use_parent_protocol] set
    for it and for the parent, a link into the domain of the parent whose
    own scheme is empty or starts with "http" shows the scheme of the
    parent, so that the "http" and the "https" form of such a link have one
    basic url when the scheme of the parent starts with "http"; without
    [use_parent_protocol] a link shows its own scheme. *)
Theorem same_site_scheme `{Library} (url_ : string) (p : Url) (upp : bool) (u : Url) :
  Url_init url_ (Some p) upp = Some u ->
  protocol p <> "" -> domain p <> "" ->
  use_parent_protocol u = upp && use_parent_protocol p /\
  _get_protocol u =
    (if use_parent_protocol u && String.eqb (domain u) (domain p) &&
        (String.eqb (protocol u) "" || Str.startswith (protocol u) "http")
     then protocol p else protocol u) /\
  (use_parent_protocol u = true -> domain u = domain p ->
   Str.startswith (protocol u) "http" = true ->
   Str.startswith (protocol p) "http" = true ->
   get_basic_url u = protocol p +:+ "://" +:+ domain p +:+ path u) /\
  (upp = false -> _get_protocol u = protocol u).
Proof.
  intros Hu Hproto Hdom.
  destruct (get_url_info url_) as [[[[[protocol_ www_] domain_] path_] fragment_]|] eqn:Hinfo;
    [|unfold Url_init in Hu; rewrite Hinfo in Hu; discriminate].
  destruct (Url_init_child_fields url_ p upp _ _ _ _ _ Hinfo)
    as (u0 & Hu0 & _ & _ & _ & _ & _ & Hpp & Hpd & Huse).
  rewrite Hu in Hu0. injection Hu0 as <-.
  apply String.eqb_neq in Hproto, Hdom. rewrite Hproto in Hpp. rewrite Hdom in Hpd.
  assert (Hsurf : _get_protocol u =
            (if use_parent_protocol u && String.eqb (domain u) (domain p) &&
                (String.eqb (protocol u) "" || Str.startswith (protocol u) "http")
             then protocol p else protocol u)).
  { unfold _get_protocol. now rewrite Hpp, Hpd. }
  split; [rewrite Huse; now destruct upp|]. split; [exact Hsurf|]. split.
  - intros Hflag Hsame Hown Hparent. unfold get_basic_url.
    rewrite Hsurf, Hflag, Hsame, String.eqb_refl, Hown, orb_true_r. cbn [andb].
    now rewrite Hparent.
  - intros ->. rewrite Hsurf, Huse. reflexivity.
Qed.

Definition https_link : Url :=
  {| string_url := "https://www.mysite.com/a/"; parent_protocol := "http";
     parent_www := Some true; parent_domain := "mysite.com";
     parent_path := "/test"; protocol := "https"; www := true;
     domain := "mysite.com"; path := "/a"; fragment := "";
     use_parent_protocol := true |}.

Lemma same_site_scheme_witness :
  _get_protocol https_link = "http" /\
  get_basic_url https_link = "http" +:+ "://" +:+ "mysite.com" +:+ "/a".
Proof.
  pose proof (same_site_scheme (H := strict_library) "https://www.mysite.com/a/"
                test_page true https_link eq_refl
                (fun E : "http" = "" => eq_ind "http"
                   (fun s => match s with EmptyString => False | String _ _ => True end)
                   I "" E)
                (fun E : "mysite.com" = "" => eq_ind "mysite.com"
                   (fun s => match s with EmptyString => False | String _ _ => True end)
                   I "" E))
    as (_ & Hsurf & Hbasic & _).
  exact (conj Hsurf (Hbasic eq_refl eq_refl eq_refl eq_refl)).
Defined.

(* ===================================================================== *)
(** ** Constructing a [Url] from a full url                              *)
(* ===================================================================== *)

Section FullUrl.
Context `{Library}.

(** The fragment that [get_url_info] returns holds none of the characters
    that [urlsplit] removes. *)
Lemma get_url_info_fragment_safe url_ protocol_ www_ domain_ path_ fragment_ :
  get_url_info url_ = Some (protocol_, www_, domain_, path_, fragment_) ->
  Str.all safe fragment_ = true.
Proof.
  intros Hinfo.
  destruct (get_url_info_stages _ _ _ _ _ _ Hinfo)
    as (rest0 & netloc & rest1 & rest2 & path0 & query &
        Hscheme & Hnetloc & Hfragment & _).
  pose proof (all_split_scheme safe _
                (remove_unsafe_safe (Str.lstrip c0_control_or_space url_))) as H0.
  rewrite Hscheme in H0. cbn [snd] in H0.
  pose proof (all_split_netloc safe _ _ _ Hnetloc H0) as H1.
  unfold split_fragment, split_once in Hfragment.
  destruct (Str.mem "#" rest1); [|now injection Hfragment as _ <-].
  destruct (Str.find "#" rest1) as [i|]; injection Hfragment as _ <-;
    [exact (all_drop safe (S i) rest1 H1)|reflexivity].
Qed.

Lemma Url_init_fragment url_ parent upp u protocol_ www_ domain_ path_ fragment_ :
  get_url_info url_ = Some (protocol_, www_, domain_, path_, fragment_) ->
  Url_init url_ parent upp = Some u ->
  fragment u = (if String.eqb fragment_ "" then fragment_ else refactor fragment_).
Proof.
  intros Hinfo. unfold Url_init. rewrite Hinfo. intros [= <-].
  match goal with
  | |- fragment (_refactor_root_attributes ?y) = _ =>
      destruct (_refactor_root_attributes_fields y) as (_ & _ & _ & _ & _ & -> & _)
  end.
  now rewrite _refactor_attributes_fragment.
Qed.

(** Parsing the text that [get_full_url] makes of a scheme, a netloc, a
    path and a fragment. *)
Lemma get_url_info_rendered scheme N P Fr :
  Str.startswith scheme "http" = true ->
  Str.all scheme_char scheme = true ->
  Str.lower scheme = scheme ->
  Str.all safe scheme = true -> Str.all safe N = true ->
  Str.all safe P = true -> Str.all safe Fr = true ->
  Str.all (fun c => negb (is_delim c)) N = true ->
  brackets_accepted N ->
  _checknetloc N = true ->
  delim_headed P ->
  lacks "#" P = true ->
  lacks ";" P = true ->
  (Fr = "" -> Str.endswith P "?" = false) ->
  get_url_info
    (scheme +:+ "://" +:+ N +:+ P +:+ (if String.eqb Fr "" then "" else "/#" +:+ Fr)) =
  Some (scheme, Str.startswith N "www.",
        (if Str.startswith N "www." then Str.drop 4 N else N),
        (if String.eqb Fr "" then P else P +:+ "/"), Fr).
Proof.
  intros Hhttp Hchars Hlower Hs1 Hs2 Hs3 Hs4 HN Hbr Hcheck HP Hhash Hsemi Hend.
  set (F := if String.eqb Fr "" then "" else "/#" +:+ Fr).
  set (Q := if String.eqb Fr "" then P else P +:+ "/").
  assert (HF : Str.all safe F = true).
  { subst F. destruct (String.eqb Fr ""); [reflexivity|].
    rewrite !append_cons, append_nil_l. cbn [Str.all]. now rewrite Hs4. }
  assert (HR : delim_headed (P +:+ F)).
  { apply delim_headed_app; [exact HP|]. subst F. now destruct (String.eqb Fr ""). }
  assert (Hfrag : split_fragment (P +:+ F) = (Q, Fr)).
  { subst F Q. unfold split_fragment, split_once.
    destruct (String.eqb_spec Fr "") as [->|_].
    - now rewrite append_nil_r, mem_lacks, Hhash.
    - assert (HQ : lacks "#" (P +:+ "/") = true)
        by (unfold lacks in *; rewrite all_app, Hhash; reflexivity).
      assert (Hs : P +:+ "/#" +:+ Fr = (P +:+ "/") +:+ String "#" Fr)
        by (now rewrite append_assoc).
      rewrite Hs, mem_lacks.
      pose proof (find_app "#" _ Fr HQ) as Hfind.
      destruct (lacks "#" ((P +:+ "/") +:+ String "#" Fr)) eqn:El;
        [apply find_None in El; congruence|].
      cbn [negb]. rewrite Hfind. now rewrite take_app, drop_app_cons. }
  assert (HQend : Str.endswith Q "?" = false).
  { subst Q. destruct (String.eqb_spec Fr "") as [->|_]; [now apply Hend|].
    now rewrite endswith_char, last_char_app_char. }
  assert (HQsemi : lacks ";" Q = true).
  { subst Q. destruct (String.eqb Fr ""); [exact Hsemi|].
    unfold lacks in *. now rewrite all_app, Hsemi. }
  destruct scheme as [|c0 x]; [discriminate|].
  assert (Hc0 : c0 = "h"%char).
  { cbn [Str.startswith] in Hhttp. apply andb_true_iff in Hhttp as [Hc _].
    now apply Ascii.eqb_eq in Hc. }
  unfold get_url_info, urlparse, urlsplit.
  assert (Hstrip : Str.lstrip c0_control_or_space (String c0 x +:+ "://" +:+ N +:+ P +:+ F) =
                   String c0 x +:+ "://" +:+ N +:+ P +:+ F)
    by (rewrite append_cons, Hc0; reflexivity).
  rewrite Hstrip, remove_unsafe_id
    by (rewrite !all_app, Hs1, Hs2, Hs3, HF; reflexivity).
  change (String c0 x +:+ "://" +:+ N +:+ P +:+ F)
    with (String c0 x +:+ String ":" ("//" +:+ N +:+ P +:+ F)).
  rewrite split_scheme_app; [|subst c0; reflexivity|assumption].
  rewrite Hlower, (split_netloc_app N (P +:+ F) HN HR Hbr), Hfrag.
  destruct (split_query_rejoin Q HQend) as [Hjoin [n Hn]].
  destruct (split_query Q) as [path' query'] eqn:Hq. cbn [fst snd] in Hjoin, Hn.
  rewrite Hcheck. cbn [pr_scheme pr_path pr_netloc pr_query pr_fragment].
  assert (Hnosemi : Str.mem ";" path' = false).
  { rewrite mem_lacks, Hn. unfold lacks. rewrite all_take; [reflexivity|exact HQsemi]. }
  rewrite Hnosemi, andb_false_r.
  cbn [pr_scheme pr_path pr_netloc pr_query pr_fragment].
  rewrite Hjoin. now destruct (Str.startswith N "www.").
Qed.

End FullUrl.

(** X12. The full url of a [Url] is a text for the same [Url].  For a url
    constructed with no parent whose scheme starts with "http" and whose
    domain is not empty, with no ";" in its path and, when it has no
    fragment, no "?" at the end of its path: constructing a url from
    [get_full_url()] gives the same scheme, [www] flag, domain, path and
    fragment, hence the same full url and the same basic url. *)
Theorem full_url_reparse `{Library} (url_ : string) (upp : bool) (u : Url) :
  Url_init url_ None upp = Some u ->
  Str.startswith (protocol u) "http" = true ->
  domain u <> "" ->
  Str.mem ";" (path u) = false ->
  (fragment u = "" -> Str.endswith (path u) "?" = false) ->
  exists u',
    Url_init (get_full_url u) None upp = Some u' /\
    protocol u' = protocol u /\ www u' = www u /\ domain u' = domain u /\
    path u' = path u /\ fragment u' = fragment u /\
    get_full_url u' = get_full_url u /\
    get_basic_url u' = get_basic_url u.
Proof.
  intros Hu Hhttp Hdom Hsemi Hend.
  pose proof (Url_init_path_normal _ _ _ _ Hu) as Hnormal.
  pose proof (Url_init_fragment_normal _ _ _ _ Hu) as Hfnormal.
  pose proof (_get_protocol_root _ _ _ Hu) as Hsurf.
  destruct (Url_init_root_fields _ _ _ Hu)
    as (proto & w & d & p & f & Hinfo & _ & Hp & Hw & Hd & _).
  pose proof (Url_init_fragment _ _ _ _ _ _ _ _ _ Hinfo Hu) as Hfrag.
  pose proof (get_url_info_fragment_safe _ _ _ _ _ _ Hinfo) as Hfsafe.
  rewrite Hp in Hhttp. rewrite Hd in Hdom.
  destruct (Url_init_root_absolute url_ upp _ _ _ _ _ Hinfo Hdom)
    as (u0 & Hu0 & _ & _ & _ & Hpath & _).
  rewrite Hu in Hu0. injection Hu0 as <-.
  assert (Hproto : proto <> "") by (intros ->; discriminate).
  destruct (get_url_info_absolute_facts _ _ _ _ _ _ Hinfo Hdom Hproto)
    as (N & Hwn & Hdn & Hbr & Hcheck & Hchars & Hlower & Hs1 & Hs2 & Hs3 &
        Hnodelim & Hhead & Hhash).
  set (P := path u) in *. set (Fr := fragment u) in *.
  assert (HP : Str.all safe P = true /\ delim_headed P /\ lacks "#" P = true).
  { rewrite Hpath. destruct (String.eqb p ""); [now repeat split|].
    repeat split;
      [now apply all_refactor|now apply delim_headed_refactor|now apply all_refactor]. }
  destruct HP as (HP1 & HP2 & HP3).
  assert (HFr : Str.all safe Fr = true).
  { rewrite Hfrag. destruct (String.eqb f ""); [exact Hfsafe|now apply all_refactor]. }
  assert (HN : N = (if w then "www." else "") +:+ d).
  { rewrite Hdn. destruct w; [|reflexivity]. symmetry in Hwn.
    exact (startswith_app N "www." Hwn). }
  assert (HNsafe : Str.all safe N = true /\
                   Str.all (fun c => negb (is_delim c)) N = true).
  { rewrite HN, !all_app, Hs2, Hnodelim. now destruct w. }
  destruct HNsafe as [HNs HNd].
  assert (Hfull : get_full_url u =
            proto +:+ "://" +:+ N +:+ P +:+ (if String.eqb Fr "" then "" else "/#" +:+ Fr)).
  { unfold get_full_url. rewrite Hsurf, Hp, Hw, Hd, HN. fold P Fr.
    rewrite !append_assoc. now destruct (String.eqb Fr ""). }
  assert (Hinfo' : get_url_info (get_full_url u) =
            Some (proto, w, d, (if String.eqb Fr "" then P else P +:+ "/"), Fr)).
  { rewrite Hfull, Hwn, Hdn. rewrite <- Hwn.
    rewrite (get_url_info_rendered proto N P Fr); try assumption.
    - rewrite <- Hwn. reflexivity.
    - rewrite mem_lacks in Hsemi. now apply negb_false_iff in Hsemi. }
  destruct (Url_init_root_absolute (get_full_url u) upp _ _ _ _ _ Hinfo' Hdom)
    as (u' & Hu' & Hp' & Hw' & Hd' & Hpath' & _).
  pose proof (Url_init_fragment _ _ _ _ _ _ _ _ _ Hinfo' Hu') as Hfrag'.
  pose proof (_get_protocol_root _ _ _ Hu') as Hsurf'.
  assert (HpathP : path u' = P).
  { rewrite Hpath'. destruct (String.eqb_spec Fr "") as [_|_].
    - destruct (String.eqb_spec P "") as [->|_]; [reflexivity|now apply refactor_id].
    - destruct (String.eqb_spec (P +:+ "/") "") as [Hempty|_];
        [destruct P; discriminate|now apply refactor_app_slash]. }
  assert (HfragF : fragment u' = Fr).
  { rewrite Hfrag'. destruct (String.eqb_spec Fr "") as [->|_];
      [reflexivity|now apply refactor_id]. }
  exists u'. split; [exact Hu'|].
  split; [now rewrite Hp', Hp|]. split; [now rewrite Hw', Hw|].
  split; [now rewrite Hd', Hd|]. split; [exact HpathP|]. split; [exact HfragF|].
  split.
  - unfold get_full_url. rewrite Hsurf', Hsurf, Hp', Hp, Hw', Hw, Hd', Hd, HpathP, HfragF.
    reflexivity.
  - unfold get_basic_url.
    rewrite Hsurf', Hsurf, Hp', Hp, Hd', Hd, HpathP, Hhttp. reflexivity.
Qed.

Lemma full_url_reparse_witness :
  exists u',
    Url_init (H := strict_library) (get_full_url test_path_url) None true = Some u' /\
    protocol u' = "https" /\ www u' = true /\ domain u' = "mysite.com" /\
    path u' = "/test/path/?q=1" /\ fragment u' = "here" /\
    get_full_url u' = get_full_url test_path_url /\
    get_basic_url u' = get_basic_url test_path_url.
Proof.
  exact (full_url_reparse (H := strict_library)
           "https://www.mysite.com/test/path//?q=1#here/" true test_path_url
           eq_refl eq_refl
           (fun E : "mysite.com" = "" => eq_ind "mysite.com"
              (fun s => match s with EmptyString => False | String _ _ => True end)
              I "" E)
           eq_refl (fun _ => eq_refl)).
Defined.

(* ===================================================================== *)
(** ** The counter that [crawl] waits on                                 *)
(* ===================================================================== *)

(** A worker that holds an item taken from the queue for which
    [task_done()] was not called. *)
Definition busy (w : worker) : nat :=
  match w with Waiting => 0 | _ => 1 end.

Definition in_flight (ws : list worker) : nat := list_sum (map busy ws).

Lemma in_flight_insert ws : forall i w w',
  ws !! i = Some w ->
  (in_flight (<[i := w']> ws) + busy w = in_flight ws + busy w')%nat.
Proof.
  unfold in_flight, list_sum.
  induction ws as [|x ws IH]; intros [|i] w w' Hi; try discriminate.
  - injection Hi as ->. change (<[0%nat := w']> (w :: ws)) with (w' :: ws).
    cbn [map fold_right]. lia.
  - change (<[S i := w']> (x :: ws)) with (x :: <[i := w']> ws).
    change ((x :: ws) !! S i) with (ws !! i) in Hi.
    cbn [map fold_right]. specialize (IH i w w' Hi). lia.
Qed.

Lemma in_flight_replicate n : in_flight (replicate n Waiting) = 0%nat.
Proof. unfold in_flight, list_sum. induction n as [|n IH]; [reflexivity|exact IH]. Qed.

Lemma in_flight_zero ws :
  in_flight ws = 0%nat <-> forall i w, ws !! i = Some w -> w = Waiting.
Proof.
  unfold in_flight, list_sum. induction ws as [|x ws IH].
  - split; [intros _ i w Hi; destruct i; discriminate|reflexivity].
  - cbn [map fold_right]. split.
    + intros Hs i w Hi. destruct i as [|i].
      * injection Hi as <-. destruct x; cbn [busy] in Hs; [reflexivity|lia|lia].
      * apply (proj1 IH) with i; [lia|exact Hi].
    + intros Hall. rewrite (Hall 0%nat x eq_refl). cbn [busy Nat.add].
      apply IH. intros i w Hi. now apply (Hall (S i)).
Qed.

Section CrawlAccounting.
Context `{Library}.
Variable self : Crawler.

(** [unfinished_tasks] counts the items on the queue and the items that
    workers hold; the number of workers is [max_runners]. *)
Definition accounted (s : state) : Prop :=
  unfinished_tasks s = (length (_queue s) + in_flight (workers s))%nat /\
  length (workers s) = Z.to_nat (max_runners self).

Lemma accounted_start : accounted (crawl_start self).
Proof.
  unfold accounted, crawl_start. cbn [unfinished_tasks _queue workers length].
  split; [now rewrite in_flight_replicate|apply length_replicate].
Qed.

Lemma accounted_step s s' : accounted s -> step self s s' -> accounted s'.
Proof.
  intros [Hu Hl] Hstep.
  destruct Hstep as [s i s' Hw Htake|s i u d net st got st' Hw Hget|s i u d net st st' Hw Hget].
  - destruct (take_from_queue_cases _ _ _ Htake)
      as (u & d & rest & Hq & Hq' & [(_ & _ & Hws & Hu')|(_ & _ & Hws & Hu')]);
      rewrite Hq in Hu; cbn [length] in Hu; split; rewrite ?Hws, ?Hq', ?Hu'.
    + lia.
    + exact Hl.
    + pose proof (in_flight_insert _ _ _ (Fetching u d) Hw) as Hi. cbn [busy] in Hi. lia.
    + now rewrite length_insert.
  - unfold accounted, record_urls. cbn [unfinished_tasks _queue workers]. split.
    + pose proof (in_flight_insert _ _ _ Waiting Hw) as Hi. cbn [busy] in Hi.
      rewrite length_app. lia.
    + now rewrite length_insert.
  - unfold accounted. cbn [unfinished_tasks _queue workers]. split.
    + pose proof (in_flight_insert _ _ _ Raised Hw) as Hi. cbn [busy] in Hi. lia.
    + now rewrite length_insert.
Qed.

Lemma reachable_accounted s : reachable self s -> accounted s.
Proof.
  induction 1 as [|s s' _ IH Hstep]; [apply accounted_start|now apply (accounted_step s)].
Qed.

Lemma reachable_rtc s s' : reachable self s -> rtc (step self) s s' -> reachable self s'.
Proof.
  intros Hs Hrun. induction Hrun as [|s s1 s' Hstep _ IH]; [exact Hs|].
  apply IH. now apply (reachable_step self s).
Qed.

(** A worker that an exception ended stays so. *)
Lemma raised_step s s' i :
  step self s s' -> workers s !! i = Some Raised -> workers s' !! i = Some Raised.
Proof.
  intros Hstep Hi.
  assert (Hne : forall j w (x : worker), workers s !! j = Some w -> w <> Raised ->
                  <[j := x]> (workers s) !! i = Some Raised).
  { intros j w x Hj Hw. rewrite list_lookup_insert_ne; [exact Hi|].
    intros ->. rewrite Hi in Hj. now injection Hj as <-. }
  destruct Hstep as [s i0 s' Hw Htake|s i0 u d net st got st' Hw Hget|s i0 u d net st st' Hw Hget].
  - destruct (take_from_queue_cases _ _ _ Htake)
      as (u & d & rest & _ & _ & [(_ & _ & -> & _)|(_ & _ & -> & _)]); [exact Hi|].
    now apply (Hne i0 Waiting).
  - cbn [record_urls workers]. now apply (Hne i0 (Fetching u d)).
  - cbn [workers]. now apply (Hne i0 (Fetching u d)).
Qed.

Lemma raised_rtc s s' i :
  rtc (step self) s s' -> workers s !! i = Some Raised -> workers s' !! i = Some Raised.
Proof.
  intros Hrun. induction Hrun as [|s s1 s' Hstep _ IH]; [trivial|].
  intros Hi. apply IH. now apply (raised_step s).
Qed.

Lemma joined_idle s :
  accounted s ->
  (joined s <-> _queue s = [] /\ forall i w, workers s !! i = Some w -> w = Waiting).
Proof.
  intros [Hu _]. unfold joined. rewrite Hu. split.
  - intros H0. split; [destruct (_queue s); [reflexivity|cbn in H0; lia]|].
    apply in_flight_zero. lia.
  - intros [-> Hall]. apply in_flight_zero in Hall. now rewrite Hall.
Qed.

End CrawlAccounting.

(** X13. In every state of a run, [unfinished_tasks] is the number of items
    on the queue plus the number of workers that hold an item; so
    [self._queue.join()] returns exactly when the queue is empty and every
    worker waits for an item, and the number of workers stays
    [max_runners]. *)
Theorem crawl_joined_when_idle `{Library} (self : Crawler) (s : state) :
  reachable self s ->
  unfinished_tasks s = (length (_queue s) + in_flight (workers s))%nat /\
  length (workers s) = Z.to_nat (max_runners self) /\
  (joined s <->
   _queue s = [] /\ forall i w, workers s !! i = Some w -> w = Waiting).
Proof.
  intros Hs. pose proof (reachable_accounted self s Hs) as Ha.
  split; [apply Ha|]. split; [apply Ha|]. now apply (joined_idle self).
Qed.

Lemma crawl_joined_when_idle_witness :
  unfinished_tasks root_claimed =
    (length (_queue root_claimed) + in_flight (workers root_claimed))%nat /\
  length (workers root_claimed) = Z.to_nat (max_runners depth_zero_crawler) /\
  (joined root_claimed <->
   _queue root_claimed = [] /\
   forall i w, workers root_claimed !! i = Some w -> w = Waiting).
Proof.
  exact (crawl_joined_when_idle (H := strict_library) depth_zero_crawler root_claimed
           (reachable_step depth_zero_crawler _ _
              (reachable_start depth_zero_crawler)
              (step_take depth_zero_crawler
                 (crawl_start depth_zero_crawler) 0%nat root_claimed
                 eq_refl eq_refl))).
Defined.

(** X14. When the construction of a [Url] raises in [_get_urls_from_text],
    the exception ends the worker before [task_done()]: the worker takes no
    further item, and [self._queue.join()] never returns in the rest of the
    run, so [crawl] does not return. *)
Theorem crawl_hangs_after_raise `{Library} (self : Crawler) (s s' : state) (i : nat) :
  reachable self s ->
  workers s !! i = Some Raised ->
  rtc (step self) s s' ->
  workers s' !! i = Some Raised /\ ~ joined s'.
Proof.
  intros Hs Hi Hrun.
  pose proof (raised_rtc self s s' i Hrun Hi) as Hi'.
  split; [exact Hi'|]. intros Hj.
  apply (joined_idle self s' (reachable_accounted self s' (reachable_rtc self s s' Hs Hrun)))
    in Hj as [_ Hall].
  apply Hall in Hi'. discriminate.
Qed.

(** The state in which the worker that fetched the root was ended by a
    page holding "http://www[abc.com". *)
Definition root_raised : state :=
  {| crawled_urls := <["http://mysite.com" := []]> ∅;
     _queue := [];
     unfinished_tasks := 1;
     workers := [Raised; Waiting] |}.

Lemma crawl_hangs_after_raise_witness :
  workers root_raised !! 0%nat = Some Raised /\ ~ joined root_raised.
Proof.
  refine (crawl_hangs_after_raise (H := strict_library) depth_zero_crawler
            root_raised root_raised 0%nat _ eq_refl (rtc_refl _ _)).
  refine (reachable_step depth_zero_crawler root_claimed root_raised _ _).
  - exact (reachable_step depth_zero_crawler _ _
             (reachable_start depth_zero_crawler)
             (step_take depth_zero_crawler
                (crawl_start depth_zero_crawler) 0%nat root_claimed
                eq_refl eq_refl)).
  - refine (step_raise depth_zero_crawler root_claimed 0%nat
              (url regex_crawler) 0
              (fun _ _ => Body "see http://www[abc.com")
              {| requests := 0; trace := [] |}
              {| requests := 1; trace := [Request "http://mysite.com"] |}
              eq_refl _).
    vm_compute. reflexivity.
Defined.

(* ===================================================================== *)
(** ** Progress of a run                                                 *)
(* ===================================================================== *)

Section CrawlProgress.
Context `{Library}.
Variable self : Crawler.

(** A fetch that the transport answers with a text it cannot decode
    returns the empty list. *)
Lemma _get_urls_undecodable u st :
  exists st',
    _get_urls self (fun _ _ => UnicodeDecodeError) u 0 st = (Some [], st').
Proof.
  unfold _get_urls. rewrite _get_urls_nested_unfold. cbv zeta. eauto.
Qed.

Lemma fetching_or_not (ws : list worker) :
  (exists i u d, ws !! i = Some (Fetching u d)) \/
  (forall i u d, ws !! i <> Some (Fetching u d)).
Proof.
  induction ws as [|w ws [(i & u & d & Hi)|IH]].
  - right. intros [|i] u d; discriminate.
  - left. now exists (S i), u, d.
  - destruct w as [|u d|].
    + right. intros [|i] u d; [discriminate|apply IH].
    + left. now exists 0%nat, u, d.
    + right. intros [|i] u d; [discriminate|apply IH].
Qed.

Lemma progress s :
  accounted self s -> ~ joined s -> (0 < max_runners self)%Z ->
  (forall i, workers s !! i <> Some Raised) ->
  exists s', step self s s'.
Proof.
  intros [Hu Hl] Hj Hpos Hraised.
  destruct (fetching_or_not (workers s)) as [(i & u & d & Hi)|Hnone].
  - destruct (_get_urls_undecodable u {| requests := 0; trace := [] |}) as [st' Hget].
    eexists. exact (step_record self s i u d _ _ [] st' Hi Hget).
  - assert (Hall : forall i w, workers s !! i = Some w -> w = Waiting).
    { intros i [|u d|] Hi; [reflexivity|now apply Hnone in Hi|now apply Hraised in Hi]. }
    assert (H0 : workers s !! 0%nat = Some Waiting).
    { destruct (workers s) as [|w ws] eqn:Hws; [cbn in Hl; lia|].
      cbn. f_equal. now apply (Hall 0%nat). }
    apply in_flight_zero in Hall. unfold joined in Hj.
    destruct (_queue s) as [|[u d] rest] eqn:Hq; [cbn in Hu; lia|].
    destruct (take_from_queue s 0) as [s'|] eqn:Htake.
    + exists s'. now apply (step_take self s 0%nat).
    + unfold take_from_queue in Htake. rewrite Hq in Htake.
      destruct (bool_decide _); discriminate.
Qed.

(** The keys of the crawled urls are never removed. *)
Lemma crawled_step s s' k :
  step self s s' -> is_Some (crawled_urls s !! k) -> is_Some (crawled_urls s' !! k).
Proof.
  intros Hstep Hk.
  destruct Hstep as [s i s' Hw Htake|s i u d net st got st' Hw Hget|s i u d net st st' Hw Hget].
  - destruct (take_from_queue_cases _ _ _ Htake)
      as (u & d & rest & _ & _ & [(_ & -> & _)|(_ & -> & _)]); [exact Hk|].
    apply lookup_insert_is_Some'. now right.
  - unfold record_urls. cbn [crawled_urls]. apply lookup_insert_is_Some'. now right.
  - exact Hk.
Qed.

Lemma crawled_rtc s s' k :
  rtc (step self) s s' -> is_Some (crawled_urls s !! k) -> is_Some (crawled_urls s' !! k).
Proof.
  intros Hrun. induction Hrun as [|s s1 s' Hstep _ IH]; [trivial|].
  intros Hk. apply IH. now apply (crawled_step s).
Qed.

End CrawlProgress.

(** X15. A run does not stop before [self._queue.join()] returns unless an
    exception ended a worker: in a state of a crawler with at least one
    runner in which the queue is not joined and no worker was ended, a
    worker can take an item from the queue or record the result of its
    fetch. *)
Theorem crawl_progress `{Library} (self : Crawler) (s : state) :
  reachable self s ->
  (0 < max_runners self)%Z ->
  ~ joined s ->
  (forall i, workers s !! i <> Some Raised) ->
  exists s', step self s s'.
Proof.
  intros Hs Hpos Hj Hraised.
  now apply (progress self s (reachable_accounted self s Hs)).
Qed.

Lemma crawl_progress_witness : exists s', step (H := strict_library) depth_zero_crawler root_claimed s'.
Proof.
  refine (crawl_progress (H := strict_library) depth_zero_crawler root_claimed
            (reachable_step depth_zero_crawler _ _
               (reachable_start depth_zero_crawler)
               (step_take depth_zero_crawler
                  (crawl_start depth_zero_crawler) 0%nat root_claimed
                  eq_refl eq_refl))
            eq_refl _ _).
  - unfold joined. cbn. discriminate.
  - intros [|[|i]]; cbn; discriminate.
Defined.

(** X17. No url is fetched twice: a step makes a worker fetch a url only
    when the basic url of that url is no key of [crawled_urls]; the step
    makes it a key, it stays a key in the rest of the run, and no other
    worker is fetching a url with the same basic url. *)
Theorem fetch_starts_once `{Library} (self : Crawler) (s s' : state) (i : nat)
    (u : Url) (d : Z) :
  reachable self s ->
  step self s s' ->
  workers s !! i <> Some (Fetching u d) ->
  workers s' !! i = Some (Fetching u d) ->
  crawled_urls s !! get_basic_url u = None /\
  (forall s'', rtc (step self) s' s'' ->
               is_Some (crawled_urls s'' !! get_basic_url u)) /\
  (forall j u' d', j <> i -> workers s' !! j = Some (Fetching u' d') ->
                   get_basic_url u' <> get_basic_url u).
Proof.
  intros Hs Hstep Hbefore Hafter.
  assert (Hinv' : run_invariant self s').
  { apply (run_invariant_step self s); [now apply reachable_run_invariant|exact Hstep]. }
  assert (Hnew : crawled_urls s !! get_basic_url u = None).
  { destruct Hstep as [s i0 s' Hw Htake|s i0 u0 d0 net st got st' Hw Hget
                       |s i0 u0 d0 net st st' Hw Hget].
    - destruct (take_from_queue_cases _ _ _ Htake)
        as (u1 & d1 & rest & _ & _ & [(_ & _ & Hws & _)|(Hnone & _ & Hws & _)]);
        rewrite Hws in Hafter; [now destruct Hbefore|].
      destruct (decide (i = i0)) as [->|Hne].
      + rewrite list_lookup_insert_eq in Hafter by (now apply lookup_lt_Some in Hw).
        now injection Hafter as <- <-.
      + rewrite list_lookup_insert_ne in Hafter by congruence. now destruct Hbefore.
    - unfold record_urls in Hafter. cbn [workers] in Hafter.
      destruct (decide (i = i0)) as [->|Hne].
      + rewrite list_lookup_insert_eq in Hafter by (now apply lookup_lt_Some in Hw).
        discriminate.
      + rewrite list_lookup_insert_ne in Hafter by congruence. now destruct Hbefore.
    - cbn [workers] in Hafter.
      destruct (decide (i = i0)) as [->|Hne].
      + rewrite list_lookup_insert_eq in Hafter by (now apply lookup_lt_Some in Hw).
        discriminate.
      + rewrite list_lookup_insert_ne in Hafter by congruence. now destruct Hbefore. }
  split; [exact Hnew|]. split.
  - intros s'' Hrun. apply (crawled_rtc self s' s'' _ Hrun).
    destruct Hinv' as (_ & Hf & _). now apply (Hf i u d).
  - intros j u' d' Hne Hj. destruct Hinv' as (_ & _ & Hdiff).
    now apply (Hdiff j i u' d' u d).
Qed.

Lemma fetch_starts_once_witness :
  crawled_urls (crawl_start depth_zero_crawler) !! get_basic_url (url regex_crawler) = None /\
  (forall s'', rtc (step (H := strict_library) depth_zero_crawler) root_claimed s'' ->
               is_Some (crawled_urls s'' !! get_basic_url (url regex_crawler))) /\
  (forall j u' d', j <> 0%nat -> workers root_claimed !! j = Some (Fetching u' d') ->
                   get_basic_url u' <> get_basic_url (url regex_crawler)).
Proof.
  refine (fetch_starts_once (H := strict_library) depth_zero_crawler
            (crawl_start depth_zero_crawler) root_claimed 0%nat (url regex_crawler) 0
            (reachable_start depth_zero_crawler)
            (step_take depth_zero_crawler
               (crawl_start depth_zero_crawler) 0%nat root_claimed
               eq_refl eq_refl)
            _ eq_refl).
  cbn. discriminate.
Defined.

(* ===================================================================== *)
(** ** The urls that [_get_urls] returns                                 *)
(* ===================================================================== *)

Section RecordedDomain.
Context `{Library}.
Variable self : Crawler.

(** What [_get_urls] returns is the empty list or what
    [_get_urls_from_text] returned for a page. *)
Lemma _get_urls_result net u retries st got st' :
  _get_urls self net u retries st = (Some got, st') ->
  got = [] \/ exists text, _get_urls_from_text self text u = Some got.
Proof.
  unfold _get_urls. generalize recursion_limit. intros stack. revert retries st.
  induction stack as [|stack IH]; intros retries st;
    rewrite _get_urls_nested_unfold; cbv zeta;
    destruct (net (requests st) (get_basic_url u)) as [text| |].
  1, 4: destruct (_get_urls_from_text self text u) as [urls|] eqn:Htext;
        [|discriminate]; intros [= <- _]; right; now exists text.
  1, 3: intros [= <- _]; now left.
  all: destruct (retries <? max_retries self)%Z;
    [|intros [= <- _]; now left].
  - discriminate.
  - apply IH.
Qed.

Lemma _get_urls_from_text_filtered text parent urls :
  domain_filter self = true ->
  _get_urls_from_text self text parent = Some urls ->
  Forall (fun u => domain u = domain (url self)) urls.
Proof.
  intros Hf. unfold _get_urls_from_text. rewrite Hf.
  destruct (soup_raises text); [discriminate|].
  destruct (map_raising _ _) as [anchors|]; [|discriminate].
  destruct (if regex_search self then _ else _) as [found|]; [|discriminate].
  intros [= <-]. apply Forall_forall. intros u Hu.
  apply list_elem_of_In, filter_In in Hu as [_ Hu].
  apply String.eqb_eq in Hu. now symmetry.
Qed.

End RecordedDomain.

(* ===================================================================== *)
(** ** The limit of concurrent requests                                  *)
(* ===================================================================== *)

(** A trace in which the permit of [self._limit] is used as it should:
    with a limit every request is made between an acquire and the release
    that follows it, without a limit there is no acquire; and every sleep
    and every log entry happens while the permit is not held.  [held] says
    whether the permit is held before the trace, and it is not held after
    it. *)
Fixpoint permit_respected (limited held : bool) (tr : list event) : bool :=
  match tr with
  | [] => negb held
  | Acquire :: tr' => limited && negb held && permit_respected limited true tr'
  | Release :: tr' => held && permit_respected limited false tr'
  | Request _ :: tr' => Bool.eqb held limited && permit_respected limited held tr'
  | Sleep _ :: tr' => negb held && permit_respected limited held tr'
  | LogWarning _ :: tr' => negb held && permit_respected limited held tr'
  | LogError :: tr' => negb held && permit_respected limited held tr'
  end.

Lemma permit_respected_app limited (a b : list event) : forall held,
  permit_respected limited held a = true ->
  permit_respected limited held (a ++ b)%list = permit_respected limited false b.
Proof.
  induction a as [|e a IH]; intros held Ha.
  - cbn in Ha. apply negb_true_iff in Ha. now subst held.
  - cbn [app permit_respected] in Ha |- *.
    destruct e; apply andb_true_iff in Ha as [He Ha];
      rewrite He; cbn [andb]; now apply IH.
Qed.

Section Permits.
Context `{Library}.
Variable self : Crawler.

Definition limited : bool :=
  match concurrent_requests_limit self with Some _ => true | None => false end.

Lemma permit_request_events b :
  permit_respected limited false (request_events self b) = true.
Proof. unfold limited, request_events. now destruct (concurrent_requests_limit self). Qed.

Lemma permit_sleep_events d : permit_respected limited false (sleep_events d) = true.
Proof. unfold sleep_events. now destruct (PrimFloat.ltb 0 d). Qed.

Lemma permit_retry_events b k : forall retries,
  permit_respected limited false (retry_events self b retries k) = true.
Proof.
  induction k as [|k IH]; intros retries; [reflexivity|].
  cbn [retry_events].
  rewrite (permit_respected_app _ _ _ _ (permit_request_events b)).
  cbn [app permit_respected negb andb].
  now rewrite (permit_respected_app _ _ _ _ (permit_sleep_events _)).
Qed.

End Permits.

(** X19. In a call of [_get_urls], with a limit of concurrent requests
    every request is made holding the permit, acquired just before it and
    released just after it; without a limit no permit is acquired; and
    every sleep, between retries or after the request, and every log entry
    happens while the permit is not held. *)
Theorem _get_urls_permit `{Library} (self : Crawler)
    (net : nat -> string -> response) (url_ : Url) (n : nat) :
  permit_respected
    (match concurrent_requests_limit self with Some _ => true | None => false end)
    false
    (trace (snd (_get_urls self net url_ 0 {| requests := n; trace := [] |}))) = true.
Proof.
  unfold _get_urls.
  destruct (_get_urls_nested_spec recursion_limit self net url_ 0
              {| requests := n; trace := [] |})
    as (k & final & _ & _ & [(_ & _ & -> & Hlast)|(_ & _ & _ & _ & ->)]);
    cbn [trace app]; fold (limited self); [|apply permit_retry_events].
  rewrite (permit_respected_app _ _ _ _ (permit_retry_events self _ k 0%Z)).
  rewrite (permit_respected_app _ _ _ _ (permit_request_events self _)).
  destruct (net _ _) as [text| |].
  - destruct Hlast as [_ ->].
    destruct (_get_urls_from_text self text url_); [apply permit_sleep_events|reflexivity].
  - destruct Hlast as [_ ->]. reflexivity.
  - destruct Hlast as (_ & _ & ->). reflexivity.
Qed.

(* ===================================================================== *)
(** ** The items that a page puts on the queue                           *)
(* ===================================================================== *)

Lemma omap_filter_map {A B : Type} (ok : A -> bool) (f : A -> B) (l : list A) :
  omap (fun x => if ok x then Some (f x) else None) l = map f (List.filter ok l).
Proof.
  induction l as [|x l IH]; [reflexivity|]. cbn. destruct (ok x); cbn; now rewrite IH.
Qed.

Lemma NoDup_map_filter {A B : Type} (f : A -> B) (ok : A -> bool) (l : list A) :
  NoDup (map f l) -> NoDup (map f (List.filter ok l)).
Proof.
  induction l as [|x l IH]; [trivial|]. cbn [map List.filter].
  intros Hnd. apply NoDup_cons in Hnd as [Hx Hnd].
  destruct (ok x); [|now apply IH]. cbn [map]. apply NoDup_cons. split; [|now apply IH].
  intros Hin. apply Hx. apply list_elem_of_In in Hin. apply list_elem_of_In.
  apply in_map_iff in Hin as (y & Hy & Hin). apply filter_In in Hin as [Hin _].
  apply in_map_iff. now exists y.
Qed.

(** X20. What a fetched page puts on the queue.  When a worker records the
    urls [got] of the page [u] found at depth [d], the queue gets, behind
    what it holds and when [max_depth] is unset or above [d], one item of
    depth [d + 1] for every basic url other than the one of the page that
    occurs in [got], in the order of the first occurrences, provided the
    first url with that basic url has the domain of the root, is crawlable
    and its basic url is no key of [crawled_urls]; so the items of one page
    have different basic urls. *)
Theorem queued_children `{Library} (self : Crawler) (s : state) (i : nat)
    (u : Url) (d : Z) (got : list Url) :
  let k := get_basic_url u in
  let urls := List.filter (fun c => negb (String.eqb (get_basic_url c) k)) got in
  let s' := record_urls self s i u d got in
  let eligible := fun c : Url =>
    String.eqb (domain c) (domain (url self)) &&
    negb (bool_decide (is_Some (crawled_urls s' !! get_basic_url c))) &&
    is_crawlable c _default_regex in
  let added :=
    if match max_depth self with None => true | Some m => (d <? m)%Z end
    then map (fun c => (c, (d + 1)%Z)) (List.filter eligible (fresh_matches [] urls))
    else [] in
  _queue s' = (_queue s ++ added)%list /\
  NoDup (map (fun item : Url * Z => get_basic_url item.1) added) /\
  unfinished_tasks s' = Nat.pred (unfinished_tasks s + length added).
Proof.
  intros k urls s' eligible added.
  assert (Hadded :
    (if match max_depth self with None => true | Some m => (d <? m)%Z end
     then urls_to_queue self (crawled_urls s') (UrlSet_init urls) d else []) = added).
  { subst added. destruct (match max_depth self with None => true | Some m => _ end);
      [|reflexivity].
    unfold urls_to_queue.
    rewrite UrlSet_init_values.
    exact (omap_filter_map eligible (fun c => (c, (d + 1)%Z)) _). }
  split; [|split].
  - subst s'. unfold record_urls at 1. cbn [_queue]. f_equal. exact Hadded.
  - subst added. destruct (match max_depth self with None => true | Some m => _ end);
      [|constructor].
    rewrite map_map. cbn [fst]. apply NoDup_map_filter.
    apply fresh_matches_keys.
  - subst s'. unfold record_urls at 1. cbn [unfinished_tasks]. do 2 f_equal.
    exact (f_equal (@length _) Hadded).
Qed.

(* ===================================================================== *)
(** ** The fetches of a run                                              *)
(* ===================================================================== *)

(** A fetch that has returned: the url that the worker took from the
    queue, its depth, and the urls that [_get_urls] returned for it. *)
Definition fetch : Type := Url * Z * list Url.

(** The states of a run together with the fetches that have returned so
    far, in the order of their return.  The steps are those of [step]. *)
Inductive run `{Library} (self : Crawler) : list fetch -> state -> Prop :=
| run_start : run self [] (crawl_start self)
| run_take h s i s' :
    run self h s ->
    workers s !! i = Some Waiting ->
    take_from_queue s i = Some s' ->
    run self h s'
| run_record h s i url_in_queue depth net st got st' :
    run self h s ->
    workers s !! i = Some (Fetching url_in_queue depth) ->
    _get_urls self net url_in_queue 0 st = (Some got, st') ->
    run self (h ++ [(url_in_queue, depth, got)])
      (record_urls self s i url_in_queue depth got)
| run_raise h s i url_in_queue depth net st st' :
    run self h s ->
    workers s !! i = Some (Fetching url_in_queue depth) ->
    _get_urls self net url_in_queue 0 st = (None, st') ->
    run self h {| crawled_urls := crawled_urls s;
                  _queue := _queue s;
                  unfinished_tasks := unfinished_tasks s;
                  workers := <[i := Raised]> (workers s) |}.

Definition fetch_key (f : fetch) : string := get_basic_url f.1.1.

Section CrawlHistory.
Context `{Library}.
Variable self : Crawler.

(** The states of [run] are the reachable ones. *)
Lemma run_reachable h s : run self h s -> reachable self s.
Proof.
  induction 1 as [|h s i s' _ IH Hw Htake|h s i u d net st got st' _ IH Hw Hget
                  |h s i u d net st st' _ IH Hw Hget].
  - apply reachable_start.
  - apply (reachable_step self s); [exact IH|]. now apply (step_take self s i).
  - apply (reachable_step self s); [exact IH|].
    now apply (step_record self s i u d net st got st').
  - apply (reachable_step self s); [exact IH|].
    now apply (step_raise self s i u d net st st').
Qed.

Lemma reachable_run s : reachable self s -> exists h, run self h s.
Proof.
  induction 1 as [|s s' _ [h Hh] Hstep]; [exists []; apply run_start|].
  destruct Hstep as [s i s' Hw Htake|s i u d net st got st' Hw Hget|s i u d net st st' Hw Hget].
  - exists h. now apply (run_take self h s i).
  - exists (h ++ [(u, d, got)])%list. now apply (run_record self h s i u d net st got st').
  - exists h. now apply (run_raise self h s i u d net st st').
Qed.

(** The fetches that have returned and the entries of [crawled_urls]: a
    returned fetch was one of a frontier item and its entry is the one the
    worker recorded; no url that is being fetched has the basic url of a
    returned fetch; every entry is the one of a returned fetch, or it is
    the empty list that a worker wrote before a fetch that has not
    returned or that an exception ended; no two returned fetches have the
    same basic url. *)
Definition history_recorded (h : list fetch) (s : state) : Prop :=
  (forall u d got, In (u, d, got) h ->
     frontier_item self (u, d) /\
     crawled_urls s !! get_basic_url u =
       Some (map get_basic_url
               (List.filter
                  (fun c => negb (String.eqb (get_basic_url c) (get_basic_url u)))
                  got))) /\
  (forall i u d, workers s !! i = Some (Fetching u d) ->
     forall u' d' got', In (u', d', got') h -> get_basic_url u' <> get_basic_url u) /\
  (forall k l, crawled_urls s !! k = Some l ->
     (exists u d got,
        In (u, d, got) h /\ k = get_basic_url u /\
        l = map get_basic_url
              (List.filter (fun c => negb (String.eqb (get_basic_url c) k)) got)) \/
     (l = [] /\ exists i u d, workers s !! i = Some (Fetching u d) /\ get_basic_url u = k) \/
     (l = [] /\ exists i, workers s !! i = Some Raised)) /\
  NoDup (map fetch_key h).

Lemma run_history_recorded h s : run self h s -> history_recorded h s.
Proof.
  induction 1 as [|h s i s' Hrun IH Hw Htake|h s i u d net st got st' Hrun IH Hw Hget
                  |h s i u d net st st' Hrun IH Hw Hget].
  - split; [|split; [|split]].
    + intros u d got [].
    + intros i u d _ u' d' got' [].
    + intros k l Hk. cbn in Hk. rewrite lookup_empty in Hk. discriminate.
    + apply NoDup_nil_2.
  - destruct IH as (Ha & Hb & Hc & Hd).
    destruct (take_from_queue_cases _ _ _ Htake)
      as (u & d & rest & _ & _ & [(_ & Hcr & Hws & _)|(Hnone & Hcr & Hws & _)]);
      unfold history_recorded; rewrite Hcr, Hws;
      [exact (conj Ha (conj Hb (conj Hc Hd)))|].
    split; [|split; [|split]].
    + intros u1 d1 got1 Hin. destruct (Ha _ _ _ Hin) as [Hfr Hk]. split; [exact Hfr|].
      rewrite lookup_insert_ne; [exact Hk|].
      intros Heq. rewrite Heq, Hk in Hnone. discriminate.
    + intros j u1 d1 Hj u' d' got' Hin.
      destruct (decide (j = i)) as [->|Hne].
      * rewrite list_lookup_insert_eq in Hj by (now apply lookup_lt_Some in Hw).
        injection Hj as <- <-. intros Heq. destruct (Ha _ _ _ Hin) as [_ Hk].
        rewrite Heq, Hnone in Hk. discriminate.
      * rewrite list_lookup_insert_ne in Hj by congruence.
        exact (Hb j u1 d1 Hj _ _ _ Hin).
    + intros k l Hk. apply lookup_insert_Some in Hk as [[<- <-]|[Hne Hk]].
      * right. left. split; [reflexivity|]. exists i, u, d. split; [|reflexivity].
        apply list_lookup_insert_eq. now apply lookup_lt_Some in Hw.
      * destruct (Hc k l Hk)
          as [Hr|[[-> (j & u1 & d1 & Hj & Hkj)]|[-> (j & Hj)]]]; [now left| |].
        -- right. left. split; [reflexivity|]. exists j, u1, d1. split; [|exact Hkj].
           rewrite list_lookup_insert_ne; [exact Hj|].
           intros ->. rewrite Hw in Hj. discriminate.
        -- right. right. split; [reflexivity|]. exists j.
           rewrite list_lookup_insert_ne; [exact Hj|].
           intros ->. rewrite Hw in Hj. discriminate.
    + exact Hd.
  - destruct IH as (Ha & Hb & Hc & Hd).
    destruct (reachable_run_invariant self s (run_reachable h s Hrun)) as (_ & Hf & Hdiff).
    unfold history_recorded, record_urls. cbn [crawled_urls workers].
    split; [|split; [|split]].
    + intros u1 d1 got1 Hin. apply in_app_or in Hin as [Hin|[Heq|[]]].
      * destruct (Ha _ _ _ Hin) as [Hfr Hk]. split; [exact Hfr|].
        rewrite lookup_insert_ne; [exact Hk|].
        intros Heq. now apply (Hb i u d Hw _ _ _ Hin).
      * injection Heq as <- <- <-. split; [apply (Hf i _ _ Hw)|].
        apply lookup_insert_Some. left. now split.
    + intros j u1 d1 Hj u' d' got' Hin.
      destruct (decide (j = i)) as [->|Hne].
      * rewrite list_lookup_insert_eq in Hj by (now apply lookup_lt_Some in Hw).
        discriminate.
      * rewrite list_lookup_insert_ne in Hj by congruence.
        apply in_app_or in Hin as [Hin|[Heq|[]]]; [exact (Hb j u1 d1 Hj _ _ _ Hin)|].
        injection Heq as <- <- <-. apply (Hdiff i j u d u1 d1); [congruence|exact Hw|exact Hj].
    + intros k l Hk. apply lookup_insert_Some in Hk as [[<- <-]|[Hne Hk]].
      * left. exists u, d, got. split; [apply in_or_app; right; now left|]. now split.
      * destruct (Hc k l Hk)
          as [(u1 & d1 & got1 & Hin & Hk1 & Hl)|[[-> (j & u1 & d1 & Hj & Hkj)]|[-> (j & Hj)]]].
        -- left. exists u1, d1, got1. split; [apply in_or_app; now left|]. now split.
        -- right. left. split; [reflexivity|]. exists j, u1, d1. split; [|exact Hkj].
           rewrite list_lookup_insert_ne; [exact Hj|].
           intros ->. rewrite Hw in Hj. injection Hj as <- <-. now destruct Hne.
        -- right. right. split; [reflexivity|]. exists j.
           rewrite list_lookup_insert_ne; [exact Hj|].
           intros ->. rewrite Hw in Hj. discriminate.
    + rewrite map_app. apply NoDup_app. split; [exact Hd|]. split; [|apply NoDup_singleton].
      intros x Hx Hx'. cbn in Hx'. apply list_elem_of_singleton in Hx'. subst x.
      apply list_elem_of_In, in_map_iff in Hx as ([[u1 d1] got1] & Hkey & Hin).
      exact (Hb i u d Hw u1 d1 got1 Hin Hkey).
  - destruct IH as (Ha & Hb & Hc & Hd).
    unfold history_recorded. cbn [crawled_urls workers].
    split; [exact Ha|]. split; [|split; [|exact Hd]].
    + intros j u1 d1 Hj.
      destruct (decide (j = i)) as [->|Hne].
      * rewrite list_lookup_insert_eq in Hj by (now apply lookup_lt_Some in Hw).
        discriminate.
      * rewrite list_lookup_insert_ne in Hj by congruence. exact (Hb j u1 d1 Hj).
    + intros k l Hk.
      assert (Hi : <[i := Raised]> (workers s) !! i = Some Raised)
        by (apply list_lookup_insert_eq; now apply lookup_lt_Some in Hw).
      destruct (Hc k l Hk)
        as [Hr|[[-> (j & u1 & d1 & Hj & Hkj)]|[-> (j & Hj)]]]; [now left| |].
      * destruct (decide (j = i)) as [->|Hne].
        -- right. right. split; [reflexivity|]. now exists i.
        -- right. left. split; [reflexivity|]. exists j, u1, d1. split; [|exact Hkj].
           rewrite list_lookup_insert_ne by congruence. exact Hj.
      * right. right. split; [reflexivity|]. now exists i.
Qed.

(** The fetch of the root: no step was made yet, or a worker is fetching
    the root, or its fetch has returned, or an exception ended a worker. *)
Definition root_fetch (h : list fetch) (s : state) : Prop :=
  s = crawl_start self \/
  (exists i, workers s !! i = Some (Fetching (url self) 0)) \/
  (exists got, In (url self, 0%Z, got) h) \/
  (exists i, workers s !! i = Some Raised).

Lemma run_root_fetch h s : run self h s -> root_fetch h s.
Proof.
  induction 1 as [|h s i s' Hrun IH Hw Htake|h s i u d net st got st' Hrun IH Hw Hget
                  |h s i u d net st st' Hrun IH Hw Hget].
  - now left.
  - destruct (take_from_queue_cases _ _ _ Htake)
      as (u & d & rest & Hqs & _ & [(Hsome & _ & Hws & _)|(_ & _ & Hws & _)]).
    + destruct IH as [->|[(j & Hj)|[Hgot|(j & Hj)]]].
      * cbn in Hsome. rewrite lookup_empty in Hsome. now destruct Hsome.
      * right. left. exists j. now rewrite Hws.
      * right. right. now left.
      * right. right. right. exists j. now rewrite Hws.
    + destruct IH as [->|[(j & Hj)|[Hgot|(j & Hj)]]].
      * right. left. exists i. rewrite Hws. injection Hqs as <- <- _.
        apply list_lookup_insert_eq. now apply lookup_lt_Some in Hw.
      * right. left. exists j. rewrite Hws, list_lookup_insert_ne; [exact Hj|].
        intros ->. rewrite Hw in Hj. discriminate.
      * right. right. now left.
      * right. right. right. exists j. rewrite Hws, list_lookup_insert_ne; [exact Hj|].
        intros ->. rewrite Hw in Hj. discriminate.
  - unfold record_urls. destruct IH as [->|[(j & Hj)|[[got0 Hgot]|(j & Hj)]]].
    + cbn in Hw. apply lookup_replicate in Hw as [Hw _]. discriminate.
    + destruct (decide (j = i)) as [->|Hne].
      * rewrite Hw in Hj. injection Hj as -> ->.
        right. right. left. exists got. apply in_or_app. right. now left.
      * right. left. exists j. cbn [workers].
        rewrite list_lookup_insert_ne by congruence. exact Hj.
    + right. right. left. exists got0. apply in_or_app. now left.
    + right. right. right. exists j. cbn [workers].
      rewrite list_lookup_insert_ne; [exact Hj|].
      intros ->. rewrite Hw in Hj. discriminate.
  - right. right. right. exists i. cbn [workers].
    apply list_lookup_insert_eq. now apply lookup_lt_Some in Hw.
Qed.

(** With the domain filter the urls that a fetch returns have the domain
    of the root. *)
Lemma run_got_in_domain h s :
  domain_filter self = true -> run self h s ->
  forall u d got, In (u, d, got) h ->
    Forall (fun c => domain c = domain (url self)) got.
Proof.
  intros Hf.
  induction 1 as [|h s i s' Hrun IH Hw Htake|h s i u d net st got st' Hrun IH Hw Hget
                  |h s i u d net st st' Hrun IH Hw Hget]; try exact IH.
  - intros u d got [].
  - intros u1 d1 got1 Hin. apply in_app_or in Hin as [Hin|[Heq|[]]]; [now apply (IH u1 d1)|].
    injection Heq as <- <- <-.
    destruct (_get_urls_result self _ _ _ _ _ _ Hget) as [->|[text Htext]];
      [apply Forall_nil_2|].
    exact (_get_urls_from_text_filtered self _ _ _ Hf Htext).
Qed.

End CrawlHistory.

(** X16. The crawler fetches the root and, besides it, only crawlable urls
    of the domain of the root found within the depth limit: in a run, a
    url that a worker is fetching at depth [d], and a url whose fetch at
    depth [d] has returned, is the root at depth 0, or it has the domain of
    the root, [is_crawlable] holds for it, and [d] is [depth + 1] for a
    depth that [max_depth], if set, is above. *)
Theorem fetches_in_domain `{Library} (self : Crawler) (h : list fetch) (s : state)
    (u : Url) (d : Z) :
  run self h s ->
  (exists got, In (u, d, got) h) \/ (exists i, workers s !! i = Some (Fetching u d)) ->
  (u, d) = (url self, 0%Z) \/
  (domain u = domain (url self) /\
   is_crawlable u _default_regex = true /\
   exists depth : Z,
     d = (depth + 1)%Z /\ (0 <= depth)%Z /\
     match max_depth self with Some m => (depth < m)%Z | None => True end).
Proof.
  intros Hrun Hfetch.
  assert (Hitem : frontier_item self (u, d)).
  { destruct Hfetch as [[got Hin]|[i Hi]].
    - destruct (run_history_recorded self h s Hrun) as (Ha & _).
      now apply (Ha u d got).
    - destruct (reachable_run_invariant self s (run_reachable self h s Hrun))
        as (_ & Hf & _).
      now apply (Hf i u d). }
  destruct Hitem as [Hroot|(depth & Hd & Hpos & Hallowed & Hdom & Hc)]; [now left|].
  right. split; [exact Hdom|]. split; [exact Hc|]. now exists depth.
Qed.

(** X18. With the domain filter, [crawled_urls] names urls of the domain
    of the root only: every url that a fetch of the run returned has the
    domain of the root, and every list of [crawled_urls] is empty or is
    made of the basic urls of the urls that one of these fetches returned,
    the fetch of the url whose basic url is its key. *)
Theorem recorded_children_in_domain `{Library} (self : Crawler) (h : list fetch)
    (s : state) :
  run self h s ->
  domain_filter self = true ->
  (forall u d got, In (u, d, got) h ->
     Forall (fun c => domain c = domain (url self)) got) /\
  (forall k l, crawled_urls s !! k = Some l ->
     l = [] \/
     exists u d got,
       In (u, d, got) h /\ k = get_basic_url u /\
       l = map get_basic_url
             (List.filter (fun c => negb (String.eqb (get_basic_url c) k)) got)).
Proof.
  intros Hrun Hf. split; [exact (run_got_in_domain self h s Hf Hrun)|].
  intros k l Hk.
  destruct (run_history_recorded self h s Hrun) as (_ & _ & Hc & _).
  destruct (Hc k l Hk) as [Hr|[[-> _]|[-> _]]]; [now right|now left|now left].
Qed.

(** X21. What [crawl] returns.  When [self._queue.join()] returns, the
    fetch of the root at depth 0 has returned; the keys of [crawled_urls]
    are the basic urls of the urls whose fetch has returned, no two of
    which have the same basic url; and the list of a key is the one of
    that fetch: the basic urls of the urls that [_get_urls] returned for
    it, in their order, less those equal to the key. *)
Theorem crawl_result `{Library} (self : Crawler) (h : list fetch) (s : state) :
  run self h s ->
  joined s ->
  (exists got, In (url self, 0%Z, got) h) /\
  NoDup (map fetch_key h) /\
  forall k l,
    crawled_urls s !! k = Some l <->
    exists u d got,
      In (u, d, got) h /\ k = get_basic_url u /\
      l = map get_basic_url
            (List.filter (fun c => negb (String.eqb (get_basic_url c) k)) got).
Proof.
  intros Hrun Hj.
  pose proof (run_reachable self h s Hrun) as Hs.
  apply (joined_idle self s (reachable_accounted self s Hs)) in Hj as [Hq Hall].
  destruct (run_history_recorded self h s Hrun) as (Ha & _ & Hc & Hd).
  split; [|split; [exact Hd|]].
  - destruct (run_root_fetch self h s Hrun) as [->|[(i & Hi)|[Hgot|(i & Hi)]]];
      [discriminate Hq| |exact Hgot|]; apply Hall in Hi; discriminate.
  - intros k l. split.
    + intros Hk.
      destruct (Hc k l Hk) as [Hr|[[_ (i & u & d & Hi & _)]|[_ (i & Hi)]]];
        [exact Hr| |]; apply Hall in Hi; discriminate.
    + intros (u & d & got & Hin & -> & ->). now apply (Ha u d got).
Qed.
(** A run of a crawler with two runners and no depth limit: the root
    names page "/a", itself and a page of another site; page "/a" names
    the root. *)
Definition small_crawler : Crawler :=
  {| url := url regex_crawler;
     domain_filter := true; max_runners := 2; print_in_real_time := false;
     max_retries := 5; sleep_between_retries := 0x1.3333333333333p-2%float;
     max_depth := None; regex_search := true; assume_parent_protocol := true;
     sleep_after_request := 0%float; concurrent_requests_limit := None |}.

(** The root as page "/a" names it. *)
Definition root_from_a : Url :=
  {| string_url := "http://mysite.com"; parent_protocol := "http";
     parent_www := Some false; parent_domain := "mysite.com";
     parent_path := "/a"; protocol := "http"; www := false;
     domain := "mysite.com"; path := ""; fragment := "";
     use_parent_protocol := true |}.

Definition root_returned : state :=
  record_urls small_crawler root_claimed 0%nat (url regex_crawler) 0
    [page_a; url regex_crawler].

Definition page_a_claimed : state :=
  {| crawled_urls := <["http://mysite.com/a" := []]> (crawled_urls root_returned);
     _queue := [];
     unfinished_tasks := 1;
     workers := [Waiting; Fetching page_a 1] |}.

Definition page_a_returned : state :=
  record_urls small_crawler page_a_claimed 1%nat page_a 1 [root_from_a].

Definition two_fetches : list fetch :=
  [(url regex_crawler, 0%Z, [page_a; url regex_crawler]); (page_a, 1%Z, [root_from_a])].

Lemma two_fetches_run :
  run (H := strict_library) small_crawler two_fetches page_a_returned.
Proof.
  refine (run_record small_crawler [_] page_a_claimed 1%nat page_a 1
            (fun _ _ => Body "<p>http://mysite.com</p>")
            {| requests := 1; trace := [] |} [root_from_a]
            {| requests := 2; trace := [Request "http://mysite.com/a"] |}
            (run_take small_crawler _ root_returned 1%nat page_a_claimed
               (run_record small_crawler [] root_claimed 0%nat (url regex_crawler) 0
                  (fun _ _ =>
                     Body "<p>http://mysite.com/a http://mysite.com http://other.com/x</p>")
                  {| requests := 0; trace := [] |} [page_a; url regex_crawler]
                  {| requests := 1; trace := [Request "http://mysite.com"] |}
                  (run_take small_crawler [] (crawl_start small_crawler) 0%nat
                     root_claimed (run_start small_crawler) eq_refl eq_refl)
                  eq_refl _)
               eq_refl _)
            eq_refl _).
  - vm_compute. reflexivity.
  - vm_compute. reflexivity.
  - vm_compute. reflexivity.
Defined.

Lemma fetches_in_domain_witness :
  domain page_a = domain (url small_crawler) /\
  is_crawlable page_a _default_regex = true /\
  exists depth : Z,
    1%Z = (depth + 1)%Z /\ (0 <= depth)%Z /\
    match max_depth small_crawler with Some m => (depth < m)%Z | None => True end.
Proof.
  destruct (fetches_in_domain (H := strict_library) small_crawler two_fetches
              page_a_returned page_a 1 two_fetches_run
              (or_introl (ex_intro _ [root_from_a] (or_intror (or_introl eq_refl)))))
    as [Hroot|Hpage]; [discriminate Hroot|exact Hpage].
Defined.

Lemma recorded_children_in_domain_witness :
  (forall u d got, In (u, d, got) two_fetches ->
     Forall (fun c => domain c = domain (url small_crawler)) got) /\
  (forall k l, crawled_urls page_a_returned !! k = Some l ->
     l = [] \/
     exists u d got,
       In (u, d, got) two_fetches /\ k = get_basic_url u /\
       l = map get_basic_url
             (List.filter (fun c => negb (String.eqb (get_basic_url c) k)) got)).
Proof.
  exact (recorded_children_in_domain (H := strict_library) small_crawler two_fetches
           page_a_returned two_fetches_run eq_refl).
Defined.

Lemma crawl_result_witness :
  (exists got, In (url small_crawler, 0%Z, got) two_fetches) /\
  NoDup (map fetch_key two_fetches) /\
  forall k l,
    crawled_urls page_a_returned !! k = Some l <->
    exists u d got,
      In (u, d, got) two_fetches /\ k = get_basic_url u /\
      l = map get_basic_url
            (List.filter (fun c => negb (String.eqb (get_basic_url c) k)) got).
Proof.
  refine (crawl_result (H := strict_library) small_crawler two_fetches page_a_returned
            two_fetches_run _).
  vm_compute. reflexivity.
Defined.

Example crawl_result_two_pages :
  crawled_urls page_a_returned =
    <["http://mysite.com/a" := ["http://mysite.com"]]>
      (<["http://mysite.com" := ["http://mysite.com/a"]]> ∅).
Proof. vm_compute. reflexivity. Qed.
